(** * rctclient.utils: checksum and value codec

    A shallow embedding of [src/rctclient/utils.py] (the functions [CRC16],
    [encode_value] and [decode_value]) together with the properties that
    the specification states about them.

    Python integers are unbounded, so they are modelled by [Z]; the
    operators [&], [^] and [<<] are [Z.land], [Z.lxor] and [Z.shiftl].
    A [bytes] or [bytearray] object is a [list byte]. *)

From Stdlib Require Import ZArith List Bool Lia.
From Stdlib Require Import Strings.Byte.
From Stdlib Require Import Floats.SpecFloat.
Import ListNotations.

Local Open Scope Z_scope.

(** ** Bytes *)

(** The integer a byte denotes when Python iterates over a buffer. *)
Definition byte_val (b : byte) : Z := Z.of_N (Byte.to_N b).

(** The byte holding the low eight bits of an integer. *)
Definition byte_of_Z (z : Z) : byte :=
  match Byte.of_N (Z.to_N (z mod 256)) with
  | Some b => b
  | None => x00
  end.

(** Python truth value of an integer: [if n:]. *)
Definition truthy (n : Z) : bool := negb (n =? 0).

(** ** The checksum engine *)

Module Checksum.

Definition polynom : Z := 0x1021.

(** [buffer = bytearray(data); if len(data) & 0x01: buffer.append(0)] *)
Definition pad (data : list byte) : list byte :=
  if truthy (Z.land (Z.of_nat (length data)) 0x01)
  then data ++ [x00]
  else data.

(** One round of the inner loop, [for bit in range(8)]. *)
Definition crc_bit (crcsum : Z) : Z :=
  let crcsum := Z.shiftl crcsum 1 in
  if truthy (Z.land crcsum 0x7FFF0000)
  then Z.lxor (Z.land crcsum 0x0000FFFF) polynom
  else crcsum.

(** The body of the outer loop, [for byte in buffer]. *)
Definition crc_byte (crcsum : Z) (b : byte) : Z :=
  let crcsum := Z.lxor crcsum (Z.shiftl (byte_val b) 8) in
  Nat.iter 8 crc_bit crcsum.

Definition CRC16 (data : list byte) : Z :=
  let crcsum := 0xFFFF in
  let buffer := pad data in
  fold_left crc_byte buffer crcsum.

(** *** The algorithm as the specification words it

    The accumulator is seeded to 0xFFFF; each byte is shifted into the
    high eight bits and XORed in; then, eight times, the accumulator is
    shifted left by one and, when any bit at or above position 16 is
    set, masked to 16 bits and XORed with 0x1021.  The low 16 bits of
    the accumulator are the result. *)

Definition reference_bit (acc : Z) : Z :=
  let acc := Z.shiftl acc 1 in
  if Z.shiftr acc 16 =? 0
  then acc
  else Z.lxor (acc mod 2 ^ 16) 0x1021.

Definition reference_byte (acc : Z) (b : byte) : Z :=
  Nat.iter 8 reference_bit (Z.lxor acc (byte_val b * 2 ^ 8)).

Definition reference_checksum (buffer : list byte) : Z :=
  (fold_left reference_byte buffer 0xFFFF) mod 2 ^ 16.

(** The values of a 16-bit accumulator. *)
Definition acc16 (a : Z) : Prop := 0 <= a < 2 ^ 16.

End Checksum.

(** ** Python values, exceptions and the [struct] module *)

(** The exceptions the codec can raise. *)
Inductive exception : Set :=
| StructError          (* struct.error *)
| OverflowError
| ValueError
| KeyError
| AssertionError
| UnicodeEncodeError
| UnicodeDecodeError.

Inductive result (A : Type) : Type :=
| Ok (a : A)
| Raise (e : exception).
Arguments Ok {A} a.
Arguments Raise {A} e.

Definition bind {A B : Type} (r : result A) (k : A -> result B) : result B :=
  match r with
  | Ok a => k a
  | Raise e => Raise e
  end.

Notation "x <- r ;; k" := (bind r (fun x => k))
  (at level 61, r at next level, right associativity).

(** [assert c]. *)
Definition py_assert (c : bool) : result unit :=
  if c then Ok tt else Raise AssertionError.

(** A [for] loop over the items of a list whose body may raise; the
    loop state is threaded through the iterations. *)
Fixpoint for_each {S : Type} (items : list Z) (body : Z -> S -> result S)
    (s : S) : result S :=
  match items with
  | [] => Ok s
  | i :: rest => s' <- body i s ;; for_each rest body s'
  end.

(** [range(start, stop, step)] for a positive [step]. *)
Definition py_range (start stop step : Z) : list Z :=
  map (fun k => start + step * Z.of_nat k)
      (seq 0 (Z.to_nat ((stop - start + step - 1) / step))).

(** [data[a:b]] for non-negative [a] and [b]: the slice is cut at the end
    of the buffer and is empty when [b <= a]. *)
Definition slice (a b : Z) (data : list byte) : list byte :=
  firstn (Z.to_nat (b - a)) (skipn (Z.to_nat a) data).

Definition len (data : list byte) : Z := Z.of_nat (length data).

(** A [str] is a sequence of Unicode code points. *)
Definition str : Set := list Z.

Definition str_eqb (a b : str) : bool :=
  if list_eq_dec Z.eq_dec a b then true else false.

(** *** Integers on the wire *)

Inductive byteorder : Set :=
| LittleEndian   (* '<' *)
| BigEndian.     (* '>' *)

(** The integer format characters that the codec uses. *)
Inductive intfmt : Set := Fmt_b | Fmt_B | Fmt_h | Fmt_H | Fmt_i | Fmt_I.

Definition fmt_size (f : intfmt) : nat :=
  match f with
  | Fmt_b | Fmt_B => 1
  | Fmt_h | Fmt_H => 2
  | Fmt_i | Fmt_I => 4
  end%nat.

Definition fmt_signed (f : intfmt) : bool :=
  match f with
  | Fmt_b | Fmt_h | Fmt_i => true
  | Fmt_B | Fmt_H | Fmt_I => false
  end.

Definition fmt_bits (f : intfmt) : Z := 8 * Z.of_nat (fmt_size f).

Definition fmt_min (f : intfmt) : Z :=
  if fmt_signed f then - 2 ^ (fmt_bits f - 1) else 0.

Definition fmt_max (f : intfmt) : Z :=
  if fmt_signed f then 2 ^ (fmt_bits f - 1) - 1 else 2 ^ fmt_bits f - 1.

(** The [w] low bytes of the two's complement form of [n], least
    significant first. *)
Fixpoint le_bytes (w : nat) (n : Z) : list byte :=
  match w with
  | O => []
  | S w' => byte_of_Z n :: le_bytes w' (Z.shiftr n 8)
  end.

Fixpoint le_value (bs : list byte) : Z :=
  match bs with
  | [] => 0
  | b :: rest => byte_val b + 256 * le_value rest
  end.

Definition int_to_bytes (o : byteorder) (w : nat) (n : Z) : list byte :=
  match o with
  | LittleEndian => le_bytes w n
  | BigEndian => rev (le_bytes w n)
  end.

Definition int_from_bytes (o : byteorder) (bs : list byte) : Z :=
  match o with
  | LittleEndian => le_value bs
  | BigEndian => le_value (rev bs)
  end.

(** [struct.unpack(fmt, data)[0]] for an integer format: the buffer must
    have exactly the size of the format. *)
Definition unpack_int (o : byteorder) (f : intfmt) (data : list byte)
  : result Z :=
  if Nat.eqb (length data) (fmt_size f) then
    let u := int_from_bytes o data in
    Ok (if fmt_signed f && (2 ^ (fmt_bits f - 1) <=? u)
        then u - 2 ^ fmt_bits f else u)
  else Raise StructError.

(** *** Single precision floats

    A Python float is a binary64 number; it is modelled by a
    [spec_float].  [struct] converts from and to binary32. *)

Definition float32_of_bits (u : Z) : spec_float :=
  let s := Z.testbit u 31 in
  let e := Z.land (Z.shiftr u 23) 0xFF in
  let m := Z.land u 0x7FFFFF in
  if e =? 0 then
    match m with
    | Zpos p => S754_finite s p (-149)
    | _ => S754_zero s
    end
  else if e =? 255 then
    if m =? 0 then S754_infinity s else S754_nan
  else
    match m + 2 ^ 23 with
    | Zpos p => S754_finite s p (e - 150)
    | _ => S754_nan
    end.

Definition sign_bit (s : bool) : Z := if s then 2 ^ 31 else 0.

(** The bit pattern of a float that is already in binary32 form. *)
Definition bits_of_float32 (x : spec_float) : Z :=
  match x with
  | S754_zero s => sign_bit s
  | S754_infinity s => sign_bit s + 0x7F800000
  | S754_nan => 0x7FC00000
  | S754_finite s m e =>
      if Zpos m <? 2 ^ 23
      then sign_bit s + Zpos m
      else sign_bit s + (e + 150) * 2 ^ 23 + (Zpos m - 2 ^ 23)
  end.

(** The C conversion [(float)x]: round to nearest, ties to even. *)
Definition to_single (x : spec_float) : spec_float :=
  match x with
  | S754_finite s m e => binary_round 24 128 s m e
  | _ => x
  end.

Definition is_infinity (x : spec_float) : bool :=
  match x with
  | S754_infinity _ => true
  | _ => false
  end.

(** [x == y] on floats: the comparison of the numbers denoted, with
    NaN different from everything and the two zeros equal. *)
Definition float_eqb (x y : spec_float) : bool :=
  match x, y with
  | S754_zero _, S754_zero _ => true
  | S754_infinity s1, S754_infinity s2 => Bool.eqb s1 s2
  | S754_finite s1 m1 e1, S754_finite s2 m2 e2 =>
      let e := Z.min e1 e2 in
      Bool.eqb s1 s2 && (Zpos m1 * 2 ^ (e1 - e) =? Zpos m2 * 2 ^ (e2 - e))
  | _, _ => false
  end.

Definition unpack_f (o : byteorder) (data : list byte) : result spec_float :=
  if Nat.eqb (length data) 4 then Ok (float32_of_bits (int_from_bytes o data))
  else Raise StructError.

(** ** UTF-8 and ASCII *)

Definition utf8_encode_char (c : Z) : result (list byte) :=
  let cont (x : Z) := byte_of_Z (Z.lor 0x80 (Z.land x 0x3F)) in
  if c <? 0x80 then Ok [byte_of_Z c]
  else if c <? 0x800 then
    Ok [byte_of_Z (Z.lor 0xC0 (Z.shiftr c 6)); cont c]
  else if (0xD800 <=? c) && (c <=? 0xDFFF) then Raise UnicodeEncodeError
  else if c <? 0x10000 then
    Ok [byte_of_Z (Z.lor 0xE0 (Z.shiftr c 12)); cont (Z.shiftr c 6); cont c]
  else
    Ok [byte_of_Z (Z.lor 0xF0 (Z.shiftr c 18)); cont (Z.shiftr c 12);
        cont (Z.shiftr c 6); cont c].

(** [s.encode('utf-8')] *)
Fixpoint utf8_encode (s : str) : result (list byte) :=
  match s with
  | [] => Ok []
  | c :: rest =>
      bs <- utf8_encode_char c ;;
      tl <- utf8_encode rest ;;
      Ok (bs ++ tl)
  end.

Definition in_range (lo hi : Z) (b : byte) : bool :=
  (lo <=? byte_val b) && (byte_val b <=? hi).

Definition low6 (b : byte) : Z := Z.land (byte_val b) 0x3F.

(** [data.decode('utf-8')], the strict decoder: overlong forms,
    surrogates and code points above 0x10FFFF are refused. *)
Fixpoint utf8_decode (data : list byte) : result str :=
  match data with
  | [] => Ok []
  | b0 :: r0 =>
      let v0 := byte_val b0 in
      if v0 <? 0x80 then
        tl <- utf8_decode r0 ;; Ok (v0 :: tl)
      else if in_range 0xC2 0xDF b0 then
        match r0 with
        | b1 :: r1 =>
            if in_range 0x80 0xBF b1 then
              tl <- utf8_decode r1 ;;
              Ok (Z.lor (Z.shiftl (Z.land v0 0x1F) 6) (low6 b1) :: tl)
            else Raise UnicodeDecodeError
        | _ => Raise UnicodeDecodeError
        end
      else if in_range 0xE0 0xEF b0 then
        match r0 with
        | b1 :: b2 :: r2 =>
            let lo := if v0 =? 0xE0 then 0xA0 else 0x80 in
            let hi := if v0 =? 0xED then 0x9F else 0xBF in
            if in_range lo hi b1 && in_range 0x80 0xBF b2 then
              tl <- utf8_decode r2 ;;
              Ok (Z.lor (Z.shiftl (Z.land v0 0x0F) 12)
                    (Z.lor (Z.shiftl (low6 b1) 6) (low6 b2)) :: tl)
            else Raise UnicodeDecodeError
        | _ => Raise UnicodeDecodeError
        end
      else if in_range 0xF0 0xF4 b0 then
        match r0 with
        | b1 :: b2 :: b3 :: r3 =>
            let lo := if v0 =? 0xF0 then 0x90 else 0x80 in
            let hi := if v0 =? 0xF4 then 0x8F else 0xBF in
            if in_range lo hi b1 && in_range 0x80 0xBF b2
               && in_range 0x80 0xBF b3 then
              tl <- utf8_decode r3 ;;
              Ok (Z.lor (Z.shiftl (Z.land v0 0x07) 18)
                    (Z.lor (Z.shiftl (low6 b1) 12)
                       (Z.lor (Z.shiftl (low6 b2) 6) (low6 b3))) :: tl)
            else Raise UnicodeDecodeError
        | _ => Raise UnicodeDecodeError
        end
      else Raise UnicodeDecodeError
  end.

(** [bytes(ints)]: every item must be in [range(0, 256)]. *)
Fixpoint bytes_of_ints (ints : list Z) : result (list byte) :=
  match ints with
  | [] => Ok []
  | n :: rest =>
      if (0 <=? n) && (n <? 256) then
        tl <- bytes_of_ints rest ;; Ok (byte_of_Z n :: tl)
      else Raise ValueError
  end.

(** [data.decode('ascii')]: every byte must be below 128. *)
Fixpoint ascii_decode (data : list byte) : result str :=
  match data with
  | [] => Ok []
  | b :: rest =>
      if byte_val b <? 128 then
        tl <- ascii_decode rest ;; Ok (byte_val b :: tl)
      else Raise UnicodeDecodeError
  end.

(** ** The value codec *)

(** Modelled from the spec: the enumeration [DataType] of
    [rctclient.types], which the sources at hand do not contain; the
    specification lists its members as the closed set of logical type
    tags. *)
Inductive DataType : Set :=
| BOOL | UINT8 | INT8 | UINT16 | INT16 | UINT32 | INT32 | ENUM | FLOAT
| STRING | TIMESERIES | EVENT_TABLE.

Section Codec.

(** [datetime.fromtimestamp] converts seconds since the epoch to the
    naive local time of the host, so both the type and the conversion
    are kept abstract; equality of [datetime] objects decides which
    dictionary keys coincide. *)
Variable datetime : Type.
Variable fromtimestamp : Z -> datetime.
Variable datetime_eq_dec : forall a b : datetime, {a = b} + {a <> b}.

(** Modelled from the spec: the class [EventEntry] of [rctclient.types],
    which the sources at hand do not contain.  An entry has a timestamp,
    a message identifier and a one-character entry type, and then either
    an old and a new value or an end timestamp; the fields that the
    constructor call leaves out are absent. *)
Record EventEntry : Type := mkEventEntry {
  timestamp : datetime;
  message_id : Z;
  entry_type : str;
  timestamp_end : option datetime;
  value_old : option Z;
  value_new : option Z
}.

(** A [dict] keyed by [datetime]: the items in insertion order.
    Assigning to a key that is present replaces its value in place. *)
Definition dict (V : Type) : Type := list (datetime * V).

Fixpoint dict_set {V : Type} (k : datetime) (v : V) (d : dict V) : dict V :=
  match d with
  | [] => [(k, v)]
  | (k', v') :: rest =>
      if datetime_eq_dec k k' then (k', v) :: rest
      else (k', v') :: dict_set k v rest
  end.

Fixpoint dict_get {V : Type} (k : datetime) (d : dict V) : option V :=
  match d with
  | [] => None
  | (k', v') :: rest =>
      if datetime_eq_dec k k' then Some v' else dict_get k rest
  end.

(** The values that [encode_value] takes and [decode_value] returns.
    The two composite values are the tuples [(ts, tsval)] and
    [(ts, tabval)]. *)
Inductive value : Type :=
| VBool (b : bool)
| VInt (n : Z)
| VFloat (x : spec_float)
| VStr (s : str)
| VBytes (b : list byte)
| VTimeseries (ts : datetime) (tsval : dict spec_float)
| VEventTable (ts : datetime) (tabval : dict EventEntry).

(** The integer that [struct] sees in a value: an [int], or a [bool],
    which is an [int] in Python. *)
Definition as_int (v : value) : option Z :=
  match v with
  | VInt n => Some n
  | VBool b => Some (if b then 1 else 0)
  | _ => None
  end.

(** [struct.pack(fmt, value)] for an integer format: the value must be
    an integer within the range of the format. *)
Definition pack_int (o : byteorder) (f : intfmt) (v : value)
  : result (list byte) :=
  match as_int v with
  | Some n =>
      if (fmt_min f <=? n) && (n <=? fmt_max f)
      then Ok (int_to_bytes o (fmt_size f) n)
      else Raise StructError
  | None => Raise StructError
  end.

(** The double that [struct] sees in a value: a [float], or an integer
    converted to the nearest double when there is one. *)
Definition as_float (v : value) : result spec_float :=
  match v with
  | VFloat x => Ok x
  | VInt _ | VBool _ =>
      match as_int v with
      | Some n =>
          let x := binary_normalize 53 1024 n 0 false in
          if is_infinity x then Raise StructError else Ok x
      | None => Raise StructError
      end
  | _ => Raise StructError
  end.

(** [struct.pack(fmt, value)] for the format character [f]: a finite
    double beyond the range of binary32 raises [OverflowError]. *)
Definition pack_f (o : byteorder) (v : value) : result (list byte) :=
  x <- as_float v ;;
  let y := to_single x in
  if is_infinity y && negb (is_infinity x) then Raise OverflowError
  else Ok (int_to_bytes o 4 (bits_of_float32 y)).

(** [value != 0] *)
Definition ne_zero (v : value) : bool :=
  match v with
  | VBool b => b
  | VInt n => negb (n =? 0)
  | VFloat (S754_zero _) => false
  | _ => true
  end.

(** [struct.unpack('<U', struct.pack('<s', value))[0]]: the bits of a
    signed integer read again as an unsigned one. *)
Definition reinterpret (signed unsigned : intfmt) (v : value) : result value :=
  bs <- pack_int LittleEndian signed v ;;
  u <- unpack_int LittleEndian unsigned bs ;;
  Ok (VInt u).

Definition encode_value (data_type : DataType) (v : value)
  : result (list byte) :=
  match data_type with
  | BOOL =>
      let v := if ne_zero v then VBool true else VBool false in
      pack_int BigEndian Fmt_B v
  | UINT8 =>
      v <- reinterpret Fmt_b Fmt_B v ;;
      pack_int BigEndian Fmt_B v
  | INT8 => pack_int BigEndian Fmt_b v
  | UINT16 =>
      v <- reinterpret Fmt_h Fmt_H v ;;
      pack_int BigEndian Fmt_H v
  | INT16 => pack_int BigEndian Fmt_h v
  | UINT32 =>
      v <- reinterpret Fmt_i Fmt_I v ;;
      pack_int BigEndian Fmt_I v
  | INT32 => pack_int BigEndian Fmt_i v
  | ENUM =>
      v <- reinterpret Fmt_h Fmt_H v ;;
      pack_int BigEndian Fmt_H v
  | FLOAT => pack_f BigEndian v
  | STRING =>
      match v with
      | VStr s => utf8_encode s
      | VBytes b => Ok b
      | _ => Raise ValueError
      end
  | TIMESERIES | EVENT_TABLE => Raise KeyError
  end.

(** The strings ['s'] and ['w']. *)
Definition str_s : str := [115].
Definition str_w : str := [119].

(** The body of the [TIMESERIES] loop: one timestamp and one sample. *)
Definition timeseries_body (data : list byte) (pair : Z)
    (tsval : dict spec_float) : result (dict spec_float) :=
  t <- unpack_int BigEndian Fmt_I
         (slice (4 + pair * 4) (4 + pair * 4 + 4) data) ;;
  let pair_ts := fromtimestamp t in
  pair_val <- unpack_f BigEndian
                (slice (4 + pair * 4 + 4) (4 + pair * 4 + 4 + 4) data) ;;
  Ok (dict_set pair_ts pair_val tsval).

(** The body of the [EVENT_TABLE] loop: one entry of five words. *)
Definition event_table_body (data : list byte) (pair : Z)
    (tabval : dict EventEntry) : result (dict EventEntry) :=
  n <- unpack_int BigEndian Fmt_I
         (slice (4 + pair * 4) (4 + pair * 4 + 4) data) ;;
  b <- bytes_of_ints [n] ;;
  entry_type <- ascii_decode b ;;
  t <- unpack_int BigEndian Fmt_I
         (slice (4 + pair * 4 + 4) (4 + pair * 4 + 8) data) ;;
  let timestamp := fromtimestamp t in
  if existsb (str_eqb entry_type) [str_s; str_w] then
    message_id <- unpack_int BigEndian Fmt_I
                    (slice (4 + pair * 4 + 8) (4 + pair * 4 + 12) data) ;;
    value_old <- unpack_int BigEndian Fmt_I
                   (slice (4 + pair * 4 + 12) (4 + pair * 4 + 16) data) ;;
    value_new <- unpack_int BigEndian Fmt_I
                   (slice (4 + pair * 4 + 16) (4 + pair * 4 + 20) data) ;;
    Ok (dict_set timestamp
          (mkEventEntry timestamp message_id entry_type
             None (Some value_old) (Some value_new))
          tabval)
  else
    te <- unpack_int BigEndian Fmt_I
            (slice (4 + pair * 4 + 12) (4 + pair * 4 + 16) data) ;;
    let timestamp_end := fromtimestamp te in
    message_id <- unpack_int BigEndian Fmt_I
                    (slice (4 + pair * 4 + 16) (4 + pair * 4 + 20) data) ;;
    Ok (dict_set timestamp
          (mkEventEntry timestamp message_id entry_type
             (Some timestamp_end) None None)
          tabval).

(** The two length checks run after [len(data) % 4 == 0] has passed, so
    the true division [len(data) / 4] is exact and is the quotient. *)
Definition decode_value (data_type : DataType) (data : list byte)
  : result value :=
  match data_type with
  | BOOL =>
      n <- unpack_int BigEndian Fmt_B data ;;
      if negb (n =? 0) then Ok (VBool true) else Ok (VBool false)
  | UINT8 => n <- unpack_int BigEndian Fmt_B data ;; Ok (VInt n)
  | INT8 => n <- unpack_int BigEndian Fmt_b data ;; Ok (VInt n)
  | UINT16 => n <- unpack_int BigEndian Fmt_H data ;; Ok (VInt n)
  | INT16 => n <- unpack_int BigEndian Fmt_h data ;; Ok (VInt n)
  | UINT32 => n <- unpack_int BigEndian Fmt_I data ;; Ok (VInt n)
  | INT32 => n <- unpack_int BigEndian Fmt_i data ;; Ok (VInt n)
  | ENUM => n <- unpack_int BigEndian Fmt_H data ;; Ok (VInt n)
  | FLOAT => x <- unpack_f BigEndian data ;; Ok (VFloat x)
  | STRING => s <- utf8_decode data ;; Ok (VStr s)
  | TIMESERIES =>
      t <- unpack_int BigEndian Fmt_I (slice 0 4 data) ;;
      let ts := fromtimestamp t in
      let tsval : dict spec_float := [] in
      _ <- py_assert (len data mod 4 =? 0) ;;
      _ <- py_assert (len data / 4 mod 2 =? 1) ;;
      tsval <- for_each (py_range 0 (len data / 4 - 1) 2)
                 (timeseries_body data) tsval ;;
      Ok (VTimeseries ts tsval)
  | EVENT_TABLE =>
      t <- unpack_int BigEndian Fmt_I (slice 0 4 data) ;;
      let ts := fromtimestamp t in
      let tabval : dict EventEntry := [] in
      _ <- py_assert (len data mod 4 =? 0) ;;
      _ <- py_assert ((len data - 4) mod 20 =? 0) ;;
      tabval <- for_each (py_range 0 (len data / 4 - 1) 5)
                  (event_table_body data) tabval ;;
      Ok (VEventTable ts tabval)
  end.

End Codec.

Arguments mkEventEntry {datetime}.
Arguments timestamp {datetime}.
Arguments message_id {datetime}.
Arguments entry_type {datetime}.
Arguments timestamp_end {datetime}.
Arguments value_old {datetime}.
Arguments value_new {datetime}.
Arguments VBool {datetime}.
Arguments VInt {datetime}.
Arguments VFloat {datetime}.
Arguments VStr {datetime}.
Arguments VBytes {datetime}.
Arguments VTimeseries {datetime}.
Arguments VEventTable {datetime}.
Arguments dict_set {datetime} datetime_eq_dec {V} k v d.
Arguments dict_get {datetime} datetime_eq_dec {V} k d.
Arguments as_int {datetime} v.
Arguments as_float {datetime} v.
Arguments pack_int {datetime} o f v.
Arguments pack_f {datetime} o v.
Arguments ne_zero {datetime} v.
Arguments reinterpret {datetime} signed unsigned v.
Arguments encode_value {datetime} data_type v.
Arguments timeseries_body {datetime} fromtimestamp datetime_eq_dec data pair tsval.
Arguments event_table_body {datetime} fromtimestamp datetime_eq_dec data pair tabval.
Arguments decode_value {datetime} fromtimestamp datetime_eq_dec data_type data.

(** ** Vocabulary of the wire layout

    The notions in which the specification describes the composite
    buffers: the 32-bit big-endian fields, the entry slots that follow
    the four bytes of the anchor, and the entry that a slot denotes. *)

(** The 32-bit big-endian field at byte offset [off]. *)
Definition word (data : list byte) (off : Z) : Z :=
  int_from_bytes BigEndian (slice off (off + 4) data).

(** The [i]-th slot of [width] bytes after the anchor. *)
Definition stride (width : Z) (data : list byte) (i : nat) : list byte :=
  slice (4 + width * Z.of_nat i) (4 + width * Z.of_nat i + width) data.

Definition stride_count (width : Z) (data : list byte) : nat :=
  Z.to_nat ((len data - 4) / width).

(** The code points of ['s'] and ['w']. *)
Definition is_s_or_w (c : Z) : bool := (c =? 115) || (c =? 119).

Section Layout.

Context {datetime : Type}.
Variable fromtimestamp : Z -> datetime.
Variable datetime_eq_dec : forall a b : datetime, {a = b} + {a <> b}.

(** The Event Entry that the specification reads off a 20-byte slot:
    bytes 0-3 hold the entry type and bytes 4-7 the timestamp; for the
    types ['s'] and ['w'] bytes 8-11 hold the message id, bytes 12-15
    the old and bytes 16-19 the new value; for any other type bytes
    12-15 hold the end timestamp and bytes 16-19 the message id. *)
Definition layout_entry (s : list byte) : EventEntry datetime :=
  let ts := fromtimestamp (word s 4) in
  if is_s_or_w (word s 0) then
    mkEventEntry ts (word s 8) [word s 0]
      None (Some (word s 12)) (Some (word s 16))
  else
    mkEventEntry ts (word s 16) [word s 0]
      (Some (fromtimestamp (word s 12))) None None.

(** The sample that the specification reads off an 8-byte slot. *)
Definition layout_sample (s : list byte) : datetime * spec_float :=
  (fromtimestamp (word s 0), float32_of_bits (word s 4)).

(** Filling a dictionary item by item: the last write to a key wins. *)
Definition fill {V I : Type} (key : I -> datetime) (val : I -> V)
    (items : list I) (d : dict datetime V) : dict datetime V :=
  fold_left (fun d' i => dict_set datetime_eq_dec (key i) (val i) d')
    items d.

(** The timestamp under which the [i]-th slot of an [EVENT_TABLE]
    buffer is filed, the entry filed there, and the table that filing
    the slots one after the other builds. *)
Definition slot_key (data : list byte) (i : nat) : datetime :=
  fromtimestamp (word (stride 20 data i) 4).

Definition slot_entry (data : list byte) (i : nat) : EventEntry datetime :=
  layout_entry (stride 20 data i).

Definition event_table_of (data : list byte)
  : dict datetime (EventEntry datetime) :=
  fill (slot_key data) (slot_entry data) (seq 0 (stride_count 20 data)) [].

(** The sample mapping that filing the 8-byte slots of a [TIMESERIES]
    buffer one after the other builds. *)
Definition timeseries_of (data : list byte) : dict datetime spec_float :=
  fill (fun i => fst (layout_sample (stride 8 data i)))
       (fun i => snd (layout_sample (stride 8 data i)))
       (seq 0 (stride_count 8 data)) [].

End Layout.

(** Two buffers of one length that differ at most in bytes 8-11 of the
    [i]-th 20-byte slot. *)
Definition same_but_bytes_8_11 (i : nat) (data data' : list byte) : Prop :=
  length data' = length data /\
  forall k : nat,
    Z.of_nat k < 4 + 20 * Z.of_nat i + 8 \/
    4 + 20 * Z.of_nat i + 12 <= Z.of_nat k ->
    nth k data' x00 = nth k data x00.

(** The length invariants of the two composite types. *)
Definition timeseries_lengths_ok (data : list byte) : bool :=
  (len data mod 4 =? 0) && ((len data - 4) mod 8 =? 0).

Definition event_table_lengths_ok (data : list byte) : bool :=
  (len data mod 4 =? 0) && ((len data - 4) mod 20 =? 0).

(** An [EVENT_TABLE] buffer is well formed when it holds the anchor and
    a whole number of 20-byte slots, each of which names its entry type
    by an ASCII code. *)
Definition well_formed_event_table (data : list byte) : bool :=
  (4 <=? len data) && event_table_lengths_ok data
  && forallb (fun i => word (stride 20 data i) 0 <? 128)
       (seq 0 (stride_count 20 data)).

(** A buffer that breaks the length invariants of its composite type. *)
Definition violates_length_invariants (t : DataType) (data : list byte)
  : Prop :=
  match t with
  | TIMESERIES => len data mod 4 <> 0 \/ (len data - 4) mod 8 <> 0
  | EVENT_TABLE => (len data - 4) mod 20 <> 0
  | _ => False
  end.

(** ** A host in the UTC zone

    There the naive local time is determined by the seconds since the
    epoch and determines them, so a [datetime] is represented by that
    number. *)
Definition utc_datetime : Type := Z.
Definition utc_fromtimestamp (t : Z) : utc_datetime := t.
Definition utc_eq_dec : forall a b : utc_datetime, {a = b} + {a <> b} :=
  Z.eq_dec.

(** ** The integer tags

    The wire format of each integer tag and, for the formats, the signed
    format of the same width, through which [encode_value] passes the
    value of an unsigned tag first. *)
Definition wire_format (t : DataType) : option intfmt :=
  match t with
  | UINT8 => Some Fmt_B
  | INT8 => Some Fmt_b
  | UINT16 | ENUM => Some Fmt_H
  | INT16 => Some Fmt_h
  | UINT32 => Some Fmt_I
  | INT32 => Some Fmt_i
  | _ => None
  end.

Definition signed_of (f : intfmt) : intfmt :=
  match f with
  | Fmt_b | Fmt_B => Fmt_b
  | Fmt_h | Fmt_H => Fmt_h
  | Fmt_i | Fmt_I => Fmt_i
  end.

(** The integer that comes back for [n]: [n] itself for a signed format,
    its residue modulo [2 ^ bits] for an unsigned one. *)
Definition wrapped (f : intfmt) (n : Z) : Z :=
  if fmt_signed f then n else n mod 2 ^ fmt_bits f.

(** ** Sample buffers *)

(** An event table with the anchor 1 and two slots: an entry of type
    ['s'] at 1000 with message id 5 and the values 10 and 20, and an
    entry of type ['c'] at 2000 that ends at 3000, with message id 7 and
    the bytes 8-11 of its slot set to [FF]. *)
Definition sample_event_table : list byte :=
  [x00; x00; x00; x01;
   x00; x00; x00; x73;  x00; x00; x03; xe8;  x00; x00; x00; x05;
   x00; x00; x00; x0a;  x00; x00; x00; x14;
   x00; x00; x00; x63;  x00; x00; x07; xd0;  xff; xff; xff; xff;
   x00; x00; x0b; xb8;  x00; x00; x00; x07].

(** The same table with the bytes 8-11 of its second slot set to zero. *)
Definition sample_event_table_zeroed : list byte :=
  [x00; x00; x00; x01;
   x00; x00; x00; x73;  x00; x00; x03; xe8;  x00; x00; x00; x05;
   x00; x00; x00; x0a;  x00; x00; x00; x14;
   x00; x00; x00; x63;  x00; x00; x07; xd0;  x00; x00; x00; x00;
   x00; x00; x0b; xb8;  x00; x00; x00; x07].

(** The first slot alone, with the second byte from the right of its
    entry-type field set to 1: the low byte of the field is still the
    code of ['s']. *)
Definition sample_wide_entry_type : list byte :=
  [x00; x00; x00; x01;
   x00; x00; x01; x73;  x00; x00; x03; xe8;  x00; x00; x00; x05;
   x00; x00; x00; x0a;  x00; x00; x00; x14].

(** ** The fixed-width tags

    The number of bytes that each scalar tag other than [STRING]
    occupies on the wire, as the format strings of the source give it. *)
Definition scalar_width (t : DataType) : option nat :=
  match t with
  | BOOL | UINT8 | INT8 => Some 1%nat
  | UINT16 | INT16 | ENUM => Some 2%nat
  | UINT32 | INT32 | FLOAT => Some 4%nat
  | STRING | TIMESERIES | EVENT_TABLE => None
  end.

(** The first slot of an [EVENT_TABLE] buffer, if there is one, whose
    entry-type field does not hold an ASCII code, and the exception
    that [bytes([n]).decode('ascii')] raises on such a field. *)
Definition first_bad_slot (data : list byte) : option nat :=
  find (fun i => 128 <=? word (stride 20 data i) 0)
    (seq 0 (stride_count 20 data)).

Definition entry_type_error (n : Z) : exception :=
  if n <? 256 then UnicodeDecodeError else ValueError.

(** An event table with the anchor 1 whose two slots carry the same
    timestamp 1000: an entry of type ['s'] and an entry of type ['c']. *)
Definition sample_event_table_merged : list byte :=
  [x00; x00; x00; x01;
   x00; x00; x00; x73;  x00; x00; x03; xe8;  x00; x00; x00; x05;
   x00; x00; x00; x0a;  x00; x00; x00; x14;
   x00; x00; x00; x63;  x00; x00; x03; xe8;  x00; x00; x00; x00;
   x00; x00; x0b; xb8;  x00; x00; x00; x07].

(** The table that this buffer holds for a host in the UTC zone. *)
Definition sample_merged_table : dict utc_datetime (EventEntry utc_datetime) :=
  [(1000, mkEventEntry 1000 7 [99] (Some 3000) None None)].

(** One slot of a time series: the sample 3.5 at the timestamp 2. *)
Definition sample_timeseries_slot : list byte :=
  [x00; x00; x00; x02;  x40; x60; x00; x00].

(** One slot of an event table: an entry of type ['w'] at 4000 with
    message id 9 and the values 1 and 2. *)
Definition sample_event_slot : list byte :=
  [x00; x00; x00; x77;  x00; x00; x0f; xa0;  x00; x00; x00; x09;
   x00; x00; x00; x01;  x00; x00; x00; x02].

(** The code points that UTF-8 encodes: the Unicode scalar values.  A
    [str] can also hold a surrogate, from D800 to DFFF, which the
    encoder refuses. *)
Definition is_scalar_value (c : Z) : bool :=
  (0 <=? c) && (c <? 0x110000) && negb ((0xD800 <=? c) && (c <=? 0xDFFF)).

Definition is_surrogate (c : Z) : bool := (0xD800 <=? c) && (c <=? 0xDFFF).

(** The code points that a [str] can hold. *)
Definition is_code_point (c : Z) : bool := (0 <=? c) && (c <? 0x110000).

(** The bit patterns of binary32 that denote a NaN: exponent field 255
    and a fraction that is not zero. *)
Definition is_nan_bits (u : Z) : bool :=
  (Z.land (Z.shiftr u 23) 0xFF =? 255) && negb (Z.land u 0x7FFFFF =? 0).

(** ** Facts on bytes and on 16-bit accumulators *)

Lemma byte_val_range (b : byte) : 0 <= byte_val b < 256.
Proof.
  unfold byte_val.
  pose proof (Byte.to_N_bounded b) as H.
  lia.
Qed.

Lemma byte_val_of_Z (z : Z) : byte_val (byte_of_Z z) = z mod 256.
Proof.
  unfold byte_val, byte_of_Z.
  assert (Hr : 0 <= z mod 256 < 256) by (apply Z.mod_pos_bound; lia).
  destruct (Byte.of_N (Z.to_N (z mod 256))) as [b|] eqn:E.
  - apply Byte.to_of_N in E. rewrite E. lia.
  - apply Byte.of_N_None_iff in E. lia.
Qed.

Lemma byte_of_Z_val (b : byte) : byte_of_Z (byte_val b) = b.
Proof.
  unfold byte_of_Z.
  rewrite Z.mod_small by apply byte_val_range.
  unfold byte_val. rewrite N2Z.id, Byte.of_to_N. reflexivity.
Qed.

(** A non-negative integer below [2 ^ n] is one that the mask
    [Z.ones n] leaves unchanged. *)
Lemma small_iff_masked (n a : Z) :
  0 <= n -> (0 <= a < 2 ^ n <-> Z.land a (Z.ones n) = a).
Proof.
  intros Hn. rewrite Z.land_ones by assumption. split.
  - intros H. apply Z.mod_small. exact H.
  - intros H. rewrite <- H. apply Z.mod_pos_bound. lia.
Qed.

Lemma lxor_small (n a b : Z) :
  0 <= n -> 0 <= a < 2 ^ n -> 0 <= b < 2 ^ n -> 0 <= Z.lxor a b < 2 ^ n.
Proof.
  intros Hn Ha Hb.
  apply small_iff_masked in Ha; [|assumption].
  apply small_iff_masked in Hb; [|assumption].
  apply small_iff_masked; [assumption|].
  apply Z.bits_inj'. intros i Hi.
  assert (Ta : Z.testbit a i = Z.testbit a i && Z.testbit (Z.ones n) i)
    by (rewrite <- Z.land_spec, Ha; reflexivity).
  assert (Tb : Z.testbit b i = Z.testbit b i && Z.testbit (Z.ones n) i)
    by (rewrite <- Z.land_spec, Hb; reflexivity).
  rewrite Z.land_spec, !Z.lxor_spec.
  destruct (Z.testbit a i), (Z.testbit b i), (Z.testbit (Z.ones n) i);
    cbn in *; congruence.
Qed.

(** The mask 0x7FFF0000 selects bits 16 to 30. *)
Lemma land_high_mask (s : Z) :
  Z.land s 0x7FFF0000 = Z.shiftl (Z.land (Z.shiftr s 16) 0x7FFF) 16.
Proof.
  change 0x7FFF0000 with (Z.shiftl 0x7FFF 16).
  apply Z.bits_inj'. intros i Hi.
  rewrite Z.land_spec, !Z.shiftl_spec by assumption.
  destruct (Z_lt_le_dec i 16) as [Hlt|Hge].
  - rewrite !(Z.testbit_neg_r _ (i - 16)) by lia.
    apply andb_false_r.
  - rewrite Z.land_spec, Z.shiftr_spec by lia.
    replace (i - 16 + 16) with i by lia. reflexivity.
Qed.

Module ChecksumFacts.
Import Checksum.

(** On a 16-bit accumulator the guard of the source, which looks at
    bits 16 to 30, sees exactly the carry into bit 16. *)
Lemma guard_is_carry (a : Z) :
  acc16 a ->
  truthy (Z.land (Z.shiftl a 1) 0x7FFF0000)
  = negb (Z.shiftr (Z.shiftl a 1) 16 =? 0).
Proof.
  unfold acc16, truthy. intros Ha.
  rewrite land_high_mask.
  set (h := Z.shiftr (Z.shiftl a 1) 16).
  assert (Hh : h = 0 \/ h = 1).
  { assert (0 <= h < 2); [|lia].
    unfold h. rewrite Z.shiftr_div_pow2, Z.shiftl_mul_pow2 by lia. split.
    - apply Z.div_pos; lia.
    - apply Z.div_lt_upper_bound; lia. }
  clearbody h. destruct Hh as [-> | ->]; reflexivity.
Qed.

Lemma crc_bit_reference (a : Z) :
  acc16 a -> crc_bit a = reference_bit a.
Proof.
  intros Ha. unfold crc_bit, reference_bit. cbv zeta.
  rewrite (guard_is_carry a Ha).
  destruct (Z.shiftr (Z.shiftl a 1) 16 =? 0); cbn [negb].
  - reflexivity.
  - change 0x0000FFFF with (Z.ones 16).
    rewrite Z.land_ones by lia. reflexivity.
Qed.

Lemma crc_bit_acc16 (a : Z) : acc16 a -> acc16 (crc_bit a).
Proof.
  intros Ha. unfold crc_bit. cbv zeta.
  rewrite (guard_is_carry a Ha).
  destruct (Z.shiftr (Z.shiftl a 1) 16 =? 0) eqn:E; cbn [negb].
  - apply Z.eqb_eq in E.
    rewrite Z.shiftr_div_pow2 in E by lia.
    assert (0 <= Z.shiftl a 1) by (apply Z.shiftl_nonneg; apply Ha).
    unfold acc16. split; [assumption|].
    pose proof (Z.div_mod (Z.shiftl a 1) (2 ^ 16)) as D.
    pose proof (Z.mod_pos_bound (Z.shiftl a 1) (2 ^ 16)) as M.
    lia.
  - apply lxor_small; [lia| |unfold polynom; lia].
    change 0x0000FFFF with (Z.ones 16).
    rewrite Z.land_ones by lia. apply Z.mod_pos_bound. lia.
Qed.

Lemma iter_crc_bit_acc16 (k : nat) (a : Z) :
  acc16 a -> acc16 (Nat.iter k crc_bit a).
Proof.
  intros Ha. induction k as [|k IH].
  - exact Ha.
  - rewrite Nat.iter_succ. apply crc_bit_acc16. exact IH.
Qed.

Lemma iter_crc_bit_reference (k : nat) (a : Z) :
  acc16 a -> Nat.iter k crc_bit a = Nat.iter k reference_bit a.
Proof.
  intros Ha. induction k as [|k IH].
  - reflexivity.
  - rewrite !Nat.iter_succ, <- IH. apply crc_bit_reference.
    apply iter_crc_bit_acc16. exact Ha.
Qed.

Lemma xor_byte_acc16 (a : Z) (b : byte) :
  acc16 a -> acc16 (Z.lxor a (Z.shiftl (byte_val b) 8)).
Proof.
  intros Ha. apply lxor_small; [lia|exact Ha|].
  rewrite Z.shiftl_mul_pow2 by lia.
  pose proof (byte_val_range b). lia.
Qed.

Lemma crc_byte_acc16 (a : Z) (b : byte) : acc16 a -> acc16 (crc_byte a b).
Proof.
  intros Ha. unfold crc_byte. cbv zeta.
  apply iter_crc_bit_acc16, xor_byte_acc16, Ha.
Qed.

Lemma crc_byte_reference (a : Z) (b : byte) :
  acc16 a -> crc_byte a b = reference_byte a b.
Proof.
  intros Ha. unfold crc_byte, reference_byte. cbv zeta.
  rewrite <- Z.shiftl_mul_pow2 by lia.
  apply iter_crc_bit_reference, xor_byte_acc16, Ha.
Qed.

Lemma fold_crc_byte_acc16 (buffer : list byte) (a : Z) :
  acc16 a -> acc16 (fold_left crc_byte buffer a).
Proof.
  revert a. induction buffer as [|b buffer IH]; intros a Ha; cbn [fold_left].
  - exact Ha.
  - apply IH, crc_byte_acc16, Ha.
Qed.

Lemma fold_crc_byte_reference (buffer : list byte) (a : Z) :
  acc16 a ->
  fold_left crc_byte buffer a = fold_left reference_byte buffer a.
Proof.
  revert a. induction buffer as [|b buffer IH]; intros a Ha; cbn [fold_left].
  - reflexivity.
  - rewrite <- (crc_byte_reference a b Ha).
    apply IH, crc_byte_acc16, Ha.
Qed.

Lemma seed_acc16 : acc16 0xFFFF.
Proof. unfold acc16. lia. Qed.

(** [len(data) & 0x01] is non-zero exactly on odd lengths. *)
Lemma pad_odd (data : list byte) :
  Nat.odd (length data) = true -> pad data = data ++ [x00].
Proof.
  intros Hodd. unfold pad, truthy.
  change 0x01 with (Z.ones 1).
  rewrite Z.land_ones by lia.
  replace (Z.of_nat (length data) mod 2 ^ 1) with 1; [reflexivity|].
  apply Nat.odd_spec in Hodd. destruct Hodd as [k Hk].
  rewrite Hk. change (2 ^ 1) with 2.
  rewrite Nat2Z.inj_add, Nat2Z.inj_mul. cbn [Z.of_nat Pos.of_succ_nat Pos.succ].
  rewrite Z.add_comm, Z.mul_comm, Z.mod_add by lia. reflexivity.
Qed.

Lemma pad_even (data : list byte) :
  Nat.even (length data) = true -> pad data = data.
Proof.
  intros Heven. unfold pad, truthy.
  change 0x01 with (Z.ones 1).
  rewrite Z.land_ones by lia.
  replace (Z.of_nat (length data) mod 2 ^ 1) with 0; [reflexivity|].
  apply Nat.even_spec in Heven. destruct Heven as [k Hk].
  rewrite Hk. change (2 ^ 1) with 2.
  rewrite Nat2Z.inj_mul. cbn [Z.of_nat Pos.of_succ_nat Pos.succ].
  rewrite Z.mul_comm, Z.mod_mul by lia. reflexivity.
Qed.

End ChecksumFacts.

(** ** Facts on slices, words and [struct] *)

(** Linear arithmetic with quotients and remainders by constants. *)
Ltac lia_mod := Z.to_euclidean_division_equations; lia.

Lemma slice_length (a b : Z) (data : list byte) :
  0 <= a -> a <= b -> b <= len data ->
  length (slice a b data) = Z.to_nat (b - a).
Proof.
  unfold slice, len. intros Ha Hab Hb.
  rewrite length_firstn, length_skipn. lia.
Qed.

Lemma slice_short (b : Z) (data : list byte) :
  len data < b -> length (slice 0 b data) = length data.
Proof.
  unfold slice, len. intros Hb.
  rewrite length_firstn, length_skipn. lia.
Qed.

(** A slice of a slice is a slice of the buffer. *)
Lemma slice_slice (a b c d : Z) (data : list byte) :
  0 <= a -> a <= b -> 0 <= c -> c + b <= d ->
  slice a b (slice c d data) = slice (c + a) (c + b) data.
Proof.
  unfold slice. intros Ha Hab Hc Hd.
  rewrite skipn_firstn_comm, firstn_firstn, skipn_skipn.
  f_equal; [lia|f_equal; lia].
Qed.

Lemma word_stride (width : Z) (data : list byte) (i : nat) (k : Z) :
  0 <= width -> 0 <= k -> k + 4 <= width ->
  word (stride width data i) k = word data (4 + width * Z.of_nat i + k).
Proof.
  intros Hw Hk Hkw. unfold word, stride.
  rewrite slice_slice by lia.
  do 2 f_equal. lia.
Qed.

Lemma le_value_range (bs : list byte) :
  0 <= le_value bs < 2 ^ (8 * Z.of_nat (length bs)).
Proof.
  induction bs as [|b bs IH]; cbn [le_value length].
  - cbn. lia.
  - pose proof (byte_val_range b) as Hb.
    replace (8 * Z.of_nat (S (length bs)))
      with (8 + 8 * Z.of_nat (length bs)) by lia.
    rewrite Z.pow_add_r by lia.
    change (2 ^ 8) with 256. nia.
Qed.

Lemma int_from_bytes_range (o : byteorder) (bs : list byte) :
  0 <= int_from_bytes o bs < 2 ^ (8 * Z.of_nat (length bs)).
Proof.
  destruct o; cbn [int_from_bytes].
  - apply le_value_range.
  - rewrite <- length_rev. apply le_value_range.
Qed.

(** Reading an unsigned 32-bit field that lies within the buffer. *)
Lemma unpack_word (a b : Z) (data : list byte) :
  0 <= a -> b = a + 4 -> b <= len data ->
  unpack_int BigEndian Fmt_I (slice a b data) = Ok (word data a).
Proof.
  intros Ha -> Hb. unfold unpack_int.
  rewrite slice_length by lia.
  replace (Z.to_nat (a + 4 - a)) with 4%nat by lia.
  reflexivity.
Qed.

Lemma word_range (data : list byte) (a : Z) :
  0 <= a -> a + 4 <= len data -> 0 <= word data a < 2 ^ 32.
Proof.
  intros Ha Hb. unfold word.
  pose proof (int_from_bytes_range BigEndian (slice a (a + 4) data)) as H.
  rewrite slice_length in H by lia.
  replace (Z.to_nat (a + 4 - a)) with 4%nat in H by lia.
  exact H.
Qed.

(** Reading a single precision float that lies within the buffer. *)
Lemma unpack_f_word (a b : Z) (data : list byte) :
  0 <= a -> b = a + 4 -> b <= len data ->
  unpack_f BigEndian (slice a b data) = Ok (float32_of_bits (word data a)).
Proof.
  intros Ha -> Hb. unfold unpack_f.
  rewrite slice_length by lia.
  replace (Z.to_nat (a + 4 - a)) with 4%nat by lia.
  reflexivity.
Qed.

(** Reading the anchor from a buffer of fewer than four bytes. *)
Lemma unpack_anchor_short (data : list byte) :
  len data < 4 ->
  unpack_int BigEndian Fmt_I (slice 0 4 data) = Raise StructError.
Proof.
  intros Hlen. unfold unpack_int.
  rewrite slice_short by assumption.
  cbn [fmt_size].
  destruct (Nat.eqb (length data) 4) eqn:E; [|reflexivity].
  apply Nat.eqb_eq in E. unfold len in Hlen. lia.
Qed.

(** Slices and words of buffers that agree on the bytes read. *)
Lemma nth_slice (a b : Z) (data : list byte) (k : nat) :
  0 <= a -> (k < Z.to_nat (b - a))%nat ->
  nth k (slice a b data) x00 = nth (Z.to_nat a + k) data x00.
Proof.
  intros Ha Hk. unfold slice.
  rewrite nth_firstn.
  replace (k <? Z.to_nat (b - a))%nat with true
    by (symmetry; apply Nat.ltb_lt; exact Hk).
  rewrite nth_skipn. reflexivity.
Qed.

Lemma slice_ext (a b : Z) (data data' : list byte) :
  0 <= a -> length data' = length data ->
  (forall k : nat, a <= Z.of_nat k < b -> nth k data' x00 = nth k data x00) ->
  slice a b data' = slice a b data.
Proof.
  intros Ha Hlen Hnth.
  assert (Hl : length (slice a b data') = length (slice a b data)).
  { unfold slice. rewrite !length_firstn, !length_skipn, Hlen. reflexivity. }
  apply (nth_ext _ _ x00 x00 Hl).
  intros k Hk.
  assert (Hkb : (k < Z.to_nat (b - a))%nat).
  { unfold slice in Hk. rewrite length_firstn in Hk. lia. }
  rewrite !nth_slice by assumption.
  apply Hnth. lia.
Qed.

Lemma word_ext (off : Z) (data data' : list byte) :
  0 <= off -> length data' = length data ->
  (forall k : nat, off <= Z.of_nat k < off + 4 ->
                   nth k data' x00 = nth k data x00) ->
  word data' off = word data off.
Proof.
  intros Hoff Hlen Hnth. unfold word.
  rewrite (slice_ext off (off + 4) data data') by assumption.
  reflexivity.
Qed.

(** ** Facts on loops and dictionaries *)

Lemma for_each_ok {S I : Type} (items : list I) (h : I -> Z)
    (body : Z -> S -> result S) (f : I -> S -> S) (s : S) :
  (forall i s', In i items -> body (h i) s' = Ok (f i s')) ->
  for_each (map h items) body s
  = Ok (fold_left (fun s' i => f i s') items s).
Proof.
  revert s. induction items as [|i items IH]; intros s Hbody.
  - reflexivity.
  - cbn [map for_each fold_left].
    rewrite Hbody by (left; reflexivity). cbn [bind].
    apply IH. intros j s' Hj. apply Hbody. right. exact Hj.
Qed.

(** A loop one of whose iterations always raises does raise, and what
    it raises is what some iteration raised. *)
Lemma for_each_raise {S : Type} (P : exception -> Prop) (items : list Z)
    (body : Z -> S -> result S) (i : Z) (s : S) :
  In i items ->
  (forall s', exists e, body i s' = Raise e) ->
  (forall j s' e, In j items -> body j s' = Raise e -> P e) ->
  exists e, P e /\ for_each items body s = Raise e.
Proof.
  intros Hin Hraise HP. revert s.
  induction items as [|j items IH]; intros s; [destruct Hin|].
  cbn [for_each].
  destruct (body j s) as [s'|e] eqn:E; cbn [bind].
  - destruct Hin as [->|Hin].
    + destruct (Hraise s) as [e He]. congruence.
    + apply IH; [exact Hin|].
      intros j' s'' e Hj'. apply HP. right. exact Hj'.
  - exists e. split; [|reflexivity].
    apply (HP j s e); [left; reflexivity|exact E].
Qed.

Lemma py_range_from_zero (step : Z) (k : nat) :
  0 < step ->
  py_range 0 (step * Z.of_nat k) step
  = map (fun j => step * Z.of_nat j) (seq 0 k).
Proof.
  intros Hstep. unfold py_range.
  replace (Z.to_nat ((step * Z.of_nat k - 0 + step - 1) / step)) with k.
  - apply map_ext. intros j. lia.
  - replace (step * Z.of_nat k - 0 + step - 1)
      with ((step - 1) + Z.of_nat k * step) by lia.
    rewrite Z.div_add by lia.
    rewrite Z.div_small by lia. lia.
Qed.

Section DictFacts.

Context {datetime : Type}.
Variable datetime_eq_dec : forall a b : datetime, {a = b} + {a <> b}.
Context {V : Type}.

Lemma dict_get_set_same (k : datetime) (v : V) (d : dict datetime V) :
  dict_get datetime_eq_dec k (dict_set datetime_eq_dec k v d) = Some v.
Proof.
  induction d as [|[k' v'] d IH]; cbn [dict_set dict_get].
  - destruct (datetime_eq_dec k k); congruence.
  - destruct (datetime_eq_dec k k') as [E|E]; cbn [dict_get].
    + destruct (datetime_eq_dec k k'); congruence.
    + destruct (datetime_eq_dec k k'); congruence.
Qed.

Lemma dict_get_set_other (k k0 : datetime) (v : V) (d : dict datetime V) :
  k <> k0 ->
  dict_get datetime_eq_dec k (dict_set datetime_eq_dec k0 v d)
  = dict_get datetime_eq_dec k d.
Proof.
  intros Hne.
  induction d as [|[k' v'] d IH]; cbn [dict_set dict_get].
  - destruct (datetime_eq_dec k k0); congruence.
  - destruct (datetime_eq_dec k0 k') as [E|E]; cbn [dict_get].
    + destruct (datetime_eq_dec k k'); congruence.
    + destruct (datetime_eq_dec k k'); congruence.
Qed.

Lemma dict_get_fill_other {I : Type} (key : I -> datetime) (val : I -> V)
    (items : list I) (d : dict datetime V) (k : datetime) :
  (forall j, In j items -> key j <> k) ->
  dict_get datetime_eq_dec k (fill datetime_eq_dec key val items d)
  = dict_get datetime_eq_dec k d.
Proof.
  revert d. induction items as [|i items IH]; intros d Hne.
  - reflexivity.
  - change (fill datetime_eq_dec key val (i :: items) d)
      with (fill datetime_eq_dec key val items (dict_set datetime_eq_dec (key i) (val i) d)).
    rewrite IH by (intros j Hj; apply Hne; right; exact Hj).
    apply dict_get_set_other.
    intros E. apply (Hne i); [left; reflexivity|congruence].
Qed.

Lemma dict_get_fill_last {I : Type} (key : I -> datetime) (val : I -> V)
    (before after : list I) (i : I) (d : dict datetime V) :
  (forall j, In j after -> key j <> key i) ->
  dict_get datetime_eq_dec (key i) (fill datetime_eq_dec key val (before ++ i :: after) d)
  = Some (val i).
Proof.
  intros Hne.
  replace (fill datetime_eq_dec key val (before ++ i :: after) d)
    with (fill datetime_eq_dec key val after
            (dict_set datetime_eq_dec (key i) (val i) (fill datetime_eq_dec key val before d)))
    by (unfold fill; rewrite fold_left_app; reflexivity).
  rewrite dict_get_fill_other by exact Hne.
  apply dict_get_set_same.
Qed.

Lemma fill_ext {I : Type} (key key' : I -> datetime) (val val' : I -> V)
    (items : list I) (d : dict datetime V) :
  (forall i, In i items -> key' i = key i /\ val' i = val i) ->
  fill datetime_eq_dec key' val' items d = fill datetime_eq_dec key val items d.
Proof.
  revert d. induction items as [|i items IH]; intros d Hext.
  - reflexivity.
  - change (fill datetime_eq_dec key' val' (i :: items) d)
      with (fill datetime_eq_dec key' val' items
              (dict_set datetime_eq_dec (key' i) (val' i) d)).
    change (fill datetime_eq_dec key val (i :: items) d)
      with (fill datetime_eq_dec key val items
              (dict_set datetime_eq_dec (key i) (val i) d)).
    destruct (Hext i (or_introl eq_refl)) as [-> ->].
    apply IH. intros j Hj. apply Hext. right. exact Hj.
Qed.

End DictFacts.

(** ** Facts on the entry-type discriminator *)

Lemma str_eqb_single (n c : Z) : str_eqb [n] [c] = (n =? c).
Proof.
  unfold str_eqb.
  destruct (list_eq_dec Z.eq_dec [n] [c]) as [E|E];
    destruct (Z.eqb_spec n c) as [F|F]; congruence.
Qed.

Lemma in_s_w (n : Z) :
  existsb (str_eqb [n]) [str_s; str_w] = is_s_or_w n.
Proof.
  unfold str_s, str_w, is_s_or_w. cbn [existsb].
  rewrite !str_eqb_single, orb_false_r. reflexivity.
Qed.

(** [bytes([n])] holds the one byte [n] when [n] is in [range(0, 256)]
    and raises [ValueError] otherwise. *)
Lemma bytes_of_single (n : Z) :
  bytes_of_ints [n]
  = if (0 <=? n) && (n <? 256) then Ok [byte_of_Z n] else Raise ValueError.
Proof.
  cbn [bytes_of_ints]. destruct ((0 <=? n) && (n <? 256)); reflexivity.
Qed.

(** [.decode('ascii')] of one byte yields its character when the byte is
    below 128 and raises [UnicodeDecodeError] otherwise. *)
Lemma ascii_decode_single (n : Z) :
  0 <= n < 256 ->
  ascii_decode [byte_of_Z n]
  = if n <? 128 then Ok [n] else Raise UnicodeDecodeError.
Proof.
  intros Hn. cbn [ascii_decode].
  rewrite byte_val_of_Z, Z.mod_small by lia.
  destruct (n <? 128); reflexivity.
Qed.

(** ** Facts on the composite decoders *)

Section CodecFacts.

Context {datetime : Type}.
Variable fromtimestamp : Z -> datetime.
Variable datetime_eq_dec : forall a b : datetime, {a = b} + {a <> b}.

(** The slot that iteration [pair = 5 * i] of the loop reads. *)
Lemma event_table_body_ascii (data : list byte) (i : nat)
    (tabval : dict datetime (EventEntry datetime)) :
  4 + 20 * Z.of_nat i + 20 <= len data ->
  word (stride 20 data i) 0 < 128 ->
  event_table_body fromtimestamp datetime_eq_dec data (5 * Z.of_nat i) tabval
  = Ok (dict_set datetime_eq_dec (fromtimestamp (word (stride 20 data i) 4))
          (layout_entry fromtimestamp (stride 20 data i)) tabval).
Proof.
  intros Hlen Hascii.
  unfold layout_entry.
  rewrite !word_stride in * by lia.
  pose proof (word_range data (4 + 20 * Z.of_nat i + 0)) as Hr.
  unfold event_table_body.
  replace (4 + 5 * Z.of_nat i * 4) with (4 + 20 * Z.of_nat i) by lia.
  rewrite (unpack_word (4 + 20 * Z.of_nat i) _ data) by lia.
  rewrite (unpack_word (4 + 20 * Z.of_nat i + 4) _ data) by lia.
  rewrite (unpack_word (4 + 20 * Z.of_nat i + 8) _ data) by lia.
  rewrite (unpack_word (4 + 20 * Z.of_nat i + 12) _ data) by lia.
  rewrite (unpack_word (4 + 20 * Z.of_nat i + 16) _ data) by lia.
  replace (4 + 20 * Z.of_nat i + 0) with (4 + 20 * Z.of_nat i) in * by lia.
  cbn [bind].
  rewrite bytes_of_single.
  replace ((0 <=? word data (4 + 20 * Z.of_nat i))
           && (word data (4 + 20 * Z.of_nat i) <? 256)) with true by lia.
  cbn [bind].
  rewrite ascii_decode_single by lia.
  replace (word data (4 + 20 * Z.of_nat i) <? 128) with true by lia.
  cbn [bind].
  rewrite in_s_w.
  destruct (is_s_or_w (word data (4 + 20 * Z.of_nat i))); reflexivity.
Qed.

Lemma event_table_body_not_ascii (data : list byte) (i : nat)
    (tabval : dict datetime (EventEntry datetime)) :
  4 + 20 * Z.of_nat i + 20 <= len data ->
  128 <= word (stride 20 data i) 0 ->
  event_table_body fromtimestamp datetime_eq_dec data (5 * Z.of_nat i) tabval
  = Raise (if word (stride 20 data i) 0 <? 256
           then UnicodeDecodeError else ValueError).
Proof.
  intros Hlen Hhigh.
  rewrite !word_stride in * by lia.
  pose proof (word_range data (4 + 20 * Z.of_nat i + 0)) as Hr.
  unfold event_table_body.
  replace (4 + 5 * Z.of_nat i * 4) with (4 + 20 * Z.of_nat i) by lia.
  rewrite (unpack_word (4 + 20 * Z.of_nat i) _ data) by lia.
  replace (4 + 20 * Z.of_nat i + 0) with (4 + 20 * Z.of_nat i) in * by lia.
  cbn [bind].
  rewrite bytes_of_single.
  destruct (Z.ltb_spec (word data (4 + 20 * Z.of_nat i)) 256) as [Hlt|Hge].
  - replace (0 <=? word data (4 + 20 * Z.of_nat i)) with true by lia.
    cbn [andb bind].
    rewrite ascii_decode_single by lia.
    replace (word data (4 + 20 * Z.of_nat i) <? 128) with false by lia.
    reflexivity.
  - rewrite andb_false_r. reflexivity.
Qed.

(** The buffer is the anchor followed by [stride_count] whole slots. *)
Lemma event_table_length (data : list byte) :
  4 <= len data -> (len data - 4) mod 20 = 0 ->
  len data = 4 + 20 * Z.of_nat (stride_count 20 data).
Proof.
  intros H4 Hmod. unfold stride_count.
  rewrite Z2Nat.id by (apply Z.div_pos; lia).
  pose proof (Z.div_mod (len data - 4) 20). lia.
Qed.

Lemma well_formed_event_table_inv (data : list byte) :
  well_formed_event_table data = true ->
  4 <= len data /\ len data mod 4 = 0 /\ (len data - 4) mod 20 = 0 /\
  forall i, (i < stride_count 20 data)%nat -> word (stride 20 data i) 0 < 128.
Proof.
  unfold well_formed_event_table, event_table_lengths_ok.
  rewrite !andb_true_iff, forallb_forall.
  intros [[H4 [Hm4 Hm20]] Hall].
  apply Z.leb_le in H4. apply Z.eqb_eq in Hm4, Hm20.
  repeat split; try assumption.
  intros i Hi. specialize (Hall i).
  rewrite in_seq in Hall. specialize (Hall ltac:(lia)). lia.
Qed.

(** The prologue of the [EVENT_TABLE] branch on a buffer that satisfies
    the length invariants: what remains is the loop. *)
Lemma decode_event_table_loop (data : list byte) :
  4 <= len data -> (len data - 4) mod 20 = 0 ->
  decode_value fromtimestamp datetime_eq_dec EVENT_TABLE data
  = (tabval <- for_each
                 (map (fun j => 5 * Z.of_nat j)
                    (seq 0 (stride_count 20 data)))
                 (event_table_body fromtimestamp datetime_eq_dec data) [] ;;
     Ok (VEventTable (fromtimestamp (word data 0)) tabval)).
Proof.
  intros H4 Hmod.
  pose proof (event_table_length data H4 Hmod) as Hlen.
  unfold decode_value.
  rewrite (unpack_word 0 4 data) by lia. cbn [bind].
  assert (Hm4 : len data mod 4 = 0) by lia_mod.
  assert (Hq : len data / 4 - 1 = 5 * Z.of_nat (stride_count 20 data))
    by lia_mod.
  rewrite Hm4, Hmod, Hq. cbn [Z.eqb py_assert bind].
  rewrite py_range_from_zero by lia.
  reflexivity.
Qed.

Lemma decode_event_table_ok (data : list byte) :
  well_formed_event_table data = true ->
  decode_value fromtimestamp datetime_eq_dec EVENT_TABLE data
  = Ok (VEventTable (fromtimestamp (word data 0)) (event_table_of fromtimestamp datetime_eq_dec data)).
Proof.
  intros Hwf.
  destruct (well_formed_event_table_inv data Hwf) as (H4 & _ & Hmod & Hascii).
  pose proof (event_table_length data H4 Hmod) as Hlen.
  rewrite decode_event_table_loop by assumption.
  rewrite (for_each_ok _ _ _
             (fun i => dict_set datetime_eq_dec (slot_key fromtimestamp data i)
                         (slot_entry fromtimestamp data i))).
  - reflexivity.
  - intros i s' Hi. rewrite in_seq in Hi.
    apply event_table_body_ascii; [lia|].
    apply Hascii. lia.
Qed.

Lemma decode_event_table_raise (data : list byte) (i : nat) :
  4 <= len data -> (len data - 4) mod 20 = 0 ->
  (i < stride_count 20 data)%nat ->
  128 <= word (stride 20 data i) 0 ->
  exists e, (e = ValueError \/ e = UnicodeDecodeError) /\
    decode_value fromtimestamp datetime_eq_dec EVENT_TABLE data = Raise e.
Proof.
  intros H4 Hmod Hi Hhigh.
  pose proof (event_table_length data H4 Hmod) as Hlen.
  rewrite decode_event_table_loop by assumption.
  destruct (for_each_raise (fun e => e = ValueError \/ e = UnicodeDecodeError)
              (map (fun j => 5 * Z.of_nat j) (seq 0 (stride_count 20 data)))
              (event_table_body fromtimestamp datetime_eq_dec data)
              (5 * Z.of_nat i) []) as (e & He & Hloop).
  - apply in_map_iff. exists i. split; [reflexivity|].
    apply in_seq. lia.
  - intros s'. eexists.
    apply event_table_body_not_ascii; [lia|exact Hhigh].
  - intros p s' e Hp Hraise.
    apply in_map_iff in Hp. destruct Hp as (j & <- & Hj).
    apply in_seq in Hj.
    destruct (Z_lt_le_dec (word (stride 20 data j) 0) 128) as [Hlt|Hge].
    + rewrite event_table_body_ascii in Hraise by lia. discriminate.
    + rewrite event_table_body_not_ascii in Hraise by lia.
      destruct (word (stride 20 data j) 0 <? 256); injection Hraise; auto.
  - exists e. split; [exact He|]. rewrite Hloop. reflexivity.
Qed.

(** The entry filed under the key of a slot that no later slot
    overwrites. *)
Lemma event_table_of_get (data : list byte) (i : nat) :
  (i < stride_count 20 data)%nat ->
  (forall j, (i < j < stride_count 20 data)%nat ->
             slot_key fromtimestamp data j <> slot_key fromtimestamp data i) ->
  dict_get datetime_eq_dec (slot_key fromtimestamp data i) (event_table_of fromtimestamp datetime_eq_dec data)
  = Some (slot_entry fromtimestamp data i).
Proof.
  intros Hi Hlast. unfold event_table_of.
  replace (seq 0 (stride_count 20 data))
    with (seq 0 i ++ i :: seq (S i) (stride_count 20 data - S i)).
  - apply dict_get_fill_last.
    intros j Hj. apply in_seq in Hj. apply Hlast. lia.
  - change (i :: seq (S i) (stride_count 20 data - S i))
      with (seq i (S (stride_count 20 data - S i))).
    rewrite <- seq_app. f_equal. lia.
Qed.

(** The fields that a buffer shares with one that differs from it in
    bytes 8-11 of slot [i] only: all those of the other slots, and the
    fields at 0, 4, 12 and 16 of slot [i]. *)
Lemma same_word (i j : nat) (k : Z) (data data' : list byte) :
  same_but_bytes_8_11 i data data' ->
  0 <= k -> k + 4 <= 20 ->
  j <> i \/ k + 4 <= 8 \/ 12 <= k ->
  word (stride 20 data' j) k = word (stride 20 data j) k.
Proof.
  intros [Hlen Hnth] Hk Hk20 Hfar.
  rewrite !word_stride by lia.
  apply word_ext; [lia|exact Hlen|].
  intros n Hn. apply Hnth. lia.
Qed.

Lemma same_slot (i j : nat) (data data' : list byte) :
  same_but_bytes_8_11 i data data' ->
  is_s_or_w (word (stride 20 data i) 0) = false ->
  slot_key fromtimestamp data' j = slot_key fromtimestamp data j /\
  slot_entry fromtimestamp data' j = slot_entry fromtimestamp data j.
Proof.
  intros Hsame Htype. unfold slot_key, slot_entry, layout_entry.
  rewrite (same_word i j 0 data data') by (try assumption; lia).
  rewrite (same_word i j 4 data data') by (try assumption; lia).
  rewrite (same_word i j 12 data data') by (try assumption; lia).
  rewrite (same_word i j 16 data data') by (try assumption; lia).
  split; [reflexivity|].
  destruct (Nat.eq_dec j i) as [->|Hne].
  - rewrite Htype. reflexivity.
  - rewrite (same_word i j 8 data data') by (try assumption; lia).
    reflexivity.
Qed.

(** Bytes 8-11 of a slot whose entry type is neither ['s'] nor ['w'] do
    not bear on the result. *)
Lemma decode_event_table_same (i : nat) (data data' : list byte) :
  well_formed_event_table data = true ->
  is_s_or_w (word (stride 20 data i) 0) = false ->
  same_but_bytes_8_11 i data data' ->
  decode_value fromtimestamp datetime_eq_dec EVENT_TABLE data'
  = decode_value fromtimestamp datetime_eq_dec EVENT_TABLE data.
Proof.
  intros Hwf Htype Hsame.
  assert (Hlen : len data' = len data)
    by (unfold len; destruct Hsame as [-> _]; reflexivity).
  assert (Hcount : stride_count 20 data' = stride_count 20 data)
    by (unfold stride_count; rewrite Hlen; reflexivity).
  assert (Hwf' : well_formed_event_table data' = true).
  { revert Hwf.
    unfold well_formed_event_table, event_table_lengths_ok.
    rewrite Hlen, Hcount, !andb_true_iff, !forallb_forall.
    intros [Hl Hall]. split; [exact Hl|].
    intros j Hj.
    rewrite (same_word i j 0 data data') by (try assumption; lia).
    apply Hall. exact Hj. }
  rewrite !decode_event_table_ok by assumption.
  assert (Hanchor : word data' 0 = word data 0).
  { destruct Hsame as [Hl Hnth].
    apply word_ext; [lia|exact Hl|].
    intros n Hn. apply Hnth. lia. }
  rewrite Hanchor. do 2 f_equal.
  unfold event_table_of. rewrite Hcount.
  apply fill_ext. intros j _.
  apply (same_slot i j data data'); assumption.
Qed.

(** A [TIMESERIES] buffer that holds the anchor and satisfies the
    length invariants decodes to the anchor and the samples of its
    slots. *)
Lemma decode_timeseries_ok (data : list byte) :
  4 <= len data -> timeseries_lengths_ok data = true ->
  decode_value fromtimestamp datetime_eq_dec TIMESERIES data
  = Ok (VTimeseries (fromtimestamp (word data 0))
          (timeseries_of fromtimestamp datetime_eq_dec data)).
Proof.
  intros H4 Hlen. unfold timeseries_lengths_ok in Hlen.
  apply andb_true_iff in Hlen. destruct Hlen as [Hm4 Hm8].
  apply Z.eqb_eq in Hm4, Hm8.
  assert (Hsize : len data = 4 + 8 * Z.of_nat (stride_count 8 data)).
  { unfold stride_count.
    rewrite Z2Nat.id by (apply Z.div_pos; lia).
    pose proof (Z.div_mod (len data - 4) 8). lia. }
  unfold decode_value.
  rewrite (unpack_word 0 4 data) by lia. cbn [bind].
  assert (Hodd : len data / 4 mod 2 = 1) by lia_mod.
  assert (Hq : len data / 4 - 1 = 2 * Z.of_nat (stride_count 8 data))
    by lia_mod.
  rewrite Hm4, Hodd, Hq. cbn [Z.eqb py_assert bind].
  rewrite py_range_from_zero by lia.
  rewrite (for_each_ok _ _ _
             (fun i => dict_set datetime_eq_dec
                         (fst (layout_sample fromtimestamp (stride 8 data i)))
                         (snd (layout_sample fromtimestamp
                                 (stride 8 data i))))).
  - reflexivity.
  - intros i s' Hi. apply in_seq in Hi.
    unfold timeseries_body, layout_sample. cbn [fst snd].
    rewrite !word_stride by lia.
    replace (4 + 2 * Z.of_nat i * 4) with (4 + 8 * Z.of_nat i + 0) by lia.
    rewrite (unpack_word (4 + 8 * Z.of_nat i + 0) _ data) by lia.
    replace (4 + 8 * Z.of_nat i + 0 + 4) with (4 + 8 * Z.of_nat i + 4) by lia.
    rewrite (unpack_f_word (4 + 8 * Z.of_nat i + 4) _ data) by lia.
    reflexivity.
Qed.

End CodecFacts.

(** ** Facts on integers on the wire *)

Lemma le_bytes_length (w : nat) (n : Z) : length (le_bytes w n) = w.
Proof.
  revert n. induction w as [|w IH]; intros n; cbn [le_bytes length].
  - reflexivity.
  - rewrite IH. reflexivity.
Qed.

Lemma le_value_le_bytes (w : nat) (n : Z) :
  le_value (le_bytes w n) = n mod 2 ^ (8 * Z.of_nat w).
Proof.
  revert n. induction w as [|w IH]; intros n; cbn [le_bytes le_value].
  - cbn. rewrite Z.mod_1_r. reflexivity.
  - rewrite IH, byte_val_of_Z, Z.shiftr_div_pow2 by lia.
    replace (8 * Z.of_nat (S w)) with (8 + 8 * Z.of_nat w) by lia.
    rewrite Z.pow_add_r by lia.
    change (2 ^ 8) with 256.
    rewrite Z.rem_mul_r by lia. reflexivity.
Qed.

Lemma int_from_to_bytes (o : byteorder) (w : nat) (n : Z) :
  int_from_bytes o (int_to_bytes o w n) = n mod 2 ^ (8 * Z.of_nat w).
Proof.
  destruct o; cbn [int_from_bytes int_to_bytes].
  - apply le_value_le_bytes.
  - rewrite rev_involutive. apply le_value_le_bytes.
Qed.

Lemma int_to_bytes_length (o : byteorder) (w : nat) (n : Z) :
  length (int_to_bytes o w n) = w.
Proof.
  destruct o; cbn [int_to_bytes].
  - apply le_bytes_length.
  - rewrite length_rev. apply le_bytes_length.
Qed.

(** What an unsigned format reads from the bytes of any integer. *)
Lemma unpack_unsigned_bytes (o : byteorder) (f : intfmt) (n : Z) :
  fmt_signed f = false ->
  unpack_int o f (int_to_bytes o (fmt_size f) n) = Ok (n mod 2 ^ fmt_bits f).
Proof.
  intros Hf. unfold unpack_int.
  rewrite int_to_bytes_length, Nat.eqb_refl, Hf, int_from_to_bytes.
  reflexivity.
Qed.

(** What a signed format reads from the bytes of an integer in its
    range. *)
Lemma unpack_signed_bytes (o : byteorder) (f : intfmt) (n : Z) :
  fmt_signed f = true -> fmt_min f <= n <= fmt_max f ->
  unpack_int o f (int_to_bytes o (fmt_size f) n) = Ok n.
Proof.
  intros Hf. unfold unpack_int, fmt_min, fmt_max.
  rewrite int_to_bytes_length, Nat.eqb_refl, Hf, int_from_to_bytes.
  fold (fmt_bits f).
  assert (Hb : 2 ^ fmt_bits f = 2 * 2 ^ (fmt_bits f - 1)).
  { rewrite <- Z.pow_succ_r by (destruct f; cbv; discriminate).
    f_equal. lia. }
  assert (Hp : 0 < 2 ^ (fmt_bits f - 1))
    by (apply Z.pow_pos_nonneg; [lia|destruct f; cbv; discriminate]).
  intros Hn. cbn [andb]. f_equal.
  destruct (Z_lt_le_dec n 0) as [Hneg|Hpos].
  - replace (n mod 2 ^ fmt_bits f) with (n + 2 ^ fmt_bits f).
    + replace (2 ^ (fmt_bits f - 1) <=? n + 2 ^ fmt_bits f) with true by lia.
      lia.
    + apply Z.mod_unique with (-1); lia.
  - rewrite Z.mod_small by lia.
    replace (2 ^ (fmt_bits f - 1) <=? n) with false by lia.
    reflexivity.
Qed.

(** ** Facts on the low byte of a field *)

(** The low byte of the 32-bit field that opens a slot is its fourth
    byte. *)
Lemma word_low_byte (s : list byte) :
  4 <= len s -> word s 0 mod 256 = byte_val (nth 3 s x00).
Proof.
  unfold len.
  destruct s as [|b0 [|b1 [|b2 [|b3 r]]]]; cbn [length]; try lia.
  intros _. unfold word.
  change (slice 0 (0 + 4) (b0 :: b1 :: b2 :: b3 :: r)) with [b0; b1; b2; b3].
  cbn [int_from_bytes rev app le_value nth].
  pose proof (byte_val_range b3).
  symmetry. apply Z.mod_unique
    with (byte_val b2 + 256 * (byte_val b1 + 256 * (byte_val b0 + 0))); lia.
Qed.

(** A field below 256 has its three upper bytes zero and is its low
    byte. *)
Lemma word_below_256 (s : list byte) :
  4 <= len s -> 0 <= word s 0 < 256 ->
  word s 0 = byte_val (nth 3 s x00) /\
  firstn 3 s = [x00; x00; x00].
Proof.
  intros Hlen Hw. split.
  - rewrite <- word_low_byte by assumption.
    symmetry. apply Z.mod_small. exact Hw.
  - revert Hlen Hw. unfold len.
    destruct s as [|b0 [|b1 [|b2 [|b3 r]]]]; cbn [length]; try lia.
    intros _. unfold word.
    change (slice 0 (0 + 4) (b0 :: b1 :: b2 :: b3 :: r))
      with [b0; b1; b2; b3].
    cbn [int_from_bytes rev app le_value firstn].
    pose proof (byte_val_range b0). pose proof (byte_val_range b1).
    pose proof (byte_val_range b2). pose proof (byte_val_range b3).
    intros Hw.
    assert (E0 : byte_val b0 = 0) by lia.
    assert (E1 : byte_val b1 = 0) by lia.
    assert (E2 : byte_val b2 = 0) by lia.
    rewrite <- (byte_of_Z_val b0), <- (byte_of_Z_val b1),
      <- (byte_of_Z_val b2), E0, E1, E2.
    reflexivity.
Qed.

Lemma stride_length (data : list byte) (i : nat) :
  4 + 20 * Z.of_nat i + 20 <= len data -> len (stride 20 data i) = 20.
Proof.
  intros H. unfold len, stride.
  rewrite slice_length by lia. lia.
Qed.

(** ** Facts on the scalar types *)

Section ScalarFacts.

Context {datetime : Type}.
Variable fromtimestamp : Z -> datetime.
Variable datetime_eq_dec : forall a b : datetime, {a = b} + {a <> b}.

Lemma pack_int_in_range (o : byteorder) (f : intfmt) (n : Z) :
  fmt_min f <= n <= fmt_max f ->
  pack_int o f (VInt n : value datetime) = Ok (int_to_bytes o (fmt_size f) n).
Proof.
  intros Hn. unfold pack_int. cbn [as_int].
  replace ((fmt_min f <=? n) && (n <=? fmt_max f)) with true by lia.
  reflexivity.
Qed.

Lemma pack_int_out_of_range (o : byteorder) (f : intfmt) (n : Z) :
  n < fmt_min f \/ fmt_max f < n ->
  pack_int o f (VInt n : value datetime) = Raise StructError.
Proof.
  intros Hn. unfold pack_int. cbn [as_int].
  replace ((fmt_min f <=? n) && (n <=? fmt_max f)) with false by lia.
  reflexivity.
Qed.

Lemma fmt_bits_pos (f : intfmt) : 0 < fmt_bits f.
Proof. destruct f; reflexivity. Qed.

Lemma wrapped_range (f : intfmt) (n : Z) :
  fmt_signed f = false -> fmt_min f <= n mod 2 ^ fmt_bits f <= fmt_max f.
Proof.
  intros Hf. unfold fmt_min, fmt_max. rewrite Hf.
  pose proof (fmt_bits_pos f).
  assert (0 < 2 ^ fmt_bits f) by (apply Z.pow_pos_nonneg; lia).
  pose proof (Z.mod_pos_bound n (2 ^ fmt_bits f)). lia.
Qed.

(** The bits of a signed integer read as unsigned. *)
Lemma reinterpret_in_range (f : intfmt) (n : Z) :
  fmt_signed f = false ->
  fmt_min (signed_of f) <= n <= fmt_max (signed_of f) ->
  reinterpret (signed_of f) f (VInt n : value datetime)
  = Ok (VInt (n mod 2 ^ fmt_bits f)).
Proof.
  intros Hf Hn. unfold reinterpret.
  rewrite pack_int_in_range by exact Hn. cbn [bind].
  replace (fmt_size (signed_of f)) with (fmt_size f) by (destruct f; reflexivity).
  rewrite unpack_unsigned_bytes by exact Hf. reflexivity.
Qed.

Lemma reinterpret_out_of_range (f : intfmt) (n : Z) :
  n < fmt_min (signed_of f) \/ fmt_max (signed_of f) < n ->
  reinterpret (signed_of f) f (VInt n : value datetime) = Raise StructError.
Proof.
  intros Hn. unfold reinterpret.
  rewrite pack_int_out_of_range by exact Hn. reflexivity.
Qed.

(** On an integer tag, a value within the range of the signed format of
    the width of the tag is encoded, and the bytes decode to the value:
    to the value itself for a signed tag, to its residue for an unsigned
    one. *)
Lemma integer_round_trip (t : DataType) (f : intfmt) (n : Z) :
  wire_format t = Some f ->
  fmt_min (signed_of f) <= n <= fmt_max (signed_of f) ->
  encode_value t (VInt n : value datetime)
  = Ok (int_to_bytes BigEndian (fmt_size f) (wrapped f n)) /\
  decode_value fromtimestamp datetime_eq_dec t
    (int_to_bytes BigEndian (fmt_size f) (wrapped f n))
  = Ok (VInt (wrapped f n)).
Proof.
  intros Ht Hn.
  destruct t; try discriminate; injection Ht as <-;
    unfold encode_value, decode_value, wrapped; cbn [fmt_signed].
  all: first
    [ (* a signed tag *)
      rewrite pack_int_in_range by exact Hn;
      rewrite unpack_signed_bytes by (try reflexivity; exact Hn);
      split; reflexivity
    | (* an unsigned tag *)
      match goal with
      | |- context [reinterpret ?g ?f _] =>
          change g with (signed_of f);
          rewrite (reinterpret_in_range f n eq_refl Hn); cbn [bind];
          rewrite pack_int_in_range by (apply wrapped_range; reflexivity);
          rewrite (unpack_unsigned_bytes BigEndian f _ eq_refl);
          rewrite Z.mod_mod
            by (apply Z.pow_nonzero; [lia|destruct f; cbv; discriminate]);
          split; reflexivity
      end ].
Qed.

(** On an unsigned tag, a value of the tag beyond the range of the
    signed format of the same width is refused. *)
Lemma unsigned_upper_half_raises (t : DataType) (f : intfmt) (n : Z) :
  wire_format t = Some f -> fmt_signed f = false ->
  fmt_max (signed_of f) < n ->
  encode_value t (VInt n : value datetime) = Raise StructError.
Proof.
  intros Ht Hf Hn.
  destruct t; try discriminate; injection Ht as <-; try discriminate;
    unfold encode_value;
    match goal with
    | |- context [reinterpret ?g ?f _] =>
        change g with (signed_of f);
        rewrite (reinterpret_out_of_range f n) by (right; exact Hn);
        reflexivity
    end.
Qed.

(** [BOOL] normalises: every value is encoded as one byte, 1 when the
    value differs from 0 and 0 otherwise, and the byte decodes to the
    truth value. *)
Lemma bool_round_trip (v : value datetime) :
  encode_value BOOL v = Ok [if ne_zero v then x01 else x00] /\
  decode_value fromtimestamp datetime_eq_dec BOOL
    [if ne_zero v then x01 else x00]
  = Ok (VBool (ne_zero v)).
Proof.
  unfold encode_value, decode_value.
  destruct (ne_zero v); split; reflexivity.
Qed.

(** The float 3.5, which binary32 represents exactly, is encoded as
    [40 60 00 00], and these bytes decode to a float equal to it. *)
Lemma float_round_trip_3_5 :
  encode_value FLOAT (VFloat (S754_finite false 7 (-1)) : value datetime)
  = Ok [x40; x60; x00; x00] /\
  exists x,
    decode_value fromtimestamp datetime_eq_dec FLOAT [x40; x60; x00; x00]
    = Ok (VFloat x) /\
    float_eqb x (S754_finite false 7 (-1)) = true.
Proof.
  split; [reflexivity|].
  eexists. split; reflexivity.
Qed.

End ScalarFacts.

(** * The properties of the specification *)

(** ** The checksum engine *)

(** C2.  On every byte sequence, [CRC16] computes the reference algorithm
    of the specification applied to the buffer after the padding step:
    the guard of the source, which tests bits 16 to 30 only, fires
    exactly when a bit at or above position 16 is set, and the value
    returned is already reduced to its low 16 bits. *)
Theorem CRC16_is_reference_checksum (data : list byte) :
  Checksum.CRC16 data = Checksum.reference_checksum (Checksum.pad data).
Proof.
  unfold Checksum.CRC16, Checksum.reference_checksum. cbv zeta.
  rewrite <- ChecksumFacts.fold_crc_byte_reference
    by apply ChecksumFacts.seed_acc16.
  symmetry. apply Z.mod_small.
  apply ChecksumFacts.fold_crc_byte_acc16, ChecksumFacts.seed_acc16.
Qed.

(** C6.  On a byte sequence of odd length the checksum is the checksum
    of the sequence with one zero byte appended: every byte of the
    input, the first included, goes through the loop, followed by the
    zero byte. *)
Theorem CRC16_odd_length_appends_zero (b : list byte) :
  Nat.odd (length b) = true ->
  Checksum.CRC16 b = Checksum.CRC16 (b ++ [x00]) /\
  Checksum.CRC16 b = fold_left Checksum.crc_byte (b ++ [x00]) 0xFFFF.
Proof.
  intros Hodd. unfold Checksum.CRC16. cbv zeta.
  rewrite (ChecksumFacts.pad_odd b Hodd).
  rewrite ChecksumFacts.pad_even; [split; reflexivity|].
  rewrite length_app, Nat.add_comm. cbn [length Nat.add].
  rewrite Nat.even_succ. exact Hodd.
Qed.

(** The one-byte input [01] is padded to [01 00]; its checksum differs
    from that of the input without its first byte. *)
Lemma CRC16_odd_length_appends_zero_witness :
  Nat.odd (length [x01]) = true /\
  Checksum.CRC16 [x01] = Checksum.CRC16 [x01; x00] /\
  Checksum.CRC16 [x01] <> Checksum.CRC16 (tl [x01]).
Proof.
  split; [reflexivity|]. split.
  - exact (proj1 (CRC16_odd_length_appends_zero [x01] eq_refl)).
  - vm_compute. discriminate.
Defined.

(** C8.  On every byte sequence, the empty one included, the checksum
    is a value between 0 and 65535.  [CRC16] is a total function: its
    body holds no operation that can raise. *)
Theorem CRC16_range (data : list byte) :
  0 <= Checksum.CRC16 data <= 65535.
Proof.
  pose proof (ChecksumFacts.fold_crc_byte_acc16 (Checksum.pad data) 0xFFFF
                ChecksumFacts.seed_acc16) as H.
  unfold Checksum.acc16 in H. unfold Checksum.CRC16. cbv zeta. lia.
Qed.

(** ** The scalar types *)

(** C1.  [encode_value] packs the value of an unsigned type as a signed
    integer of the same width before it reads the bits as unsigned, so
    it encodes [-1] as [FF FF] but raises [struct.error] on [65535],
    the value that [decode_value] returns for these very bytes. *)
Theorem encode_UINT16_upper_half :
  encode_value UINT16 (VInt (-1) : value utc_datetime) = Ok [xff; xff] /\
  encode_value UINT16 (VInt 65535 : value utc_datetime) = Raise StructError /\
  decode_value utc_fromtimestamp utc_eq_dec UINT16 [xff; xff]
  = Ok (VInt 65535).
Proof. repeat split. Qed.

(** C7.  For every value, encoding with the tag [TIMESERIES] or
    [EVENT_TABLE] raises [KeyError]: no bytes are produced. *)
Theorem encode_composite_raises (datetime : Type) (v : value datetime) :
  encode_value TIMESERIES v = Raise KeyError /\
  encode_value EVENT_TABLE v = Raise KeyError.
Proof. split; reflexivity. Qed.

(** ** The composite types *)

Section CompositeClaims.

Context {datetime : Type}.
Variable fromtimestamp : Z -> datetime.
Variable datetime_eq_dec : forall a b : datetime, {a = b} + {a <> b}.

(** C3.  A well-formed [EVENT_TABLE] buffer decodes to the anchor and a
    table in which every slot that no later slot overwrites is filed
    under its timestamp (bytes 4-7).  For the entry types ['s'] and
    ['w'] the entry takes its message id from bytes 8-11, its old value
    from bytes 12-15 and its new value from bytes 16-19, and has no end
    timestamp; for any other entry type it takes its end timestamp from
    bytes 12-15 and its message id from bytes 16-19 and has neither an
    old nor a new value, and bytes 8-11 are ignored: a buffer that
    differs in them only decodes to the same result. *)
Theorem event_entry_layout (data : list byte) :
  well_formed_event_table data = true ->
  (exists tabval,
     decode_value fromtimestamp datetime_eq_dec EVENT_TABLE data
     = Ok (VEventTable (fromtimestamp (word data 0)) tabval) /\
     forall i, (i < stride_count 20 data)%nat ->
       let s := stride 20 data i in
       let key := fromtimestamp (word s 4) in
       (forall j, (i < j < stride_count 20 data)%nat ->
                  fromtimestamp (word (stride 20 data j) 4) <> key) ->
       dict_get datetime_eq_dec key tabval
       = Some (if is_s_or_w (word s 0)
               then mkEventEntry key (word s 8) [word s 0]
                      None (Some (word s 12)) (Some (word s 16))
               else mkEventEntry key (word s 16) [word s 0]
                      (Some (fromtimestamp (word s 12))) None None)) /\
  (forall i data',
     (i < stride_count 20 data)%nat ->
     is_s_or_w (word (stride 20 data i) 0) = false ->
     same_but_bytes_8_11 i data data' ->
     decode_value fromtimestamp datetime_eq_dec EVENT_TABLE data'
     = decode_value fromtimestamp datetime_eq_dec EVENT_TABLE data).
Proof.
  intros Hwf. split.
  - exists (event_table_of fromtimestamp datetime_eq_dec data). split.
    + apply decode_event_table_ok. exact Hwf.
    + intros i Hi s key Hlast.
      pose proof (event_table_of_get fromtimestamp datetime_eq_dec data i
                    Hi Hlast) as Hget.
      unfold slot_key, slot_entry, layout_entry in Hget. cbv zeta in Hget.
      fold s in Hget. fold key in Hget. rewrite Hget.
      destruct (is_s_or_w (word s 0)); reflexivity.
  - intros i data' _ Htype Hsame.
    apply (decode_event_table_same fromtimestamp datetime_eq_dec i);
      assumption.
Qed.

(** C4, as amended.  The discriminator of a slot is decoded from the
    whole 32-bit value of bytes 0-3.  When every slot holds a value
    below 128 the table decodes, and the entry type of a slot is the
    one character whose code is that value, which then is the low byte
    of the field, the three upper bytes being zero.  When some slot
    holds 128 or more, which is so whenever one of its upper three
    bytes is not zero, decoding the table raises [ValueError] or
    [UnicodeDecodeError]. *)
Theorem entry_type_is_field_value (data : list byte) :
  4 <= len data -> event_table_lengths_ok data = true ->
  ((forall i, (i < stride_count 20 data)%nat ->
              word (stride 20 data i) 0 < 128) ->
   exists tabval,
     decode_value fromtimestamp datetime_eq_dec EVENT_TABLE data
     = Ok (VEventTable (fromtimestamp (word data 0)) tabval) /\
     forall i, (i < stride_count 20 data)%nat ->
       let s := stride 20 data i in
       let key := fromtimestamp (word s 4) in
       (forall j, (i < j < stride_count 20 data)%nat ->
                  fromtimestamp (word (stride 20 data j) 4) <> key) ->
       exists e,
         dict_get datetime_eq_dec key tabval = Some e /\
         entry_type e = [byte_val (nth 3 s x00)] /\
         firstn 3 s = [x00; x00; x00]) /\
  (forall i, (i < stride_count 20 data)%nat ->
             128 <= word (stride 20 data i) 0 ->
   exists e, (e = ValueError \/ e = UnicodeDecodeError) /\
     decode_value fromtimestamp datetime_eq_dec EVENT_TABLE data = Raise e).
Proof.
  intros H4 Hlen.
  unfold event_table_lengths_ok in Hlen.
  apply andb_true_iff in Hlen. destruct Hlen as [Hm4 Hm20].
  apply Z.eqb_eq in Hm4, Hm20.
  pose proof (event_table_length data H4 Hm20) as Hsize.
  split.
  - intros Hascii.
    exists (event_table_of fromtimestamp datetime_eq_dec data). split.
    + apply decode_event_table_ok.
      unfold well_formed_event_table, event_table_lengths_ok.
      rewrite !andb_true_iff, forallb_forall.
      repeat split; try lia.
      intros i Hi. apply in_seq in Hi.
      apply Z.ltb_lt, Hascii. lia.
    + intros i Hi s key Hlast.
      exists (slot_entry fromtimestamp data i). split.
      * apply (event_table_of_get fromtimestamp datetime_eq_dec data i Hi
                 Hlast).
      * assert (Hs : 4 <= len s)
          by (unfold s; rewrite stride_length; lia).
        assert (Hw : 0 <= word s 0 < 256).
        { split.
          - unfold word. apply int_from_bytes_range.
          - specialize (Hascii i Hi). fold s in Hascii. lia. }
        destruct (word_below_256 s Hs Hw) as [Hlow Hupper].
        split; [|exact Hupper].
        unfold slot_entry, layout_entry. cbv zeta. fold s.
        rewrite <- Hlow.
        destruct (is_s_or_w (word s 0)); reflexivity.
  - intros i Hi Hhigh.
    apply (decode_event_table_raise fromtimestamp datetime_eq_dec data i);
      assumption.
Qed.

(** C5.  A [TIMESERIES] buffer whose length is not divisible by 4 or
    whose length after the anchor is not a multiple of 8, and an
    [EVENT_TABLE] buffer whose length after the anchor is not a
    multiple of 20, do not decode: [decode_value] raises, either at the
    read of the anchor or at one of the two assertions, and so returns
    no mapping. *)
Theorem length_violation_raises (t : DataType) (data : list byte) :
  violates_length_invariants t data ->
  exists e, (e = StructError \/ e = AssertionError) /\
    decode_value fromtimestamp datetime_eq_dec t data = Raise e.
Proof.
  intros Hbad.
  destruct (Z_lt_le_dec (len data) 4) as [Hshort|Hlong].
  - exists StructError. split; [left; reflexivity|].
    destruct t; try contradiction; unfold decode_value;
      rewrite (unpack_anchor_short data Hshort); reflexivity.
  - exists AssertionError. split; [right; reflexivity|].
    destruct t; try contradiction; unfold decode_value;
      rewrite (unpack_word 0 4 data) by lia; cbn [bind];
      destruct (Z.eqb_spec (len data mod 4) 0) as [Hm4|Hm4];
      cbn [py_assert bind]; try reflexivity.
    + replace (len data / 4 mod 2 =? 1) with false; [reflexivity|].
      symmetry. apply Z.eqb_neq.
      cbn [violates_length_invariants] in Hbad. lia_mod.
    + replace ((len data - 4) mod 20 =? 0) with false; [reflexivity|].
      symmetry. apply Z.eqb_neq. exact Hbad.
Qed.

(** C9.  A buffer of exactly four bytes, an anchor without entries,
    decodes with [TIMESERIES] to the anchor and an empty sample mapping
    and with [EVENT_TABLE] to the anchor and an empty table. *)
Theorem anchor_only_buffer_decodes (data : list byte) :
  length data = 4%nat ->
  decode_value fromtimestamp datetime_eq_dec TIMESERIES data
  = Ok (VTimeseries (fromtimestamp (word data 0)) []) /\
  decode_value fromtimestamp datetime_eq_dec EVENT_TABLE data
  = Ok (VEventTable (fromtimestamp (word data 0)) []).
Proof.
  intros Hlen.
  assert (H4 : len data = 4) by (unfold len; lia).
  unfold decode_value.
  rewrite (unpack_word 0 4 data) by lia.
  rewrite H4. split; reflexivity.
Qed.

(** C10.  On a buffer of fewer than four bytes both composite decoders
    raise [struct.error], the exception of the read of the anchor.
    Such a buffer breaks the length invariants as well, which would
    raise [AssertionError]: the read of the anchor comes first, and no
    entry is produced. *)
Theorem short_buffer_fails_at_anchor (data : list byte) :
  (length data < 4)%nat ->
  unpack_int BigEndian Fmt_I (slice 0 4 data) = Raise StructError /\
  decode_value fromtimestamp datetime_eq_dec TIMESERIES data
  = Raise StructError /\
  decode_value fromtimestamp datetime_eq_dec EVENT_TABLE data
  = Raise StructError /\
  timeseries_lengths_ok data = false /\
  event_table_lengths_ok data = false.
Proof.
  intros Hlen.
  assert (Hshort : len data < 4) by (unfold len; lia).
  pose proof (unpack_anchor_short data Hshort) as Hanchor.
  split; [exact Hanchor|].
  unfold decode_value. rewrite Hanchor.
  split; [reflexivity|]. split; [reflexivity|].
  unfold timeseries_lengths_ok, event_table_lengths_ok, len.
  destruct data as [|b0 [|b1 [|b2 [|b3 r]]]]; cbn [length] in *;
    try lia; split; reflexivity.
Qed.

End CompositeClaims.

(** ** The properties on the sample buffers *)

Lemma event_entry_layout_witness :
  well_formed_event_table sample_event_table = true /\
  (exists tabval,
     decode_value utc_fromtimestamp utc_eq_dec EVENT_TABLE sample_event_table
     = Ok (VEventTable 1 tabval) /\
     dict_get utc_eq_dec 1000 tabval
     = Some (mkEventEntry 1000 5 str_s None (Some 10) (Some 20)) /\
     dict_get utc_eq_dec 2000 tabval
     = Some (mkEventEntry 2000 7 [99] (Some 3000) None None)) /\
  decode_value utc_fromtimestamp utc_eq_dec EVENT_TABLE
    sample_event_table_zeroed
  = decode_value utc_fromtimestamp utc_eq_dec EVENT_TABLE sample_event_table.
Proof.
  split; [reflexivity|].
  destruct (event_entry_layout utc_fromtimestamp utc_eq_dec
              sample_event_table eq_refl)
    as ((tabval & Hdecode & Hslots) & Hignored).
  split.
  - exists tabval. split; [exact Hdecode|]. split.
    + apply (Hslots 0%nat); [vm_compute; lia|].
      intros j Hj.
      change (stride_count 20 sample_event_table) with 2%nat in Hj.
      assert (j = 1%nat) as -> by lia.
      vm_compute. discriminate.
    + apply (Hslots 1%nat); [vm_compute; lia|].
      intros j Hj.
      change (stride_count 20 sample_event_table) with 2%nat in Hj.
      lia.
  - apply (Hignored 1%nat); [vm_compute; lia|reflexivity|].
    split; [reflexivity|].
    intros k Hk.
    do 32 (destruct k as [|k]; [reflexivity|]).
    do 4 (destruct k as [|k]; [cbn in Hk; lia|]).
    do 8 (destruct k as [|k]; [reflexivity|]).
    destruct k; reflexivity.
Defined.

(** C4, as the claim states it, fails: the low byte of the entry-type
    field of the slot is the code of ['s'], yet the buffer, whose
    lengths are in order, does not decode, because the field as a whole
    holds 371. *)
Lemma entry_type_low_byte_counterexample :
  event_table_lengths_ok sample_wide_entry_type = true /\
  byte_val (nth 3 (stride 20 sample_wide_entry_type 0) x00) = 115 /\
  word (stride 20 sample_wide_entry_type 0) 0 = 371 /\
  decode_value utc_fromtimestamp utc_eq_dec EVENT_TABLE sample_wide_entry_type
  = Raise ValueError.
Proof. repeat split. Qed.

Lemma entry_type_is_field_value_witness :
  (4 <= len sample_event_table /\
   event_table_lengths_ok sample_event_table = true /\
   exists tabval e,
     decode_value utc_fromtimestamp utc_eq_dec EVENT_TABLE sample_event_table
     = Ok (VEventTable 1 tabval) /\
     dict_get utc_eq_dec 1000 tabval = Some e /\
     entry_type e = str_s) /\
  (4 <= len sample_wide_entry_type /\
   event_table_lengths_ok sample_wide_entry_type = true /\
   exists e, (e = ValueError \/ e = UnicodeDecodeError) /\
     decode_value utc_fromtimestamp utc_eq_dec EVENT_TABLE
       sample_wide_entry_type = Raise e).
Proof.
  split.
  - split; [vm_compute; discriminate|]. split; [reflexivity|].
    destruct (proj1 (entry_type_is_field_value utc_fromtimestamp utc_eq_dec
                       sample_event_table
                       ltac:(vm_compute; discriminate) eq_refl))
      as (tabval & Hdecode & Hslots).
    + intros i Hi.
      change (stride_count 20 sample_event_table) with 2%nat in Hi.
      destruct i as [|[|i]]; [reflexivity|reflexivity|lia].
    + destruct (Hslots 0%nat) as (e & Hget & Htype & _).
      * vm_compute. lia.
      * intros j Hj.
        change (stride_count 20 sample_event_table) with 2%nat in Hj.
        assert (j = 1%nat) as -> by lia.
        vm_compute. discriminate.
      * exists tabval, e. split; [exact Hdecode|]. split; assumption.
  - split; [vm_compute; discriminate|]. split; [reflexivity|].
    apply (proj2 (entry_type_is_field_value utc_fromtimestamp utc_eq_dec
                    sample_wide_entry_type
                    ltac:(vm_compute; discriminate) eq_refl) 0%nat).
    + vm_compute. lia.
    + vm_compute. discriminate.
Defined.

Lemma length_violation_raises_witness :
  violates_length_invariants TIMESERIES [x00; x00; x00; x01; x00; x00] /\
  exists e, (e = StructError \/ e = AssertionError) /\
    decode_value utc_fromtimestamp utc_eq_dec TIMESERIES
      [x00; x00; x00; x01; x00; x00] = Raise e.
Proof.
  assert (H : violates_length_invariants TIMESERIES
                [x00; x00; x00; x01; x00; x00])
    by (left; vm_compute; discriminate).
  split; [exact H|].
  exact (length_violation_raises utc_fromtimestamp utc_eq_dec TIMESERIES
           [x00; x00; x00; x01; x00; x00] H).
Defined.

Lemma anchor_only_buffer_decodes_witness :
  length [x00; x00; x00; x01] = 4%nat /\
  decode_value utc_fromtimestamp utc_eq_dec TIMESERIES [x00; x00; x00; x01]
  = Ok (VTimeseries 1 []) /\
  decode_value utc_fromtimestamp utc_eq_dec EVENT_TABLE [x00; x00; x00; x01]
  = Ok (VEventTable 1 []).
Proof.
  split; [reflexivity|].
  exact (anchor_only_buffer_decodes utc_fromtimestamp utc_eq_dec
           [x00; x00; x00; x01] eq_refl).
Defined.

Lemma short_buffer_fails_at_anchor_witness :
  (length [x00; x01] < 4)%nat /\
  decode_value utc_fromtimestamp utc_eq_dec TIMESERIES [x00; x01]
  = Raise StructError /\
  decode_value utc_fromtimestamp utc_eq_dec EVENT_TABLE [x00; x01]
  = Raise StructError.
Proof.
  assert (H : (length [x00; x01] < 4)%nat) by (cbn; lia).
  split; [exact H|].
  destruct (short_buffer_fails_at_anchor utc_fromtimestamp utc_eq_dec
              [x00; x01] H) as (_ & Hts & Het & _).
  split; assumption.
Defined.

(** * Further properties of the code *)

(** ** More facts on integers on the wire *)

(** The bytes of an integer depend on its residue only. *)
Lemma le_bytes_congr (w : nat) (n m : Z) :
  n mod 2 ^ (8 * Z.of_nat w) = m mod 2 ^ (8 * Z.of_nat w) ->
  le_bytes w n = le_bytes w m.
Proof.
  revert n m. induction w as [|w IH]; intros n m H; cbn [le_bytes].
  - reflexivity.
  - replace (8 * Z.of_nat (S w)) with (8 + 8 * Z.of_nat w) in H by lia.
    rewrite Z.pow_add_r in H by lia. change (2 ^ 8) with 256 in H.
    assert (HB : 0 < 2 ^ (8 * Z.of_nat w)) by (apply Z.pow_pos_nonneg; lia).
    rewrite !Z.rem_mul_r in H by lia.
    pose proof (Z.mod_pos_bound n 256 ltac:(lia)) as Hn.
    pose proof (Z.mod_pos_bound m 256 ltac:(lia)) as Hm.
    assert (H0 : n mod 256 = m mod 256) by lia.
    assert (H1 : (n / 256) mod 2 ^ (8 * Z.of_nat w)
                 = (m / 256) mod 2 ^ (8 * Z.of_nat w)) by lia.
    rewrite !Z.shiftr_div_pow2 by lia. change (2 ^ 8) with 256.
    rewrite (IH _ _ H1). f_equal.
    unfold byte_of_Z. rewrite H0. reflexivity.
Qed.

Lemma int_to_bytes_congr (o : byteorder) (w : nat) (n m : Z) :
  n mod 2 ^ (8 * Z.of_nat w) = m mod 2 ^ (8 * Z.of_nat w) ->
  int_to_bytes o w n = int_to_bytes o w m.
Proof.
  intros H. destruct o; cbn [int_to_bytes];
    rewrite (le_bytes_congr w n m H); reflexivity.
Qed.

Lemma le_bytes_le_value (bs : list byte) :
  le_bytes (length bs) (le_value bs) = bs.
Proof.
  induction bs as [|b bs IH]; cbn [length le_bytes le_value].
  - reflexivity.
  - pose proof (byte_val_range b) as Hb.
    rewrite Z.shiftr_div_pow2 by lia. change (2 ^ 8) with 256.
    replace ((byte_val b + 256 * le_value bs) / 256) with (le_value bs)
      by lia_mod.
    rewrite IH. f_equal.
    rewrite <- (byte_of_Z_val b) at 2.
    unfold byte_of_Z.
    replace ((byte_val b + 256 * le_value bs) mod 256)
      with (byte_val b mod 256) by lia_mod.
    reflexivity.
Qed.

(** Writing back the integer that a buffer holds restores the buffer. *)
Lemma int_to_from_bytes (o : byteorder) (bs : list byte) :
  int_to_bytes o (length bs) (int_from_bytes o bs) = bs.
Proof.
  destruct o; cbn [int_to_bytes int_from_bytes].
  - apply le_bytes_le_value.
  - rewrite <- (length_rev bs), le_bytes_le_value. apply rev_involutive.
Qed.

Lemma pow2_bits_split (f : intfmt) :
  2 ^ fmt_bits f = 2 * 2 ^ (fmt_bits f - 1) /\ 0 < 2 ^ (fmt_bits f - 1).
Proof. destruct f; cbv; repeat split. Qed.

Section MoreScalarFacts.

Context {datetime : Type}.
Variable fromtimestamp : Z -> datetime.
Variable datetime_eq_dec : forall a b : datetime, {a = b} + {a <> b}.

(** [pack_int] looks at the integer in the value only. *)
Lemma pack_int_as_int (o : byteorder) (f : intfmt) (v : value datetime)
    (n : Z) :
  as_int v = Some n -> pack_int o f v = pack_int o f (VInt n : value datetime).
Proof. intros H. unfold pack_int. rewrite H. reflexivity. Qed.

Lemma pack_int_not_int (o : byteorder) (f : intfmt) (v : value datetime) :
  as_int v = None -> pack_int o f v = Raise StructError.
Proof. intros H. unfold pack_int. rewrite H. reflexivity. Qed.

Lemma pack_int_length (o : byteorder) (f : intfmt) (v : value datetime)
    (bs : list byte) :
  pack_int o f v = Ok bs -> length bs = fmt_size f.
Proof.
  unfold pack_int. destruct (as_int v) as [n|]; [|discriminate].
  destruct ((fmt_min f <=? n) && (n <=? fmt_max f)); [|discriminate].
  intros [= <-]. apply int_to_bytes_length.
Qed.

(** What [encode_value] returns on an integer tag, for every value. *)
Lemma encode_integer (t : DataType) (f : intfmt) (v : value datetime) :
  wire_format t = Some f ->
  encode_value t v
  = match as_int v with
    | Some n =>
        if (fmt_min (signed_of f) <=? n) && (n <=? fmt_max (signed_of f))
        then Ok (int_to_bytes BigEndian (fmt_size f) n)
        else Raise StructError
    | None => Raise StructError
    end.
Proof.
  intros Ht.
  destruct (as_int v) as [n|] eqn:Hv.
  - destruct (Z.leb_spec (fmt_min (signed_of f)) n) as [Hlo|Hlo];
      [destruct (Z.leb_spec n (fmt_max (signed_of f))) as [Hhi|Hhi]|];
      cbn [andb].
    + destruct (integer_round_trip fromtimestamp datetime_eq_dec t f n Ht
                  (conj Hlo Hhi)) as [Henc _].
      transitivity (encode_value t (VInt n : value datetime)).
      * destruct t; try discriminate; unfold encode_value, reinterpret;
          rewrite (pack_int_as_int _ _ v n Hv); reflexivity.
      * rewrite Henc. f_equal. apply int_to_bytes_congr.
        unfold wrapped. destruct (fmt_signed f); [reflexivity|].
        apply Z.mod_mod. apply Z.pow_nonzero; [lia|].
        destruct f; cbv; discriminate.
    + destruct t; try discriminate; injection Ht as <-;
        unfold encode_value, reinterpret;
        rewrite (pack_int_as_int _ _ v n Hv);
        rewrite pack_int_out_of_range by (right; exact Hhi); reflexivity.
    + destruct t; try discriminate; injection Ht as <-;
        unfold encode_value, reinterpret;
        rewrite (pack_int_as_int _ _ v n Hv);
        rewrite pack_int_out_of_range by (left; exact Hlo); reflexivity.
  - destruct t; try discriminate; unfold encode_value, reinterpret;
      rewrite (pack_int_not_int _ _ v Hv); reflexivity.
Qed.

(** What [decode_value] returns on an integer tag. *)
Lemma decode_integer (t : DataType) (f : intfmt) (data : list byte) :
  wire_format t = Some f ->
  decode_value fromtimestamp datetime_eq_dec t data
  = (n <- unpack_int BigEndian f data ;; Ok (VInt n)).
Proof.
  intros Ht. destruct t; try discriminate; injection Ht as <-; reflexivity.
Qed.

Lemma unpack_int_range (o : byteorder) (f : intfmt) (data : list byte)
    (n : Z) :
  unpack_int o f data = Ok n ->
  length data = fmt_size f /\ fmt_min f <= n <= fmt_max f /\
  n mod 2 ^ fmt_bits f = int_from_bytes o data.
Proof.
  unfold unpack_int.
  destruct (Nat.eqb_spec (length data) (fmt_size f)) as [Hlen|]; [|discriminate].
  pose proof (int_from_bytes_range o data) as Hu.
  rewrite Hlen in Hu. fold (fmt_bits f) in Hu.
  destruct (pow2_bits_split f) as [Hsplit Hpos].
  unfold fmt_min, fmt_max.
  destruct (fmt_signed f); cbn [andb].
  - destruct (Z.leb_spec (2 ^ (fmt_bits f - 1)) (int_from_bytes o data));
      intros [= <-]; (split; [exact Hlen|]); (split; [lia|]).
    + symmetry. apply Z.mod_unique with (-1); lia.
    + apply Z.mod_small. lia.
  - intros [= <-]. split; [exact Hlen|]. split; [lia|].
    apply Z.mod_small. lia.
Qed.

End MoreScalarFacts.

(** ** The scalar tags *)

Section ScalarProperties.

Context {datetime : Type}.
Variable fromtimestamp : Z -> datetime.
Variable datetime_eq_dec : forall a b : datetime, {a = b} + {a <> b}.

(** X1.  On a signed tag ([INT8], [INT16], [INT32]) every integer
    within the range of the tag is encoded in as many bytes as the tag
    is wide, and these bytes decode to the integer. *)
Theorem signed_tag_round_trip (t : DataType) (f : intfmt) (n : Z) :
  wire_format t = Some f -> fmt_signed f = true ->
  fmt_min f <= n <= fmt_max f ->
  exists bs,
    encode_value t (VInt n : value datetime) = Ok bs /\
    length bs = fmt_size f /\
    decode_value fromtimestamp datetime_eq_dec t bs = Ok (VInt n).
Proof.
  intros Ht Hf Hn.
  assert (Hs : signed_of f = f) by (destruct f; try discriminate; reflexivity).
  exists (int_to_bytes BigEndian (fmt_size f) n).
  rewrite (encode_integer fromtimestamp datetime_eq_dec t f _ Ht).
  cbn [as_int]. rewrite Hs.
  replace ((fmt_min f <=? n) && (n <=? fmt_max f)) with true by lia.
  split; [reflexivity|]. split; [apply int_to_bytes_length|].
  rewrite (decode_integer fromtimestamp datetime_eq_dec t f _ Ht).
  rewrite unpack_signed_bytes by assumption. reflexivity.
Qed.

(** X2.  On an unsigned tag ([UINT8], [UINT16], [UINT32], [ENUM]) every
    integer within the range of the signed format of the same width is
    encoded, and the bytes decode to the integer itself when it is not
    negative and to the integer plus [2 ^ bits] when it is. *)
Theorem unsigned_tag_wraps (t : DataType) (f : intfmt) (n : Z) :
  wire_format t = Some f -> fmt_signed f = false ->
  - 2 ^ (fmt_bits f - 1) <= n < 2 ^ (fmt_bits f - 1) ->
  exists bs,
    encode_value t (VInt n : value datetime) = Ok bs /\
    length bs = fmt_size f /\
    decode_value fromtimestamp datetime_eq_dec t bs
    = Ok (VInt (if n <? 0 then n + 2 ^ fmt_bits f else n)).
Proof.
  intros Ht Hf Hn.
  assert (Hrange : fmt_min (signed_of f) <= n <= fmt_max (signed_of f)).
  { unfold fmt_min, fmt_max.
    replace (fmt_bits (signed_of f)) with (fmt_bits f)
      by (destruct f; reflexivity).
    replace (fmt_signed (signed_of f)) with true by (destruct f; reflexivity).
    lia. }
  exists (int_to_bytes BigEndian (fmt_size f) n).
  rewrite (encode_integer fromtimestamp datetime_eq_dec t f _ Ht).
  cbn [as_int].
  replace ((fmt_min (signed_of f) <=? n) && (n <=? fmt_max (signed_of f)))
    with true by lia.
  split; [reflexivity|]. split; [apply int_to_bytes_length|].
  rewrite (decode_integer fromtimestamp datetime_eq_dec t f _ Ht).
  rewrite unpack_unsigned_bytes by assumption. cbn [bind].
  do 2 f_equal.
  destruct (pow2_bits_split f) as [Hsplit Hpos].
  destruct (Z.ltb_spec n 0).
  - symmetry. apply Z.mod_unique with (-1); lia.
  - apply Z.mod_small. lia.
Qed.

(** X3.  On an integer tag the encoder accepts exactly the integers and
    booleans that lie within the range of the signed format of the
    width of the tag, and returns their two's complement bytes, most
    significant first; on every other value it raises [struct.error]. *)
Theorem integer_encode_domain (t : DataType) (f : intfmt)
    (v : value datetime) :
  wire_format t = Some f ->
  (forall n, as_int v = Some n ->
     - 2 ^ (fmt_bits f - 1) <= n < 2 ^ (fmt_bits f - 1) ->
     encode_value t v = Ok (int_to_bytes BigEndian (fmt_size f) n)) /\
  ((forall n, as_int v = Some n ->
      n < - 2 ^ (fmt_bits f - 1) \/ 2 ^ (fmt_bits f - 1) <= n) ->
   encode_value t v = Raise StructError).
Proof.
  intros Ht.
  assert (Hmin : fmt_min (signed_of f) = - 2 ^ (fmt_bits f - 1))
    by (destruct f; reflexivity).
  assert (Hmax : fmt_max (signed_of f) = 2 ^ (fmt_bits f - 1) - 1)
    by (destruct f; reflexivity).
  rewrite (encode_integer fromtimestamp datetime_eq_dec t f v Ht).
  rewrite Hmin, Hmax. split.
  - intros n -> Hn.
    replace ((- 2 ^ (fmt_bits f - 1) <=? n) && (n <=? 2 ^ (fmt_bits f - 1) - 1))
      with true by lia.
    reflexivity.
  - intros Hout. destruct (as_int v) as [n|]; [|reflexivity].
    specialize (Hout n eq_refl).
    replace ((- 2 ^ (fmt_bits f - 1) <=? n) && (n <=? 2 ^ (fmt_bits f - 1) - 1))
      with false by lia.
    reflexivity.
Qed.

(** X4.  Whatever the value, when [encode_value] returns on a
    fixed-width tag it returns exactly as many bytes as the tag is
    wide. *)
Theorem encode_length (t : DataType) (w : nat) (v : value datetime)
    (bs : list byte) :
  scalar_width t = Some w -> encode_value t v = Ok bs -> length bs = w.
Proof.
  intros Hw Henc.
  destruct t; try discriminate; injection Hw as <-;
    unfold encode_value, reinterpret, pack_f in Henc.
  all: repeat
    match type of Henc with
    | bind ?r _ = Ok _ =>
        let E := fresh "E" in
        destruct r eqn:E; cbn [bind] in Henc; [|discriminate]
    end.
  all: try (apply pack_int_length in Henc; exact Henc).
  destruct (is_infinity _ && _); [discriminate|].
  injection Henc as <-. reflexivity.
Qed.

(** X5.  On a fixed-width tag [decode_value] returns a value exactly
    when the buffer is as long as the tag is wide; on a buffer of any
    other length it raises [struct.error]. *)
Theorem decode_scalar_length (t : DataType) (w : nat) (data : list byte) :
  scalar_width t = Some w ->
  (length data = w ->
   exists v, decode_value fromtimestamp datetime_eq_dec t data = Ok v) /\
  (length data <> w ->
   decode_value fromtimestamp datetime_eq_dec t data = Raise StructError).
Proof.
  intros Hw.
  destruct t; try discriminate; injection Hw as <-;
    unfold decode_value, unpack_int, unpack_f; cbn [fmt_size];
    (split; intros Hlen;
     [ rewrite Hlen; cbn [Nat.eqb bind];
       try match goal with
           | |- context [if ?c then _ else _] => destruct c
           end;
       eexists; reflexivity
     | apply Nat.eqb_neq in Hlen; rewrite Hlen; reflexivity ]).
Qed.

(** X6.  A buffer of the width of an integer tag decodes to an integer
    within the range of the tag.  Encoding that integer with the same
    tag restores the buffer, except that on an unsigned tag an integer
    in the upper half of the range, which a buffer with its top bit set
    holds, is refused with [struct.error]. *)
Theorem decode_then_encode (t : DataType) (f : intfmt) (data : list byte) :
  wire_format t = Some f -> length data = fmt_size f ->
  exists n,
    decode_value fromtimestamp datetime_eq_dec t data = Ok (VInt n) /\
    fmt_min f <= n <= fmt_max f /\
    encode_value t (VInt n : value datetime)
    = if n <? 2 ^ (fmt_bits f - 1) then Ok data else Raise StructError.
Proof.
  intros Ht Hlen.
  rewrite (decode_integer fromtimestamp datetime_eq_dec t f _ Ht).
  destruct (unpack_int BigEndian f data) as [n|e] eqn:Hun.
  - exists n. cbn [bind]. split; [reflexivity|].
    destruct (unpack_int_range _ _ _ _ Hun) as (_ & Hn & Hmod).
    split; [exact Hn|].
    rewrite (encode_integer fromtimestamp datetime_eq_dec t f _ Ht).
    cbn [as_int].
    assert (Hmin : fmt_min (signed_of f) = - 2 ^ (fmt_bits f - 1))
      by (destruct f; reflexivity).
    assert (Hmax : fmt_max (signed_of f) = 2 ^ (fmt_bits f - 1) - 1)
      by (destruct f; reflexivity).
    destruct (pow2_bits_split f) as [Hsplit Hpos].
    assert (Hlow : - 2 ^ (fmt_bits f - 1) <= n).
    { revert Hn. unfold fmt_min. destruct (fmt_signed f); lia. }
    rewrite Hmin, Hmax.
    destruct (Z.ltb_spec n (2 ^ (fmt_bits f - 1))) as [Hlt|Hge].
    + replace ((- 2 ^ (fmt_bits f - 1) <=? n)
               && (n <=? 2 ^ (fmt_bits f - 1) - 1)) with true by lia.
      f_equal.
      transitivity (int_to_bytes BigEndian (length data)
                      (int_from_bytes BigEndian data));
        [|apply int_to_from_bytes].
      rewrite Hlen. apply int_to_bytes_congr.
      fold (fmt_bits f). rewrite Hmod.
      symmetry. apply Z.mod_small.
      pose proof (int_from_bytes_range BigEndian data) as Hu.
      rewrite Hlen in Hu. exact Hu.
    + replace ((- 2 ^ (fmt_bits f - 1) <=? n)
               && (n <=? 2 ^ (fmt_bits f - 1) - 1)) with false by lia.
      reflexivity.
  - exfalso. unfold unpack_int in Hun.
    rewrite Hlen, Nat.eqb_refl in Hun. discriminate.
Qed.

(** X7.  [encode_value] never raises on [BOOL]: whatever the value, a
    string or a table included, it returns the one byte 1 when the
    value differs from 0 and the one byte 0 otherwise.  Every one-byte
    buffer decodes to the truth value of its byte being non-zero, so
    decoding and encoding again normalises the byte to 0 or 1. *)
Theorem bool_normalises (v : value datetime) (b : byte) :
  encode_value BOOL v = Ok [if ne_zero v then x01 else x00] /\
  decode_value fromtimestamp datetime_eq_dec BOOL [b]
  = Ok (VBool (negb (byte_val b =? 0))) /\
  encode_value BOOL (VBool (negb (byte_val b =? 0)) : value datetime)
  = Ok [if byte_val b =? 0 then x00 else x01].
Proof.
  split; [|split].
  - unfold encode_value. destruct (ne_zero v); reflexivity.
  - unfold decode_value, unpack_int.
    cbn [length fmt_size Nat.eqb fmt_signed andb bind int_from_bytes rev app
         le_value].
    replace (byte_val b + 256 * 0) with (byte_val b) by lia.
    destruct (byte_val b =? 0); reflexivity.
  - unfold encode_value. destruct (byte_val b =? 0); reflexivity.
Qed.

End ScalarProperties.

Lemma signed_tag_round_trip_witness :
  wire_format INT16 = Some Fmt_h /\ fmt_signed Fmt_h = true /\
  fmt_min Fmt_h <= -2 <= fmt_max Fmt_h /\
  exists bs,
    encode_value INT16 (VInt (-2) : value utc_datetime) = Ok bs /\
    length bs = 2%nat /\
    decode_value utc_fromtimestamp utc_eq_dec INT16 bs = Ok (VInt (-2)).
Proof.
  assert (H : fmt_min Fmt_h <= -2 <= fmt_max Fmt_h) by (cbv; split; discriminate).
  repeat (split; [first [reflexivity | exact H]|]).
  exact (signed_tag_round_trip utc_fromtimestamp utc_eq_dec INT16 Fmt_h (-2)
           eq_refl eq_refl H).
Defined.

Lemma unsigned_tag_wraps_witness :
  wire_format UINT8 = Some Fmt_B /\ fmt_signed Fmt_B = false /\
  - 2 ^ (fmt_bits Fmt_B - 1) <= -1 < 2 ^ (fmt_bits Fmt_B - 1) /\
  exists bs,
    encode_value UINT8 (VInt (-1) : value utc_datetime) = Ok bs /\
    length bs = 1%nat /\
    decode_value utc_fromtimestamp utc_eq_dec UINT8 bs = Ok (VInt 255).
Proof.
  assert (H : - 2 ^ (fmt_bits Fmt_B - 1) <= -1 < 2 ^ (fmt_bits Fmt_B - 1))
    by (cbv; split; [discriminate|reflexivity]).
  repeat (split; [first [reflexivity | exact H]|]).
  exact (unsigned_tag_wraps utc_fromtimestamp utc_eq_dec UINT8 Fmt_B (-1)
           eq_refl eq_refl H).
Defined.

Lemma integer_encode_domain_witness :
  wire_format UINT32 = Some Fmt_I /\
  encode_value UINT32 (VBool true : value utc_datetime)
  = Ok [x00; x00; x00; x01] /\
  encode_value UINT32 (VInt 4294967295 : value utc_datetime)
  = Raise StructError.
Proof.
  split; [reflexivity|]. split.
  - apply (proj1 (integer_encode_domain utc_fromtimestamp utc_eq_dec UINT32
                    Fmt_I (VBool true) eq_refl) 1 eq_refl).
    cbv. split; [discriminate|reflexivity].
  - reflexivity.
Defined.

Lemma encode_length_witness :
  scalar_width FLOAT = Some 4%nat /\
  encode_value FLOAT (VInt 1 : value utc_datetime)
  = Ok [x3f; x80; x00; x00] /\
  length [x3f; x80; x00; x00] = 4%nat.
Proof.
  split; [reflexivity|]. split; [reflexivity|].
  exact (encode_length FLOAT 4 (VInt 1 : value utc_datetime)
           [x3f; x80; x00; x00] eq_refl eq_refl).
Defined.

Lemma decode_scalar_length_witness :
  scalar_width UINT16 = Some 2%nat /\
  (exists v, decode_value utc_fromtimestamp utc_eq_dec UINT16 [x01; x02]
             = Ok v) /\
  decode_value utc_fromtimestamp utc_eq_dec UINT16 [x01; x02; x03]
  = Raise StructError.
Proof.
  split; [reflexivity|]. split.
  - exact (proj1 (decode_scalar_length utc_fromtimestamp utc_eq_dec UINT16 2
                    [x01; x02] eq_refl) eq_refl).
  - apply (proj2 (decode_scalar_length utc_fromtimestamp utc_eq_dec UINT16 2
                    [x01; x02; x03] eq_refl)).
    discriminate.
Defined.

Lemma decode_then_encode_witness :
  wire_format UINT16 = Some Fmt_H /\ length [x80; x00] = fmt_size Fmt_H /\
  exists n,
    decode_value utc_fromtimestamp utc_eq_dec UINT16 [x80; x00]
    = Ok (VInt n) /\
    fmt_min Fmt_H <= n <= fmt_max Fmt_H /\
    encode_value UINT16 (VInt n : value utc_datetime)
    = if n <? 2 ^ (fmt_bits Fmt_H - 1) then Ok [x80; x00]
      else Raise StructError.
Proof.
  split; [reflexivity|]. split; [reflexivity|].
  exact (decode_then_encode utc_fromtimestamp utc_eq_dec UINT16 Fmt_H
           [x80; x00] eq_refl eq_refl).
Defined.

(** ** More facts on the checksum *)

Module MoreChecksumFacts.
Import Checksum ChecksumFacts.

Lemma pad_app_even (a b : list byte) :
  Nat.even (length a) = true -> pad (a ++ b) = a ++ pad b.
Proof.
  intros Ha.
  destruct (Nat.even (length b)) eqn:Hb.
  - rewrite (pad_even b Hb). apply pad_even.
    rewrite length_app, Nat.even_add, Ha, Hb. reflexivity.
  - assert (Hodd : Nat.odd (length b) = true)
      by (unfold Nat.odd; rewrite Hb; reflexivity).
    rewrite (pad_odd b Hodd), app_assoc. apply pad_odd.
    unfold Nat.odd. rewrite length_app, Nat.even_add, Ha, Hb. reflexivity.
Qed.

Lemma pad_length_even (data : list byte) :
  Nat.even (length (pad data)) = true.
Proof.
  destruct (Nat.even (length data)) eqn:He.
  - rewrite (pad_even data He). exact He.
  - assert (Hodd : Nat.odd (length data) = true)
      by (unfold Nat.odd; rewrite He; reflexivity).
    rewrite (pad_odd data Hodd), length_app, Nat.even_add, He. reflexivity.
Qed.

(** A round on an accumulator whose top bit is clear is a plain shift. *)
Lemma crc_bit_no_carry (a : Z) :
  0 <= a -> 2 * a < 2 ^ 16 -> crc_bit a = 2 * a.
Proof.
  intros Ha Hsmall. unfold crc_bit. cbv zeta.
  rewrite guard_is_carry by (unfold acc16; lia).
  rewrite Z.shiftl_mul_pow2 by lia. change (2 ^ 1) with 2.
  rewrite Z.shiftr_div_pow2 by lia.
  replace (a * 2 / 2 ^ 16) with 0 by (symmetry; apply Z.div_small; lia).
  cbn [Z.eqb negb]. lia.
Qed.

Lemma iter_crc_bit_no_carry (k : nat) (a : Z) :
  0 <= a -> a * 2 ^ Z.of_nat k < 2 ^ 16 ->
  Nat.iter k crc_bit a = a * 2 ^ Z.of_nat k.
Proof.
  intros Ha. induction k as [|k IH]; intros Hsmall.
  - cbn. lia.
  - rewrite Nat2Z.inj_succ, Z.pow_succ_r in * by lia.
    rewrite Nat.iter_succ, IH by lia.
    rewrite crc_bit_no_carry by nia. lia.
Qed.

(** XORing an accumulator with its own high byte leaves its low byte. *)
Lemma lxor_high_byte (c : Z) :
  0 <= c -> Z.lxor c (Z.shiftl (Z.shiftr c 8) 8) = c mod 2 ^ 8.
Proof.
  intros Hc. apply Z.bits_inj'. intros i Hi.
  rewrite Z.lxor_spec.
  destruct (Z_lt_le_dec i 8) as [Hlt|Hge].
  - rewrite Z.shiftl_spec_low, Z.mod_pow2_bits_low by lia.
    apply xorb_false_r.
  - rewrite Z.shiftl_spec, Z.shiftr_spec, Z.mod_pow2_bits_high by lia.
    replace (i - 8 + 8) with i by lia. apply xorb_nilpotent.
Qed.

(** Feeding an accumulator its high byte and then its low byte clears
    it. *)
Lemma crc_byte_own_bytes (c : Z) :
  acc16 c ->
  crc_byte (crc_byte c (byte_of_Z (Z.shiftr c 8))) (byte_of_Z c) = 0.
Proof.
  unfold acc16. intros Hc.
  assert (Hh : 0 <= Z.shiftr c 8 < 256).
  { rewrite Z.shiftr_div_pow2 by lia. lia_mod. }
  assert (Hl : 0 <= c mod 2 ^ 8 < 256) by (apply Z.mod_pos_bound; lia).
  unfold crc_byte at 2. cbv zeta.
  rewrite byte_val_of_Z, (Z.mod_small (Z.shiftr c 8)) by lia.
  rewrite lxor_high_byte by lia.
  rewrite (iter_crc_bit_no_carry 8) by (change (2 ^ Z.of_nat 8) with 256; lia).
  unfold crc_byte. cbv zeta.
  rewrite byte_val_of_Z, Z.shiftl_mul_pow2 by lia.
  change (2 ^ Z.of_nat 8) with (2 ^ 8). change 256 with (2 ^ 8).
  rewrite Z.lxor_nilpotent. reflexivity.
Qed.

(** A round is injective on 16-bit accumulators: the parity of its
    result tells whether the polynomial was applied. *)
Lemma crc_bit_parity (a : Z) :
  acc16 a -> Z.odd (crc_bit a) = negb (Z.shiftr (Z.shiftl a 1) 16 =? 0).
Proof.
  intros Ha. unfold crc_bit. cbv zeta.
  rewrite guard_is_carry by exact Ha.
  rewrite <- !Z.bit0_odd.
  destruct (Z.shiftr (Z.shiftl a 1) 16 =? 0); cbn [negb].
  - apply Z.shiftl_spec_low. lia.
  - rewrite Z.lxor_spec, Z.land_spec, Z.shiftl_spec_low by lia.
    reflexivity.
Qed.

Lemma crc_bit_inj (a a' : Z) :
  acc16 a -> acc16 a' -> crc_bit a = crc_bit a' -> a = a'.
Proof.
  intros Ha Ha' Heq.
  pose proof (crc_bit_parity a Ha) as Hp.
  pose proof (crc_bit_parity a' Ha') as Hp'.
  rewrite Heq, Hp' in Hp.
  revert Heq. unfold crc_bit. cbv zeta.
  rewrite !guard_is_carry by assumption.
  unfold acc16 in *.
  rewrite !Z.shiftl_mul_pow2, !Z.shiftr_div_pow2 in * by lia.
  change (2 ^ 1) with 2 in *.
  destruct (a * 2 / 2 ^ 16 =? 0) eqn:E; destruct (a' * 2 / 2 ^ 16 =? 0) eqn:E';
    cbn [negb] in *; try discriminate.
  - lia.
  - intros Heq. apply (f_equal (fun x => Z.lxor x polynom)) in Heq.
    rewrite !Z.lxor_assoc, !Z.lxor_nilpotent, !Z.lxor_0_r in Heq.
    change 0x0000FFFF with (Z.ones 16) in Heq.
    rewrite !Z.land_ones in Heq by lia.
    apply Z.eqb_neq in E, E'. lia_mod.
Qed.

Lemma iter_crc_bit_inj (k : nat) (a a' : Z) :
  acc16 a -> acc16 a' ->
  Nat.iter k crc_bit a = Nat.iter k crc_bit a' -> a = a'.
Proof.
  intros Ha Ha'. induction k as [|k IH]; intros Heq.
  - exact Heq.
  - rewrite !Nat.iter_succ in Heq.
    apply IH, crc_bit_inj; try apply iter_crc_bit_acc16; assumption.
Qed.

Lemma lxor_cancel_l (a b c : Z) : Z.lxor a b = Z.lxor a c -> b = c.
Proof.
  intros H. apply (f_equal (Z.lxor a)) in H.
  rewrite <- !Z.lxor_assoc, Z.lxor_nilpotent, !Z.lxor_0_l in H. exact H.
Qed.

Lemma lxor_cancel_r (a b c : Z) : Z.lxor b a = Z.lxor c a -> b = c.
Proof. rewrite !(Z.lxor_comm _ a). apply lxor_cancel_l. Qed.

(** A step of the outer loop is injective in the accumulator and in
    the byte. *)
Lemma crc_byte_inj_acc (a a' : Z) (b : byte) :
  acc16 a -> acc16 a' -> crc_byte a b = crc_byte a' b -> a = a'.
Proof.
  intros Ha Ha' Heq. unfold crc_byte in Heq. cbv zeta in Heq.
  apply iter_crc_bit_inj in Heq; try apply xor_byte_acc16; try assumption.
  apply lxor_cancel_r in Heq. exact Heq.
Qed.

Lemma crc_byte_inj_byte (a : Z) (b b' : byte) :
  acc16 a -> crc_byte a b = crc_byte a b' -> b = b'.
Proof.
  intros Ha Heq. unfold crc_byte in Heq. cbv zeta in Heq.
  apply iter_crc_bit_inj in Heq; try apply xor_byte_acc16; try assumption.
  apply lxor_cancel_l in Heq.
  rewrite !Z.shiftl_mul_pow2 in Heq by lia.
  assert (Hv : byte_val b = byte_val b') by lia.
  rewrite <- (byte_of_Z_val b), <- (byte_of_Z_val b'), Hv. reflexivity.
Qed.

Lemma fold_crc_byte_inj (buffer : list byte) (a a' : Z) :
  acc16 a -> acc16 a' ->
  fold_left crc_byte buffer a = fold_left crc_byte buffer a' -> a = a'.
Proof.
  revert a a'. induction buffer as [|b buffer IH]; intros a a' Ha Ha' Heq.
  - exact Heq.
  - cbn [fold_left] in Heq.
    apply IH in Heq; try apply crc_byte_acc16; try assumption.
    apply (crc_byte_inj_acc a a' b); assumption.
Qed.

(** Padding looks at the length only. *)
Lemma pad_substitute (pre post : list byte) (b b' : byte) :
  exists tail, pad (pre ++ b :: post) = pre ++ b :: tail /\
               pad (pre ++ b' :: post) = pre ++ b' :: tail.
Proof.
  unfold pad. rewrite !length_app. cbn [length].
  destruct (truthy _).
  - exists (post ++ [x00]). rewrite <- !app_assoc. split; reflexivity.
  - exists post. split; reflexivity.
Qed.

End MoreChecksumFacts.

(** ** The checksum *)

(** X8.  The checksum can be continued: after a prefix of even length
    the checksum of the whole input is obtained by running the loop
    over the padded rest, starting from the checksum of the prefix. *)
Theorem CRC16_continues (a b : list byte) :
  Nat.even (length a) = true ->
  Checksum.CRC16 (a ++ b)
  = fold_left Checksum.crc_byte (Checksum.pad b) (Checksum.CRC16 a).
Proof.
  intros Ha. unfold Checksum.CRC16. cbv zeta.
  rewrite (MoreChecksumFacts.pad_app_even a b Ha).
  rewrite (ChecksumFacts.pad_even a Ha).
  apply fold_left_app.
Qed.

Lemma CRC16_continues_witness :
  Nat.even (length [x01; x02]) = true /\
  Checksum.CRC16 ([x01; x02] ++ [x03])
  = fold_left Checksum.crc_byte [x03; x00] (Checksum.CRC16 [x01; x02]).
Proof.
  split; [reflexivity|].
  exact (CRC16_continues [x01; x02] [x03] eq_refl).
Defined.

(** X9.  The checksum of a message, appended to the padded message
    with its high byte first, brings the checksum of the whole to
    zero. *)
Theorem CRC16_residue (m : list byte) :
  Checksum.CRC16
    (Checksum.pad m
     ++ [byte_of_Z (Z.shiftr (Checksum.CRC16 m) 8);
         byte_of_Z (Checksum.CRC16 m)])
  = 0.
Proof.
  unfold Checksum.CRC16 at 1. cbv zeta.
  rewrite MoreChecksumFacts.pad_app_even
    by apply MoreChecksumFacts.pad_length_even.
  rewrite fold_left_app. fold (Checksum.CRC16 m).
  apply MoreChecksumFacts.crc_byte_own_bytes.
  apply ChecksumFacts.fold_crc_byte_acc16, ChecksumFacts.seed_acc16.
Qed.

(** X10.  The checksum tells apart any two inputs that differ in
    exactly one byte. *)
Theorem CRC16_detects_byte_substitution (pre post : list byte) (b b' : byte) :
  b <> b' ->
  Checksum.CRC16 (pre ++ b :: post) <> Checksum.CRC16 (pre ++ b' :: post).
Proof.
  intros Hne Heq. apply Hne.
  destruct (MoreChecksumFacts.pad_substitute pre post b b')
    as (tail & Hp & Hp').
  unfold Checksum.CRC16 in Heq. cbv zeta in Heq.
  rewrite Hp, Hp', !fold_left_app in Heq. cbn [fold_left] in Heq.
  assert (Hs : Checksum.acc16 (fold_left Checksum.crc_byte pre 0xFFFF))
    by apply ChecksumFacts.fold_crc_byte_acc16, ChecksumFacts.seed_acc16.
  apply MoreChecksumFacts.fold_crc_byte_inj in Heq;
    try apply ChecksumFacts.crc_byte_acc16; try exact Hs.
  apply (MoreChecksumFacts.crc_byte_inj_byte _ b b' Hs Heq).
Qed.

Lemma CRC16_detects_byte_substitution_witness :
  x01 <> x81 /\
  Checksum.CRC16 ([x2b] ++ x01 :: [x00; x05])
  <> Checksum.CRC16 ([x2b] ++ x81 :: [x00; x05]).
Proof.
  assert (H : x01 <> x81) by discriminate.
  split; [exact H|].
  exact (CRC16_detects_byte_substitution [x2b] [x00; x05] x01 x81 H).
Defined.

(** ** More facts on loops and dictionaries *)

(** A loop raises what the first iteration that raises does; the
    iterations after it are not run. *)
Lemma for_each_first_raise {S I : Type} (items : list I) (h : I -> Z)
    (body : Z -> S -> result S) (f : I -> S -> S) (bad : I -> bool)
    (err : I -> exception) (s : S) :
  (forall i s', In i items -> bad i = false -> body (h i) s' = Ok (f i s')) ->
  (forall i s', In i items -> bad i = true -> body (h i) s' = Raise (err i)) ->
  for_each (map h items) body s
  = match find bad items with
    | Some i => Raise (err i)
    | None => Ok (fold_left (fun s' i => f i s') items s)
    end.
Proof.
  revert s. induction items as [|i items IH]; intros s Hok Hbad.
  - reflexivity.
  - cbn [map for_each find fold_left].
    destruct (bad i) eqn:Hi.
    + rewrite Hbad by (try left; auto). reflexivity.
    + rewrite Hok by (try left; auto). cbn [bind].
      apply IH; intros j s' Hj; [apply Hok|apply Hbad]; right; exact Hj.
Qed.

Section MoreDictFacts.

Context {datetime : Type}.
Variable datetime_eq_dec : forall a b : datetime, {a = b} + {a <> b}.
Context {V : Type}.

Lemma fill_snoc {I : Type} (key : I -> datetime) (val : I -> V)
    (items : list I) (x : I) (d : dict datetime V) :
  fill datetime_eq_dec key val (items ++ [x]) d
  = dict_set datetime_eq_dec (key x) (val x)
      (fill datetime_eq_dec key val items d).
Proof. unfold fill. rewrite fold_left_app. reflexivity. Qed.

(** What a filled dictionary holds under a key is the value of the last
    item with that key. *)
Lemma dict_get_fill_inv {I : Type} (key : I -> datetime) (val : I -> V)
    (items : list I) (k : datetime) (v : V) :
  dict_get datetime_eq_dec k (fill datetime_eq_dec key val items []) = Some v ->
  exists before i after,
    items = before ++ i :: after /\ key i = k /\ val i = v /\
    forall j, In j after -> key j <> k.
Proof.
  induction items as [|x items IH] using rev_ind; intros Hget.
  - discriminate.
  - rewrite fill_snoc in Hget.
    destruct (datetime_eq_dec k (key x)) as [E|E].
    + subst k. rewrite dict_get_set_same in Hget. injection Hget as <-.
      exists items, x, []. repeat split; auto.
    + rewrite dict_get_set_other in Hget by exact E.
      destruct (IH Hget) as (before & i & after & -> & Hk & Hv & Hafter).
      exists before, i, (after ++ [x]).
      rewrite <- app_assoc. repeat split; auto.
      intros j Hj. apply in_app_or in Hj. destruct Hj as [Hj|[<-|[]]].
      * apply Hafter. exact Hj.
      * intros E'. apply E. symmetry. exact E'.
Qed.

Lemma dict_get_fill_none {I : Type} (key : I -> datetime) (val : I -> V)
    (items : list I) (k : datetime) :
  (forall j, In j items -> key j <> k) ->
  dict_get datetime_eq_dec k (fill datetime_eq_dec key val items []) = None.
Proof.
  intros H. rewrite dict_get_fill_other by exact H. reflexivity.
Qed.

(** Keys of a dictionary: an assignment adds at most one, and never a
    second copy. *)
Lemma dict_set_keys (k : datetime) (v : V) (d : dict datetime V) :
  map fst (dict_set datetime_eq_dec k v d)
  = if in_dec datetime_eq_dec k (map fst d)
    then map fst d else map fst d ++ [k].
Proof.
  induction d as [|[k' v'] d IH]; cbn [dict_set map fst].
  - destruct (in_dec datetime_eq_dec k []) as [[]|_]. reflexivity.
  - destruct (datetime_eq_dec k k') as [E|E]; cbn [map fst].
    + destruct (in_dec datetime_eq_dec k (k' :: map fst d)) as [_|N];
        [reflexivity|].
      exfalso. apply N. left. symmetry. exact E.
    + rewrite IH.
      destruct (in_dec datetime_eq_dec k (map fst d)) as [H|H];
        destruct (in_dec datetime_eq_dec k (k' :: map fst d)) as [H'|H'];
        try reflexivity.
      * exfalso. apply H'. right. exact H.
      * exfalso. destruct H' as [H'|H']; [apply E; symmetry; exact H'|auto].
Qed.

Lemma fill_keys_nodup {I : Type} (key : I -> datetime) (val : I -> V)
    (items : list I) :
  NoDup (map fst (fill datetime_eq_dec key val items [])).
Proof.
  induction items as [|x items IH] using rev_ind.
  - constructor.
  - rewrite fill_snoc, dict_set_keys.
    destruct (in_dec datetime_eq_dec (key x)
                (map fst (fill datetime_eq_dec key val items [])))
      as [H|H]; [exact IH|].
    apply NoDup_app; [exact IH|repeat constructor; intros []|].
    intros a Ha [<-|[]]. apply H. exact Ha.
Qed.

Lemma fill_keys_incl {I : Type} (key : I -> datetime) (val : I -> V)
    (items : list I) (k : datetime) :
  In k (map fst (fill datetime_eq_dec key val items []))
  <-> In k (map key items).
Proof.
  induction items as [|x items IH] using rev_ind.
  - reflexivity.
  - rewrite fill_snoc, dict_set_keys, map_app, in_app_iff. cbn [map In].
    destruct (in_dec datetime_eq_dec (key x)
                (map fst (fill datetime_eq_dec key val items [])))
      as [H|H].
    + rewrite IH. split; [auto|].
      intros [Hk|[<-|[]]]; [exact Hk|]. apply IH. exact H.
    + rewrite in_app_iff, IH. cbn [In]. reflexivity.
Qed.

Lemma fill_length_le {I : Type} (key : I -> datetime) (val : I -> V)
    (items : list I) :
  (length (fill datetime_eq_dec key val items []) <= length items)%nat.
Proof.
  induction items as [|x items IH] using rev_ind.
  - cbn. lia.
  - rewrite <- (length_map fst), fill_snoc, dict_set_keys, length_app.
    cbn [length].
    destruct (in_dec _ _ _); rewrite ?length_app, length_map; cbn [length]; lia.
Qed.

Lemma fill_length_nodup {I : Type} (key : I -> datetime) (val : I -> V)
    (items : list I) :
  NoDup (map key items) ->
  length (fill datetime_eq_dec key val items []) = length items.
Proof.
  induction items as [|x items IH] using rev_ind; intros Hnd.
  - reflexivity.
  - rewrite map_app in Hnd. cbn [map] in Hnd.
    apply NoDup_remove in Hnd. rewrite app_nil_r in Hnd.
    destruct Hnd as [Hnd Hx].
    rewrite <- (length_map fst), fill_snoc, dict_set_keys, length_app.
    cbn [length].
    destruct (in_dec _ _ _) as [H|H].
    + exfalso. apply Hx. apply fill_keys_incl in H. exact H.
    + rewrite length_app, length_map, (IH Hnd). reflexivity.
Qed.

End MoreDictFacts.

(** ** More facts on the composite decoders *)

Lemma seq_split_inv (a n i : nat) (before after : list nat) :
  seq a n = before ++ i :: after ->
  i = (a + length before)%nat /\ (i < a + n)%nat /\
  forall j, In j after <-> (i < j < a + n)%nat.
Proof.
  revert a n. induction before as [|b before IH]; intros a n H.
  - destruct n as [|n]; [discriminate|].
    cbn [seq app] in H. injection H as <- <-.
    split; [cbn; lia|]. split; [lia|].
    intros j. rewrite in_seq. lia.
  - destruct n as [|n]; [discriminate|].
    cbn [seq app] in H. injection H as _ H.
    destruct (IH _ _ H) as (Hi & Hlt & Hafter).
    split; [cbn [length]; lia|]. split; [lia|].
    intros j. rewrite Hafter. lia.
Qed.

Lemma dict_get_none_keys {datetime V : Type}
    (datetime_eq_dec : forall a b : datetime, {a = b} + {a <> b})
    (k : datetime) (d : dict datetime V) :
  dict_get datetime_eq_dec k d = None -> ~ In k (map fst d).
Proof.
  induction d as [|[k' v'] d IH]; cbn [dict_get map fst In].
  - intros _ [].
  - destruct (datetime_eq_dec k k') as [E|E]; [discriminate|].
    intros H [H'|H']; [apply E; symmetry; exact H'|exact (IH H H')].
Qed.

Lemma slice_app_l (a b : Z) (data s : list byte) :
  0 <= a -> b <= len data -> slice a b (data ++ s) = slice a b data.
Proof.
  unfold slice, len. intros Ha Hb.
  destruct (Z_le_gt_dec b a) as [Hle|Hgt].
  - replace (Z.to_nat (b - a)) with 0%nat by lia. reflexivity.
  - rewrite skipn_app, firstn_app, length_skipn.
    replace (Z.to_nat (b - a) - (length data - Z.to_nat a))%nat with 0%nat
      by lia.
    cbn [firstn]. apply app_nil_r.
Qed.

Lemma slice_app_r (data s : list byte) :
  slice (len data) (len data + len s) (data ++ s) = s.
Proof.
  unfold slice, len.
  rewrite skipn_app, Nat2Z.id, skipn_all, Nat.sub_diag. cbn [skipn app].
  replace (Z.to_nat (Z.of_nat (length data) + Z.of_nat (length s)
                     - Z.of_nat (length data))) with (length s) by lia.
  apply firstn_all.
Qed.

Section MoreCodecFacts.

Context {datetime : Type}.
Variable fromtimestamp : Z -> datetime.
Variable datetime_eq_dec : forall a b : datetime, {a = b} + {a <> b}.

(** The three ways in which the [TIMESERIES] branch ends. *)
Lemma decode_timeseries_cases (data : list byte) :
  decode_value fromtimestamp datetime_eq_dec TIMESERIES data
  = if len data <? 4 then Raise StructError
    else if timeseries_lengths_ok data
    then Ok (VTimeseries (fromtimestamp (word data 0))
               (timeseries_of fromtimestamp datetime_eq_dec data))
    else Raise AssertionError.
Proof.
  destruct (Z.ltb_spec (len data) 4) as [Hshort|Hlong].
  - unfold decode_value. rewrite unpack_anchor_short by exact Hshort.
    reflexivity.
  - destruct (timeseries_lengths_ok data) eqn:Hok.
    + apply decode_timeseries_ok; assumption.
    + unfold decode_value.
      rewrite (unpack_word 0 4 data) by lia. cbn [bind].
      unfold timeseries_lengths_ok in Hok.
      destruct (Z.eqb_spec (len data mod 4) 0) as [Hm4|Hm4];
        cbn [py_assert bind andb] in *; [|reflexivity].
      apply Z.eqb_neq in Hok.
      replace (len data / 4 mod 2 =? 1) with false; [reflexivity|].
      symmetry. apply Z.eqb_neq. lia_mod.
Qed.

(** The four ways in which the [EVENT_TABLE] branch ends. *)
Lemma decode_event_table_cases (data : list byte) :
  decode_value fromtimestamp datetime_eq_dec EVENT_TABLE data
  = if len data <? 4 then Raise StructError
    else if event_table_lengths_ok data then
      match first_bad_slot data with
      | Some i => Raise (entry_type_error (word (stride 20 data i) 0))
      | None =>
          Ok (VEventTable (fromtimestamp (word data 0))
                (event_table_of fromtimestamp datetime_eq_dec data))
      end
    else Raise AssertionError.
Proof.
  destruct (Z.ltb_spec (len data) 4) as [Hshort|Hlong].
  - unfold decode_value. rewrite unpack_anchor_short by exact Hshort.
    reflexivity.
  - destruct (event_table_lengths_ok data) eqn:Hok.
    + unfold event_table_lengths_ok in Hok.
      apply andb_true_iff in Hok. destruct Hok as [Hm4 Hm20].
      apply Z.eqb_eq in Hm4, Hm20.
      pose proof (event_table_length data Hlong Hm20) as Hsize.
      rewrite decode_event_table_loop by assumption.
      rewrite (for_each_first_raise _ _ _
                 (fun i => dict_set datetime_eq_dec
                             (slot_key fromtimestamp data i)
                             (slot_entry fromtimestamp data i))
                 (fun i => 128 <=? word (stride 20 data i) 0)
                 (fun i => entry_type_error (word (stride 20 data i) 0))).
      * unfold first_bad_slot.
        destruct (find _ _); reflexivity.
      * intros i s' Hi Hgood. apply in_seq in Hi.
        apply event_table_body_ascii; lia.
      * intros i s' Hi Hbad. apply in_seq in Hi.
        apply event_table_body_not_ascii; lia.
    + unfold decode_value.
      rewrite (unpack_word 0 4 data) by lia. cbn [bind].
      unfold event_table_lengths_ok in Hok.
      destruct (Z.eqb_spec (len data mod 4) 0) as [Hm4|Hm4];
        cbn [py_assert bind andb] in *; [|reflexivity].
      rewrite Hok. reflexivity.
Qed.

(** A table is returned exactly for the well-formed buffers. *)
Lemma decode_event_table_inv (data : list byte) (ts : datetime)
    (tabval : dict datetime (EventEntry datetime)) :
  decode_value fromtimestamp datetime_eq_dec EVENT_TABLE data
  = Ok (VEventTable ts tabval) ->
  4 <= len data /\ (len data - 4) mod 20 = 0 /\
  (forall i, (i < stride_count 20 data)%nat ->
             word (stride 20 data i) 0 < 128) /\
  ts = fromtimestamp (word data 0) /\
  tabval = event_table_of fromtimestamp datetime_eq_dec data.
Proof.
  rewrite decode_event_table_cases.
  destruct (Z.ltb_spec (len data) 4) as [|H4]; [discriminate|].
  destruct (event_table_lengths_ok data) eqn:Hok; [|discriminate].
  unfold first_bad_slot.
  destruct (find _ _) eqn:Hfind; [discriminate|].
  intros [= -> ->].
  unfold event_table_lengths_ok in Hok.
  apply andb_true_iff in Hok. destruct Hok as [_ Hm20].
  apply Z.eqb_eq in Hm20.
  repeat split; try assumption.
  intros i Hi.
  pose proof (find_none _ _ Hfind i) as Hgood. cbv beta in Hgood.
  rewrite in_seq in Hgood. specialize (Hgood ltac:(lia)). lia.
Qed.

Lemma decode_timeseries_inv (data : list byte) (ts : datetime)
    (tsval : dict datetime spec_float) :
  decode_value fromtimestamp datetime_eq_dec TIMESERIES data
  = Ok (VTimeseries ts tsval) ->
  4 <= len data /\ (len data - 4) mod 8 = 0 /\
  ts = fromtimestamp (word data 0) /\
  tsval = timeseries_of fromtimestamp datetime_eq_dec data.
Proof.
  rewrite decode_timeseries_cases.
  destruct (Z.ltb_spec (len data) 4) as [|H4]; [discriminate|].
  destruct (timeseries_lengths_ok data) eqn:Hok; [|discriminate].
  intros [= -> ->].
  unfold timeseries_lengths_ok in Hok.
  apply andb_true_iff in Hok. destruct Hok as [_ Hm8].
  apply Z.eqb_eq in Hm8. repeat split; assumption.
Qed.

End MoreCodecFacts.

(** ** More facts on slots *)

Lemma find_first {A : Type} (bad : A -> bool) (before after : list A)
    (x : A) :
  (forall y, In y before -> bad y = false) -> bad x = true ->
  find bad (before ++ x :: after) = Some x.
Proof.
  intros Hbefore Hx. induction before as [|y before IH]; cbn [app find].
  - rewrite Hx. reflexivity.
  - rewrite (Hbefore y (or_introl eq_refl)).
    apply IH. intros z Hz. apply Hbefore. right. exact Hz.
Qed.

Lemma seq_split (i n : nat) :
  (i < n)%nat -> seq 0 n = seq 0 i ++ i :: seq (S i) (n - S i).
Proof.
  intros Hi.
  change (i :: seq (S i) (n - S i)) with (seq i (S (n - S i))).
  rewrite <- seq_app. f_equal. lia.
Qed.

Lemma stride_app_l (w : Z) (data s : list byte) (i : nat) :
  0 <= w -> 4 + w * Z.of_nat i + w <= len data ->
  stride w (data ++ s) i = stride w data i.
Proof.
  intros Hw Hi. unfold stride. apply slice_app_l; lia.
Qed.

Lemma stride_app_r (w : Z) (data s : list byte) (n : nat) :
  len data = 4 + w * Z.of_nat n -> len s = w ->
  stride w (data ++ s) n = s.
Proof.
  intros Hlen Hs. unfold stride.
  rewrite <- Hlen, <- Hs. apply slice_app_r.
Qed.

Lemma stride_count_exact (w : Z) (data : list byte) (n : nat) :
  0 < w -> len data = 4 + w * Z.of_nat n -> stride_count w data = n.
Proof.
  intros Hw Hlen. unfold stride_count. rewrite Hlen.
  replace (4 + w * Z.of_nat n - 4) with (Z.of_nat n * w) by lia.
  rewrite Z.div_mul by lia. apply Nat2Z.id.
Qed.

Lemma len_app (data s : list byte) : len (data ++ s) = len data + len s.
Proof. unfold len. rewrite length_app. lia. Qed.

Lemma word_app_l (data s : list byte) (off : Z) :
  0 <= off -> off + 4 <= len data -> word (data ++ s) off = word data off.
Proof.
  intros Hoff Hlen. unfold word. rewrite slice_app_l by lia. reflexivity.
Qed.

Lemma composite_length (w : Z) (data : list byte) :
  0 < w -> 4 <= len data -> (len data - 4) mod w = 0 ->
  len data = 4 + w * Z.of_nat (stride_count w data).
Proof.
  intros Hw H4 Hmod. unfold stride_count.
  rewrite Z2Nat.id by (apply Z.div_pos; lia).
  pose proof (Z.div_mod (len data - 4) w). lia.
Qed.

Section AppendFacts.

Context {datetime : Type}.
Variable fromtimestamp : Z -> datetime.
Variable datetime_eq_dec : forall a b : datetime, {a = b} + {a <> b}.

Lemma timeseries_of_app (data s : list byte) :
  4 <= len data -> (len data - 4) mod 8 = 0 -> len s = 8 ->
  timeseries_of fromtimestamp datetime_eq_dec (data ++ s)
  = dict_set datetime_eq_dec (fromtimestamp (word s 0))
      (float32_of_bits (word s 4))
      (timeseries_of fromtimestamp datetime_eq_dec data).
Proof.
  intros H4 Hmod Hs.
  pose proof (composite_length 8 data ltac:(lia) H4 Hmod) as Hlen.
  set (n := stride_count 8 data) in *.
  unfold timeseries_of. fold n.
  rewrite (stride_count_exact 8 (data ++ s) (S n))
    by (try rewrite len_app; lia).
  rewrite seq_S, fill_snoc. cbn [Nat.add].
  rewrite (stride_app_r 8 data s n) by assumption.
  unfold layout_sample at 1 2. cbn [fst snd]. f_equal.
  apply fill_ext. intros i Hi. apply in_seq in Hi.
  rewrite stride_app_l by lia. split; reflexivity.
Qed.

Lemma event_table_of_app (data s : list byte) :
  4 <= len data -> (len data - 4) mod 20 = 0 -> len s = 20 ->
  event_table_of fromtimestamp datetime_eq_dec (data ++ s)
  = dict_set datetime_eq_dec (fromtimestamp (word s 4))
      (layout_entry fromtimestamp s)
      (event_table_of fromtimestamp datetime_eq_dec data).
Proof.
  intros H4 Hmod Hs.
  pose proof (composite_length 20 data ltac:(lia) H4 Hmod) as Hlen.
  set (n := stride_count 20 data) in *.
  unfold event_table_of. fold n.
  rewrite (stride_count_exact 20 (data ++ s) (S n))
    by (try rewrite len_app; lia).
  rewrite seq_S, fill_snoc. cbn [Nat.add].
  unfold slot_key at 1, slot_entry at 1.
  rewrite (stride_app_r 20 data s n) by assumption.
  f_equal.
  apply fill_ext. intros i Hi. apply in_seq in Hi.
  unfold slot_key, slot_entry.
  rewrite stride_app_l by lia. split; reflexivity.
Qed.

Lemma first_bad_slot_app (data s : list byte) :
  4 <= len data -> (len data - 4) mod 20 = 0 -> len s = 20 ->
  first_bad_slot data = None ->
  first_bad_slot (data ++ s)
  = if word s 0 <? 128 then None else Some (stride_count 20 data).
Proof.
  intros H4 Hmod Hs Hnone.
  pose proof (composite_length 20 data ltac:(lia) H4 Hmod) as Hlen.
  unfold first_bad_slot in *.
  set (n := stride_count 20 data) in *.
  rewrite (stride_count_exact 20 (data ++ s) (S n))
    by (try rewrite len_app; lia).
  rewrite seq_S. cbn [Nat.add].
  assert (Hgood : forall i, In i (seq 0 n) ->
            (128 <=? word (stride 20 (data ++ s) i) 0) = false).
  { intros i Hi. pose proof (find_none _ _ Hnone i Hi) as H.
    cbv beta in H. apply in_seq in Hi.
    rewrite stride_app_l by lia. exact H. }
  destruct (Z.ltb_spec (word s 0) 128) as [Hlt|Hge].
  - destruct (find _ (seq 0 n ++ [n])) as [i|] eqn:Hfind; [|reflexivity].
    exfalso. apply find_some in Hfind. destruct Hfind as [Hin Hbad].
    apply in_app_or in Hin. destruct Hin as [Hin|[<-|[]]].
    + rewrite (Hgood i Hin) in Hbad. discriminate.
    + rewrite (stride_app_r 20 data s n) in Hbad by assumption. lia.
  - apply find_first; [exact Hgood|].
    rewrite (stride_app_r 20 data s n) by assumption. lia.
Qed.

End AppendFacts.

(** ** The composite tags *)

Section CompositeProperties.

Context {datetime : Type}.
Variable fromtimestamp : Z -> datetime.
Variable datetime_eq_dec : forall a b : datetime, {a = b} + {a <> b}.

(** X11.  The [TIMESERIES] decoder raises [struct.error] on a buffer of
    fewer than four bytes and [AssertionError] on a longer buffer that
    breaks a length invariant; on every other buffer it returns the
    anchor and a mapping that holds, under each timestamp that some
    8-byte slot carries, the sample of the last such slot, and nothing
    under any other timestamp. *)
Theorem timeseries_decode_outcome (data : list byte) :
  (len data < 4 ->
   decode_value fromtimestamp datetime_eq_dec TIMESERIES data
   = Raise StructError) /\
  (4 <= len data -> timeseries_lengths_ok data = false ->
   decode_value fromtimestamp datetime_eq_dec TIMESERIES data
   = Raise AssertionError) /\
  (4 <= len data -> timeseries_lengths_ok data = true ->
   exists tsval,
     decode_value fromtimestamp datetime_eq_dec TIMESERIES data
     = Ok (VTimeseries (fromtimestamp (word data 0)) tsval) /\
     forall k,
       match dict_get datetime_eq_dec k tsval with
       | Some x =>
           exists i, (i < stride_count 8 data)%nat /\
             fromtimestamp (word (stride 8 data i) 0) = k /\
             x = float32_of_bits (word (stride 8 data i) 4) /\
             forall j, (i < j < stride_count 8 data)%nat ->
                       fromtimestamp (word (stride 8 data j) 0) <> k
       | None =>
           forall i, (i < stride_count 8 data)%nat ->
                     fromtimestamp (word (stride 8 data i) 0) <> k
       end).
Proof.
  rewrite decode_timeseries_cases.
  split; [|split].
  - intros H. replace (len data <? 4) with true by lia. reflexivity.
  - intros H Hbad. replace (len data <? 4) with false by lia.
    rewrite Hbad. reflexivity.
  - intros H Hok. replace (len data <? 4) with false by lia.
    rewrite Hok. eexists. split; [reflexivity|].
    intros k. unfold timeseries_of.
    destruct (dict_get _ _ _) as [x|] eqn:Hget.
    + apply dict_get_fill_inv in Hget.
      destruct Hget as (before & i & after & Hseq & Hk & Hx & Hafter).
      destruct (seq_split_inv _ _ _ _ _ Hseq) as (_ & Hi & Hin).
      exists i. unfold layout_sample in Hk, Hx. cbn [fst snd] in Hk, Hx.
      repeat split; auto; try lia.
      intros j Hj E. apply (Hafter j); [apply Hin; lia|].
      unfold layout_sample. cbn [fst]. exact E.
    + intros i Hi E.
      apply dict_get_none_keys in Hget. apply Hget.
      apply fill_keys_incl. apply in_map_iff. exists i.
      split; [exact E|]. apply in_seq. lia.
Qed.

(** X12.  The [EVENT_TABLE] decoder returns a table exactly on the
    well-formed buffers.  It raises [struct.error] on a buffer of fewer
    than four bytes and [AssertionError] on a longer buffer that breaks
    a length invariant; otherwise the first slot whose entry-type field
    is 128 or more decides: the decoder raises [UnicodeDecodeError]
    when that field is below 256 and [ValueError] when it is not. *)
Theorem event_table_decode_outcome (data : list byte) :
  ((exists v, decode_value fromtimestamp datetime_eq_dec EVENT_TABLE data
              = Ok v)
   <-> well_formed_event_table data = true) /\
  (len data < 4 ->
   decode_value fromtimestamp datetime_eq_dec EVENT_TABLE data
   = Raise StructError) /\
  (4 <= len data -> event_table_lengths_ok data = false ->
   decode_value fromtimestamp datetime_eq_dec EVENT_TABLE data
   = Raise AssertionError) /\
  (forall i,
     4 <= len data -> event_table_lengths_ok data = true ->
     (i < stride_count 20 data)%nat ->
     128 <= word (stride 20 data i) 0 ->
     (forall j, (j < i)%nat -> word (stride 20 data j) 0 < 128) ->
     decode_value fromtimestamp datetime_eq_dec EVENT_TABLE data
     = Raise (if word (stride 20 data i) 0 <? 256
              then UnicodeDecodeError else ValueError)).
Proof.
  split; [|split; [|split]].
  - split.
    + intros [v Hv].
      assert (Hwf : forall b, b = well_formed_event_table data -> b = true).
      { intros b ->. revert Hv. rewrite decode_event_table_cases.
        unfold well_formed_event_table, first_bad_slot.
        destruct (Z.ltb_spec (len data) 4); [discriminate|].
        destruct (event_table_lengths_ok data); [|discriminate].
        destruct (find _ _) eqn:Hfind; [discriminate|]. intros _.
        replace (4 <=? len data) with true by lia. cbn [andb].
        apply forallb_forall. intros i Hi.
        pose proof (find_none _ _ Hfind i Hi) as Hgood.
        cbv beta in Hgood. lia. }
      apply Hwf. reflexivity.
    + intros Hwf. eexists. apply decode_event_table_ok. exact Hwf.
  - intros H. rewrite decode_event_table_cases.
    replace (len data <? 4) with true by lia. reflexivity.
  - intros H Hbad. rewrite decode_event_table_cases.
    replace (len data <? 4) with false by lia.
    rewrite Hbad. reflexivity.
  - intros i H Hok Hi Hhigh Hfirst. rewrite decode_event_table_cases.
    replace (len data <? 4) with false by lia. rewrite Hok.
    unfold first_bad_slot. rewrite (seq_split i _ Hi).
    rewrite find_first.
    + reflexivity.
    + intros j Hj. apply in_seq in Hj.
      specialize (Hfirst j ltac:(lia)). lia.
    + lia.
Qed.

(** X13.  Every entry of a decoded event table is filed under its own
    timestamp.  Its entry type is one ASCII character and its message
    id an unsigned 32-bit integer; an entry of type ['s'] or ['w'] has
    an old and a new value, both unsigned 32-bit integers, and no end
    timestamp, and an entry of any other type has an end timestamp and
    neither an old nor a new value. *)
Theorem event_entry_invariants (data : list byte) (ts k : datetime)
    (tabval : dict datetime (EventEntry datetime)) (e : EventEntry datetime) :
  decode_value fromtimestamp datetime_eq_dec EVENT_TABLE data
  = Ok (VEventTable ts tabval) ->
  dict_get datetime_eq_dec k tabval = Some e ->
  timestamp e = k /\
  0 <= message_id e < 2 ^ 32 /\
  exists c,
    entry_type e = [c] /\ 0 <= c < 128 /\
    if is_s_or_w c then
      timestamp_end e = None /\
      exists old new,
        value_old e = Some old /\ value_new e = Some new /\
        0 <= old < 2 ^ 32 /\ 0 <= new < 2 ^ 32
    else
      (exists t, timestamp_end e = Some t) /\
      value_old e = None /\ value_new e = None.
Proof.
  intros Hdec Hget.
  destruct (decode_event_table_inv _ _ _ _ _ Hdec)
    as (H4 & Hmod & Hascii & _ & ->).
  pose proof (event_table_length data H4 Hmod) as Hlen.
  unfold event_table_of in Hget.
  apply dict_get_fill_inv in Hget.
  destruct Hget as (before & i & after & Hseq & Hk & He & _).
  destruct (seq_split_inv _ _ _ _ _ Hseq) as (_ & Hi & _).
  cbn [Nat.add] in Hi. specialize (Hascii i Hi).
  subst e k. unfold slot_entry, slot_key, layout_entry.
  rewrite !word_stride in * by lia.
  pose proof (word_range data (4 + 20 * Z.of_nat i + 0) ltac:(lia) ltac:(lia)).
  pose proof (word_range data (4 + 20 * Z.of_nat i + 8) ltac:(lia) ltac:(lia)).
  pose proof (word_range data (4 + 20 * Z.of_nat i + 12) ltac:(lia) ltac:(lia)).
  pose proof (word_range data (4 + 20 * Z.of_nat i + 16) ltac:(lia) ltac:(lia)).
  destruct (is_s_or_w (word data (4 + 20 * Z.of_nat i + 0))) eqn:Hsw;
    cbn [timestamp message_id entry_type timestamp_end value_old value_new].
  - split; [reflexivity|]. split; [assumption|].
    eexists. split; [reflexivity|]. split; [lia|]. rewrite Hsw.
    split; [reflexivity|]. do 2 eexists. repeat split; lia.
  - split; [reflexivity|]. split; [assumption|].
    eexists. split; [reflexivity|]. split; [lia|]. rewrite Hsw.
    split; [eexists; reflexivity|]. split; reflexivity.
Qed.

(** X14.  A decoded mapping holds each key once and has at most as many
    entries as the buffer has slots, and exactly as many when the
    timestamps of the slots are pairwise different as [datetime]
    objects; slots with equal timestamps are merged into one entry. *)
Theorem composite_mapping_size (data : list byte) (ts : datetime) :
  (forall tsval,
     decode_value fromtimestamp datetime_eq_dec TIMESERIES data
     = Ok (VTimeseries ts tsval) ->
     NoDup (map fst tsval) /\
     (length tsval <= stride_count 8 data)%nat /\
     (NoDup (map (fun i => fromtimestamp (word (stride 8 data i) 0))
               (seq 0 (stride_count 8 data))) ->
      length tsval = stride_count 8 data)) /\
  (forall tabval,
     decode_value fromtimestamp datetime_eq_dec EVENT_TABLE data
     = Ok (VEventTable ts tabval) ->
     NoDup (map fst tabval) /\
     (length tabval <= stride_count 20 data)%nat /\
     (NoDup (map (fun i => fromtimestamp (word (stride 20 data i) 4))
               (seq 0 (stride_count 20 data))) ->
      length tabval = stride_count 20 data)).
Proof.
  split.
  - intros tsval Hdec.
    destruct (decode_timeseries_inv _ _ _ _ _ Hdec) as (_ & _ & _ & ->).
    unfold timeseries_of. split; [apply fill_keys_nodup|]. split.
    + match goal with
      | |- (length (fill ?d ?key ?val ?items []) <= _)%nat =>
          pose proof (fill_length_le d key val items) as Hle
      end.
      rewrite length_seq in Hle. exact Hle.
    + intros Hnd.
      match goal with
      | |- length (fill ?d ?key ?val ?items []) = _ =>
          pose proof (fill_length_nodup d key val items) as Heq
      end.
      rewrite length_seq in Heq. apply Heq. exact Hnd.
  - intros tabval Hdec.
    destruct (decode_event_table_inv _ _ _ _ _ Hdec) as (_ & _ & _ & _ & ->).
    unfold event_table_of. split; [apply fill_keys_nodup|]. split.
    + match goal with
      | |- (length (fill ?d ?key ?val ?items []) <= _)%nat =>
          pose proof (fill_length_le d key val items) as Hle
      end.
      rewrite length_seq in Hle. exact Hle.
    + intros Hnd.
      match goal with
      | |- length (fill ?d ?key ?val ?items []) = _ =>
          pose proof (fill_length_nodup d key val items) as Heq
      end.
      rewrite length_seq in Heq. apply Heq. exact Hnd.
Qed.

(** X15.  Decoding is incremental on time series: when a buffer decodes,
    the buffer extended by one 8-byte slot decodes to the same anchor
    and to the mapping after the assignment of the sample of the slot
    to the timestamp of the slot. *)
Theorem timeseries_append (data s : list byte) (ts : datetime)
    (tsval : dict datetime spec_float) :
  decode_value fromtimestamp datetime_eq_dec TIMESERIES data
  = Ok (VTimeseries ts tsval) ->
  length s = 8%nat ->
  decode_value fromtimestamp datetime_eq_dec TIMESERIES (data ++ s)
  = Ok (VTimeseries ts
          (dict_set datetime_eq_dec (fromtimestamp (word s 0))
             (float32_of_bits (word s 4)) tsval)).
Proof.
  intros Hdec Hs.
  destruct (decode_timeseries_inv _ _ _ _ _ Hdec) as (H4 & Hmod & -> & ->).
  assert (Hs' : len s = 8) by (unfold len; lia).
  rewrite decode_timeseries_cases, len_app.
  replace (len data + len s <? 4) with false by lia.
  unfold timeseries_lengths_ok. rewrite len_app.
  replace (((len data + len s) mod 4 =? 0)
           && ((len data + len s - 4) mod 8 =? 0)) with true
    by (symmetry; apply andb_true_iff; split; apply Z.eqb_eq; lia_mod).
  rewrite word_app_l by lia.
  rewrite timeseries_of_app by assumption. reflexivity.
Qed.

(** X16.  Decoding is incremental on event tables: when a buffer
    decodes, the buffer extended by one 20-byte slot decodes to the
    same anchor and to the table after the assignment of the entry of
    the slot to the timestamp of the slot, provided the entry-type
    field of the slot is below 128; otherwise it raises the exception
    of that field. *)
Theorem event_table_append (data s : list byte) (ts : datetime)
    (tabval : dict datetime (EventEntry datetime)) :
  decode_value fromtimestamp datetime_eq_dec EVENT_TABLE data
  = Ok (VEventTable ts tabval) ->
  length s = 20%nat ->
  decode_value fromtimestamp datetime_eq_dec EVENT_TABLE (data ++ s)
  = if word s 0 <? 128 then
      Ok (VEventTable ts
            (dict_set datetime_eq_dec (fromtimestamp (word s 4))
               (layout_entry fromtimestamp s) tabval))
    else Raise (entry_type_error (word s 0)).
Proof.
  intros Hdec Hs.
  assert (Hnone : first_bad_slot data = None).
  { revert Hdec. rewrite decode_event_table_cases.
    destruct (len data <? 4); [discriminate|].
    destruct (event_table_lengths_ok data); [|discriminate].
    destruct (first_bad_slot data); [discriminate|reflexivity]. }
  destruct (decode_event_table_inv _ _ _ _ _ Hdec)
    as (H4 & Hmod & _ & -> & ->).
  assert (Hs' : len s = 20) by (unfold len; lia).
  pose proof (composite_length 20 data ltac:(lia) H4 Hmod) as Hlen.
  rewrite decode_event_table_cases, len_app.
  replace (len data + len s <? 4) with false by lia.
  unfold event_table_lengths_ok. rewrite len_app.
  replace (((len data + len s) mod 4 =? 0)
           && ((len data + len s - 4) mod 20 =? 0)) with true
    by (symmetry; apply andb_true_iff; split; apply Z.eqb_eq; lia_mod).
  rewrite first_bad_slot_app by assumption.
  destruct (word s 0 <? 128).
  - rewrite word_app_l by lia.
    rewrite event_table_of_app by assumption. reflexivity.
  - rewrite (stride_app_r 20 data s) by assumption. reflexivity.
Qed.

End CompositeProperties.

Lemma event_entry_invariants_witness :
  decode_value utc_fromtimestamp utc_eq_dec EVENT_TABLE sample_event_table
  = Ok (VEventTable 1
          [(1000, mkEventEntry 1000 5 str_s None (Some 10) (Some 20));
           (2000, mkEventEntry 2000 7 [99] (Some 3000) None None)]) /\
  dict_get utc_eq_dec 2000
    [(1000, mkEventEntry 1000 5 str_s None (Some 10) (Some 20));
     (2000, mkEventEntry 2000 7 [99] (Some 3000) None None)]
  = Some (mkEventEntry 2000 7 [99] (Some 3000) None None) /\
  timestamp (mkEventEntry (datetime := utc_datetime)
               2000 7 [99] (Some 3000) None None) = 2000.
Proof.
  split; [reflexivity|]. split; [reflexivity|].
  exact (proj1 (event_entry_invariants utc_fromtimestamp utc_eq_dec
                  sample_event_table 1 2000 _ _ eq_refl eq_refl)).
Defined.

(** Two slots with one timestamp leave one entry, that of the later
    slot. *)
Lemma composite_mapping_size_witness :
  decode_value utc_fromtimestamp utc_eq_dec EVENT_TABLE
    sample_event_table_merged
  = Ok (VEventTable 1 sample_merged_table) /\
  (length sample_merged_table
   <= stride_count 20 sample_event_table_merged)%nat.
Proof.
  split; [reflexivity|].
  exact (proj1 (proj2 (proj2 (composite_mapping_size utc_fromtimestamp
                                utc_eq_dec sample_event_table_merged 1)
                         _ eq_refl))).
Defined.

Lemma timeseries_append_witness :
  decode_value utc_fromtimestamp utc_eq_dec TIMESERIES [x00; x00; x00; x01]
  = Ok (VTimeseries 1 []) /\
  length sample_timeseries_slot = 8%nat /\
  decode_value utc_fromtimestamp utc_eq_dec TIMESERIES
    ([x00; x00; x00; x01] ++ sample_timeseries_slot)
  = Ok (VTimeseries 1 [(2, S754_finite false 14680064 (-22))]).
Proof.
  split; [reflexivity|]. split; [reflexivity|].
  exact (timeseries_append utc_fromtimestamp utc_eq_dec [x00; x00; x00; x01]
           sample_timeseries_slot 1 [] eq_refl eq_refl).
Defined.

Lemma event_table_append_witness :
  decode_value utc_fromtimestamp utc_eq_dec EVENT_TABLE sample_event_table
  = Ok (VEventTable 1
          [(1000, mkEventEntry 1000 5 str_s None (Some 10) (Some 20));
           (2000, mkEventEntry 2000 7 [99] (Some 3000) None None)]) /\
  length sample_event_slot = 20%nat /\
  decode_value utc_fromtimestamp utc_eq_dec EVENT_TABLE
    (sample_event_table ++ sample_event_slot)
  = Ok (VEventTable 1
          [(1000, mkEventEntry 1000 5 str_s None (Some 10) (Some 20));
           (2000, mkEventEntry 2000 7 [99] (Some 3000) None None);
           (4000, mkEventEntry 4000 9 str_w None (Some 1) (Some 2))]).
Proof.
  split; [reflexivity|]. split; [reflexivity|].
  exact (event_table_append utc_fromtimestamp utc_eq_dec sample_event_table
           sample_event_slot 1 _ eq_refl eq_refl).
Defined.

(** ** Facts on UTF-8 *)

(** Bits that do not overlap add up. *)
Lemma lor_disjoint (x y k : Z) :
  0 <= k -> 0 <= y < 2 ^ k -> Z.lor (x * 2 ^ k) y = x * 2 ^ k + y.
Proof.
  intros Hk Hy.
  assert (Hland : Z.land (x * 2 ^ k) y = 0).
  { apply Z.bits_inj'. intros i Hi.
    rewrite Z.land_spec, Z.bits_0.
    destruct (Z_lt_le_dec i k) as [Hlt|Hge].
    - rewrite Z.mul_pow2_bits_low by exact Hlt. reflexivity.
    - rewrite <- (Z.mod_small y (2 ^ k)) by exact Hy.
      rewrite Z.mod_pow2_bits_high by lia. apply andb_false_r. }
  rewrite <- Z.lxor_lor by exact Hland.
  symmetry. apply Z.add_nocarry_lxor. exact Hland.
Qed.

Lemma low6_val (b : byte) : low6 b = byte_val b mod 64.
Proof.
  unfold low6. change 0x3F with (Z.ones 6).
  rewrite Z.land_ones by lia. reflexivity.
Qed.

(** The value of a continuation byte. *)
Lemma cont_byte_val (x : Z) :
  byte_val (byte_of_Z (Z.lor 0x80 (Z.land x 0x3F))) = 128 + x mod 64.
Proof.
  rewrite byte_val_of_Z.
  change 0x3F with (Z.ones 6). rewrite Z.land_ones by lia.
  change (2 ^ 6) with 64.
  pose proof (Z.mod_pos_bound x 64 ltac:(lia)) as Hm.
  change (Z.lor 0x80 (x mod 64)) with (Z.lor (2 * 2 ^ 6) (x mod 64)).
  rewrite (lor_disjoint 2 (x mod 64) 6 ltac:(lia))
    by (change (2 ^ 6) with 64; lia).
  change (2 * 2 ^ 6) with 128. apply Z.mod_small. lia.
Qed.

(** The value of a leading byte: a marker above [k] payload bits. *)
Lemma lead_byte_val (marker q k : Z) :
  0 <= k -> 0 <= q < 2 ^ k -> 0 <= marker -> marker * 2 ^ k + q < 256 ->
  byte_val (byte_of_Z (Z.lor (marker * 2 ^ k) q)) = marker * 2 ^ k + q.
Proof.
  intros Hk Hq Hm Hsmall.
  rewrite byte_val_of_Z, lor_disjoint by assumption.
  apply Z.mod_small. nia.
Qed.

Lemma utf8_one_byte (c : Z) (rest : list byte) :
  0 <= c < 0x80 ->
  utf8_decode ([byte_of_Z c] ++ rest)
  = (tl <- utf8_decode rest ;; Ok (c :: tl)).
Proof.
  intros Hc.
  assert (Hb0 : byte_val (byte_of_Z c) = c)
    by (rewrite byte_val_of_Z; apply Z.mod_small; lia).
  set (b0 := byte_of_Z c) in *. clearbody b0.
  cbn [app utf8_decode]. rewrite Hb0.
  replace (c <? 0x80) with true by lia. reflexivity.
Qed.

Lemma utf8_two_bytes (c : Z) (rest : list byte) :
  0x80 <= c < 0x800 ->
  utf8_decode ([byte_of_Z (Z.lor 0xC0 (Z.shiftr c 6));
                byte_of_Z (Z.lor 0x80 (Z.land c 0x3F))] ++ rest)
  = (tl <- utf8_decode rest ;; Ok (c :: tl)).
Proof.
  intros Hc.
  assert (Hb0 : byte_val (byte_of_Z (Z.lor 0xC0 (Z.shiftr c 6)))
                = 192 + c / 64).
  { rewrite Z.shiftr_div_pow2 by lia. change (2 ^ 6) with 64.
    change (Z.lor 0xC0 (c / 64)) with (Z.lor (6 * 2 ^ 5) (c / 64)).
    rewrite (lead_byte_val 6 (c / 64) 5); change (2 ^ 5) with 32; lia_mod. }
  pose proof (cont_byte_val c) as Hb1.
  set (b0 := byte_of_Z (Z.lor 0xC0 _)) in *.
  set (b1 := byte_of_Z (Z.lor 0x80 _)) in *.
  clearbody b0 b1.
  cbn [app utf8_decode]. unfold in_range. rewrite !low6_val, Hb0, Hb1.
  replace (192 + c / 64 <? 0x80) with false by lia_mod.
  replace ((0xC2 <=? 192 + c / 64) && (192 + c / 64 <=? 0xDF)) with true
    by lia_mod.
  replace ((0x80 <=? 128 + c mod 64) && (128 + c mod 64 <=? 0xBF)) with true
    by lia_mod.
  replace (Z.lor (Z.shiftl (Z.land (192 + c / 64) 0x1F) 6)
             ((128 + c mod 64) mod 64)) with c; [reflexivity|].
  change 0x1F with (Z.ones 5). rewrite Z.land_ones, Z.shiftl_mul_pow2 by lia.
  rewrite lor_disjoint by (try apply Z.mod_pos_bound; lia).
  change (2 ^ 5) with 32. change (2 ^ 6) with 64. lia_mod.
Qed.

Lemma utf8_three_bytes (c : Z) (rest : list byte) :
  0x800 <= c < 0x10000 -> ~ 0xD800 <= c <= 0xDFFF ->
  utf8_decode ([byte_of_Z (Z.lor 0xE0 (Z.shiftr c 12));
                byte_of_Z (Z.lor 0x80 (Z.land (Z.shiftr c 6) 0x3F));
                byte_of_Z (Z.lor 0x80 (Z.land c 0x3F))] ++ rest)
  = (tl <- utf8_decode rest ;; Ok (c :: tl)).
Proof.
  intros Hc Hsur.
  assert (Hb0 : byte_val (byte_of_Z (Z.lor 0xE0 (Z.shiftr c 12)))
                = 224 + c / 4096).
  { rewrite Z.shiftr_div_pow2 by lia. change (2 ^ 12) with 4096.
    change (Z.lor 0xE0 (c / 4096)) with (Z.lor (14 * 2 ^ 4) (c / 4096)).
    rewrite (lead_byte_val 14 (c / 4096) 4); change (2 ^ 4) with 16; lia_mod. }
  pose proof (cont_byte_val (Z.shiftr c 6)) as Hb1.
  rewrite (Z.shiftr_div_pow2 c 6) in Hb1 at 2 by lia.
  change (2 ^ 6) with 64 in Hb1.
  pose proof (cont_byte_val c) as Hb2.
  set (b0 := byte_of_Z (Z.lor 0xE0 _)) in *.
  set (b1 := byte_of_Z (Z.lor 0x80 (Z.land (Z.shiftr c 6) _))) in *.
  set (b2 := byte_of_Z (Z.lor 0x80 (Z.land c _))) in *.
  clearbody b0 b1 b2.
  cbn [app utf8_decode]. unfold in_range. rewrite !low6_val, Hb0, Hb1, Hb2.
  replace (224 + c / 4096 <? 0x80) with false by lia_mod.
  replace ((0xC2 <=? 224 + c / 4096) && (224 + c / 4096 <=? 0xDF))
    with false by lia_mod.
  replace ((0xE0 <=? 224 + c / 4096) && (224 + c / 4096 <=? 0xEF))
    with true by lia_mod.
  replace (((if 224 + c / 4096 =? 0xE0 then 0xA0 else 0x80)
            <=? 128 + (c / 64) mod 64)
           && (128 + (c / 64) mod 64
               <=? (if 224 + c / 4096 =? 0xED then 0x9F else 0xBF))
           && ((0x80 <=? 128 + c mod 64) && (128 + c mod 64 <=? 0xBF)))
    with true
    by (destruct (Z.eqb_spec (224 + c / 4096) 0xE0);
        destruct (Z.eqb_spec (224 + c / 4096) 0xED); lia_mod).
  replace (Z.lor (Z.shiftl (Z.land (224 + c / 4096) 0x0F) 12)
             (Z.lor (Z.shiftl ((128 + (c / 64) mod 64) mod 64) 6)
                ((128 + c mod 64) mod 64))) with c; [reflexivity|].
  change 0x0F with (Z.ones 4).
  rewrite Z.land_ones, !Z.shiftl_mul_pow2 by lia.
  change (2 ^ 4) with 16. change (2 ^ 6) with 64. change (2 ^ 12) with 4096.
  rewrite (lor_disjoint _ _ 6 ltac:(lia))
    by (change (2 ^ 6) with 64; lia_mod).
  change 4096 with (2 ^ 12) at 2.
  rewrite (lor_disjoint _ _ 12 ltac:(lia))
    by (change (2 ^ 6) with 64; change (2 ^ 12) with 4096; lia_mod).
  change (2 ^ 6) with 64. change (2 ^ 12) with 4096. lia_mod.
Qed.

Lemma utf8_four_bytes (c : Z) (rest : list byte) :
  0x10000 <= c < 0x110000 ->
  utf8_decode ([byte_of_Z (Z.lor 0xF0 (Z.shiftr c 18));
                byte_of_Z (Z.lor 0x80 (Z.land (Z.shiftr c 12) 0x3F));
                byte_of_Z (Z.lor 0x80 (Z.land (Z.shiftr c 6) 0x3F));
                byte_of_Z (Z.lor 0x80 (Z.land c 0x3F))] ++ rest)
  = (tl <- utf8_decode rest ;; Ok (c :: tl)).
Proof.
  intros Hc.
  assert (Hb0 : byte_val (byte_of_Z (Z.lor 0xF0 (Z.shiftr c 18)))
                = 240 + c / 262144).
  { rewrite Z.shiftr_div_pow2 by lia. change (2 ^ 18) with 262144.
    change (Z.lor 0xF0 (c / 262144)) with (Z.lor (30 * 2 ^ 3) (c / 262144)).
    rewrite (lead_byte_val 30 (c / 262144) 3); change (2 ^ 3) with 8;
      lia_mod. }
  pose proof (cont_byte_val (Z.shiftr c 12)) as Hb1.
  rewrite (Z.shiftr_div_pow2 c 12) in Hb1 at 2 by lia.
  change (2 ^ 12) with 4096 in Hb1.
  pose proof (cont_byte_val (Z.shiftr c 6)) as Hb2.
  rewrite (Z.shiftr_div_pow2 c 6) in Hb2 at 2 by lia.
  change (2 ^ 6) with 64 in Hb2.
  pose proof (cont_byte_val c) as Hb3.
  set (b0 := byte_of_Z (Z.lor 0xF0 _)) in *.
  set (b1 := byte_of_Z (Z.lor 0x80 (Z.land (Z.shiftr c 12) _))) in *.
  set (b2 := byte_of_Z (Z.lor 0x80 (Z.land (Z.shiftr c 6) _))) in *.
  set (b3 := byte_of_Z (Z.lor 0x80 (Z.land c _))) in *.
  clearbody b0 b1 b2 b3.
  cbn [app utf8_decode]. unfold in_range.
  rewrite !low6_val, Hb0, Hb1, Hb2, Hb3.
  replace (240 + c / 262144 <? 0x80) with false by lia_mod.
  replace ((0xC2 <=? 240 + c / 262144) && (240 + c / 262144 <=? 0xDF))
    with false by lia_mod.
  replace ((0xE0 <=? 240 + c / 262144) && (240 + c / 262144 <=? 0xEF))
    with false by lia_mod.
  replace ((0xF0 <=? 240 + c / 262144) && (240 + c / 262144 <=? 0xF4))
    with true by lia_mod.
  replace (((if 240 + c / 262144 =? 0xF0 then 0x90 else 0x80)
            <=? 128 + (c / 4096) mod 64)
           && (128 + (c / 4096) mod 64
               <=? (if 240 + c / 262144 =? 0xF4 then 0x8F else 0xBF))
           && ((0x80 <=? 128 + (c / 64) mod 64)
               && (128 + (c / 64) mod 64 <=? 0xBF))
           && ((0x80 <=? 128 + c mod 64) && (128 + c mod 64 <=? 0xBF)))
    with true
    by (destruct (Z.eqb_spec (240 + c / 262144) 0xF0);
        destruct (Z.eqb_spec (240 + c / 262144) 0xF4); lia_mod).
  replace (Z.lor (Z.shiftl (Z.land (240 + c / 262144) 0x07) 18)
             (Z.lor (Z.shiftl ((128 + (c / 4096) mod 64) mod 64) 12)
                (Z.lor (Z.shiftl ((128 + (c / 64) mod 64) mod 64) 6)
                   ((128 + c mod 64) mod 64)))) with c; [reflexivity|].
  change 0x07 with (Z.ones 3).
  rewrite Z.land_ones, !Z.shiftl_mul_pow2 by lia.
  rewrite (lor_disjoint _ _ 6 ltac:(lia))
    by (change (2 ^ 6) with 64; lia_mod).
  rewrite (lor_disjoint _ _ 12 ltac:(lia))
    by (change (2 ^ 6) with 64; change (2 ^ 12) with 4096; lia_mod).
  rewrite (lor_disjoint _ _ 18 ltac:(lia))
    by (change (2 ^ 6) with 64; change (2 ^ 12) with 4096;
        change (2 ^ 18) with 262144; lia_mod).
  change (2 ^ 3) with 8. change (2 ^ 6) with 64.
  change (2 ^ 12) with 4096. change (2 ^ 18) with 262144. lia_mod.
Qed.

(** The encoding of a scalar value decodes to it, whatever follows. *)
Lemma utf8_encode_char_decode (c : Z) (rest : list byte) :
  is_scalar_value c = true ->
  exists bs,
    utf8_encode_char c = Ok bs /\
    utf8_decode (bs ++ rest) = (tl <- utf8_decode rest ;; Ok (c :: tl)).
Proof.
  unfold is_scalar_value. intros Hc.
  apply andb_true_iff in Hc. destruct Hc as [Hrange Hsur].
  apply andb_true_iff in Hrange. destruct Hrange as [Hlo Hhi].
  apply Z.leb_le in Hlo. apply Z.ltb_lt in Hhi.
  unfold utf8_encode_char. cbv zeta.
  destruct (Z.ltb_spec c 0x80) as [H1|H1].
  { eexists. split; [reflexivity|]. apply utf8_one_byte. lia. }
  destruct (Z.ltb_spec c 0x800) as [H2|H2].
  { eexists. split; [reflexivity|]. apply utf8_two_bytes. lia. }
  destruct ((0xD800 <=? c) && (c <=? 0xDFFF)) eqn:Hs; [discriminate|].
  assert (Hns : ~ 0xD800 <= c <= 0xDFFF).
  { intros [Ha Hb]. apply andb_false_iff in Hs. destruct Hs as [Hs|Hs].
    - apply Z.leb_gt in Hs. lia.
    - apply Z.leb_gt in Hs. lia. }
  destruct (Z.ltb_spec c 0x10000) as [H3|H3].
  { eexists. split; [reflexivity|]. apply utf8_three_bytes; [lia|exact Hns]. }
  eexists. split; [reflexivity|]. apply utf8_four_bytes. lia.
Qed.

Lemma utf8_round_trip (s : str) :
  forallb is_scalar_value s = true ->
  exists bs, utf8_encode s = Ok bs /\ utf8_decode bs = Ok s.
Proof.
  induction s as [|c s IH]; cbn [forallb utf8_encode].
  - intros _. exists []. split; reflexivity.
  - intros H. apply andb_true_iff in H. destruct H as [Hc Hs].
    destruct (IH Hs) as (tl & Henc & Hdec).
    destruct (utf8_encode_char_decode c tl Hc) as (bs & Hbs & Hd).
    exists (bs ++ tl). rewrite Hbs, Henc. cbn [bind].
    split; [reflexivity|]. rewrite Hd, Hdec. reflexivity.
Qed.

(** The encoder refuses the surrogates and nothing else. *)
Lemma utf8_encode_char_surrogate (c : Z) :
  is_surrogate c = true -> utf8_encode_char c = Raise UnicodeEncodeError.
Proof.
  unfold is_surrogate. intros H. unfold utf8_encode_char. cbv zeta.
  rewrite H.
  apply andb_true_iff in H. destruct H as [Ha Hb].
  apply Z.leb_le in Ha.
  replace (c <? 0x80) with false by lia.
  replace (c <? 0x800) with false by lia.
  reflexivity.
Qed.

Lemma utf8_encode_char_cases (c : Z) :
  utf8_encode_char c = Raise UnicodeEncodeError \/
  exists bs, utf8_encode_char c = Ok bs.
Proof.
  unfold utf8_encode_char. cbv zeta.
  destruct (c <? 0x80); [right; eexists; reflexivity|].
  destruct (c <? 0x800); [right; eexists; reflexivity|].
  destruct ((0xD800 <=? c) && (c <=? 0xDFFF)); [left; reflexivity|].
  destruct (c <? 0x10000); right; eexists; reflexivity.
Qed.

Lemma utf8_encode_surrogate (s : str) :
  existsb is_surrogate s = true -> utf8_encode s = Raise UnicodeEncodeError.
Proof.
  induction s as [|c s IH]; cbn [existsb utf8_encode]; [discriminate|].
  intros H. destruct (is_surrogate c) eqn:Hc.
  - rewrite utf8_encode_char_surrogate by exact Hc. reflexivity.
  - cbn [orb] in H.
    destruct (utf8_encode_char_cases c) as [->|[bs ->]]; [reflexivity|].
    cbn [bind]. rewrite (IH H). reflexivity.
Qed.

(** ** The tag [STRING] *)

Section StringProperties.

Context {datetime : Type}.
Variable fromtimestamp : Z -> datetime.
Variable datetime_eq_dec : forall a b : datetime, {a = b} + {a <> b}.

(** X17.  A [str] all of whose code points are Unicode scalar values
    (none is a surrogate) is encoded with [STRING], and the bytes decode
    with [STRING] to the same [str]. *)
Theorem string_round_trip (s : str) :
  forallb is_scalar_value s = true ->
  exists bs,
    encode_value STRING (VStr s : value datetime) = Ok bs /\
    decode_value fromtimestamp datetime_eq_dec STRING bs = Ok (VStr s).
Proof.
  intros Hs. destruct (utf8_round_trip s Hs) as (bs & Henc & Hdec).
  exists bs. unfold encode_value, decode_value.
  rewrite Henc, Hdec. split; reflexivity.
Qed.

(** X18.  With [STRING], [encode_value] returns a [bytes] value as it
    is, raises [UnicodeEncodeError] on a [str] that holds a surrogate,
    and raises [ValueError] on every value that is neither a [str] nor
    [bytes]. *)
Theorem string_encode_domain (v : value datetime) :
  (forall b, v = VBytes b -> encode_value STRING v = Ok b) /\
  (forall s, v = VStr s -> existsb is_surrogate s = true ->
             encode_value STRING v = Raise UnicodeEncodeError) /\
  ((forall b, v <> VBytes b) -> (forall s, v <> VStr s) ->
   encode_value STRING v = Raise ValueError).
Proof.
  split; [|split].
  - intros b ->. reflexivity.
  - intros s -> Hs. unfold encode_value. apply utf8_encode_surrogate, Hs.
  - intros Hb Hs. destruct v; try reflexivity.
    + exfalso. apply (Hs s). reflexivity.
    + exfalso. apply (Hb b). reflexivity.
Qed.

End StringProperties.

Lemma string_round_trip_witness :
  forallb is_scalar_value [0x20AC; 0x41; 0x1F600] = true /\
  exists bs,
    encode_value STRING (VStr [0x20AC; 0x41; 0x1F600] : value utc_datetime)
    = Ok bs /\
    decode_value utc_fromtimestamp utc_eq_dec STRING bs
    = Ok (VStr [0x20AC; 0x41; 0x1F600]).
Proof.
  split; [reflexivity|].
  exact (string_round_trip utc_fromtimestamp utc_eq_dec
           [0x20AC; 0x41; 0x1F600] eq_refl).
Defined.

(** *** From bytes back to bytes *)

Lemma lead_byte_of (L marker k x : Z) (b : byte) :
  L = marker * 2 ^ k -> 0 <= k -> 0 <= x < 2 ^ k -> byte_val b = L + x ->
  byte_of_Z (Z.lor L x) = b.
Proof.
  intros -> Hk Hx Hb.
  rewrite lor_disjoint by assumption.
  rewrite <- Hb. apply byte_of_Z_val.
Qed.

Lemma cont_byte_of (x : Z) (b : byte) :
  x mod 64 = byte_val b - 128 ->
  byte_of_Z (Z.lor 0x80 (Z.land x 0x3F)) = b.
Proof.
  intros Hx.
  change 0x3F with (Z.ones 6). rewrite Z.land_ones by lia.
  change (2 ^ 6) with 64.
  pose proof (Z.mod_pos_bound x 64 ltac:(lia)) as Hm.
  apply (lead_byte_of 0x80 2 6); [reflexivity|lia| |lia].
  change (2 ^ 6) with 64. lia.
Qed.

Lemma in_range_spec (lo hi : Z) (b : byte) :
  in_range lo hi b = true <-> lo <= byte_val b <= hi.
Proof. unfold in_range. rewrite andb_true_iff, !Z.leb_le. reflexivity. Qed.

(** The code points that the decoder assembles. *)
Lemma utf8_value_2 (v0 : Z) (b1 : byte) :
  Z.lor (Z.shiftl (Z.land v0 0x1F) 6) (low6 b1)
  = v0 mod 32 * 64 + byte_val b1 mod 64.
Proof.
  rewrite low6_val. change 0x1F with (Z.ones 5).
  rewrite Z.land_ones, Z.shiftl_mul_pow2 by lia.
  rewrite lor_disjoint by (try apply Z.mod_pos_bound; lia).
  reflexivity.
Qed.

Lemma utf8_value_3 (v0 : Z) (b1 b2 : byte) :
  Z.lor (Z.shiftl (Z.land v0 0x0F) 12)
    (Z.lor (Z.shiftl (low6 b1) 6) (low6 b2))
  = v0 mod 16 * 4096 + byte_val b1 mod 64 * 64 + byte_val b2 mod 64.
Proof.
  rewrite !low6_val. change 0x0F with (Z.ones 4).
  rewrite Z.land_ones, !Z.shiftl_mul_pow2 by lia.
  pose proof (Z.mod_pos_bound (byte_val b1) 64 ltac:(lia)).
  pose proof (Z.mod_pos_bound (byte_val b2) 64 ltac:(lia)).
  rewrite (lor_disjoint _ _ 6) by (change (2 ^ 6) with 64; lia).
  rewrite (lor_disjoint _ _ 12)
    by (change (2 ^ 6) with 64; change (2 ^ 12) with 4096; lia).
  change (2 ^ 4) with 16. change (2 ^ 6) with 64. change (2 ^ 12) with 4096.
  lia.
Qed.

Lemma utf8_value_4 (v0 : Z) (b1 b2 b3 : byte) :
  Z.lor (Z.shiftl (Z.land v0 0x07) 18)
    (Z.lor (Z.shiftl (low6 b1) 12)
       (Z.lor (Z.shiftl (low6 b2) 6) (low6 b3)))
  = v0 mod 8 * 262144 + byte_val b1 mod 64 * 4096
    + byte_val b2 mod 64 * 64 + byte_val b3 mod 64.
Proof.
  rewrite !low6_val. change 0x07 with (Z.ones 3).
  rewrite Z.land_ones, !Z.shiftl_mul_pow2 by lia.
  pose proof (Z.mod_pos_bound (byte_val b1) 64 ltac:(lia)).
  pose proof (Z.mod_pos_bound (byte_val b2) 64 ltac:(lia)).
  pose proof (Z.mod_pos_bound (byte_val b3) 64 ltac:(lia)).
  rewrite (lor_disjoint _ _ 6) by (change (2 ^ 6) with 64; lia).
  rewrite (lor_disjoint _ _ 12)
    by (change (2 ^ 6) with 64; change (2 ^ 12) with 4096; lia).
  rewrite (lor_disjoint _ _ 18)
    by (change (2 ^ 6) with 64; change (2 ^ 12) with 4096;
        change (2 ^ 18) with 262144; lia).
  change (2 ^ 3) with 8. change (2 ^ 6) with 64.
  change (2 ^ 12) with 4096. change (2 ^ 18) with 262144. lia.
Qed.

Lemma utf8_one_rev (b0 : byte) :
  byte_val b0 < 0x80 ->
  utf8_encode_char (byte_val b0) = Ok [b0] /\
  is_scalar_value (byte_val b0) = true.
Proof.
  intros H. pose proof (byte_val_range b0) as Hr.
  unfold utf8_encode_char, is_scalar_value. cbv zeta.
  replace (byte_val b0 <? 0x80) with true by lia.
  rewrite byte_of_Z_val. split; [reflexivity|]. lia.
Qed.

Lemma utf8_two_rev (b0 b1 : byte) (c : Z) :
  in_range 0xC2 0xDF b0 = true -> in_range 0x80 0xBF b1 = true ->
  c = Z.lor (Z.shiftl (Z.land (byte_val b0) 0x1F) 6) (low6 b1) ->
  utf8_encode_char c = Ok [b0; b1] /\ is_scalar_value c = true.
Proof.
  intros H0 H1 Hc.
  apply in_range_spec in H0, H1. rewrite utf8_value_2 in Hc.
  assert (Hv : c = (byte_val b0 - 192) * 64 + (byte_val b1 - 128))
    by lia_mod.
  clear Hc.
  unfold utf8_encode_char, is_scalar_value. cbv zeta.
  replace (c <? 0x80) with false by lia.
  replace (c <? 0x800) with true by lia.
  rewrite (lead_byte_of 0xC0 6 5 (Z.shiftr c 6) b0), (cont_byte_of c b1).
  - split; [reflexivity|]. lia.
  - lia_mod.
  - reflexivity.
  - lia.
  - rewrite Z.shiftr_div_pow2 by lia.
    change (2 ^ 6) with 64. change (2 ^ 5) with 32. lia_mod.
  - rewrite Z.shiftr_div_pow2 by lia. change (2 ^ 6) with 64. lia_mod.
Qed.

Lemma utf8_three_rev (b0 b1 b2 : byte) (c : Z) :
  in_range 0xE0 0xEF b0 = true ->
  in_range (if byte_val b0 =? 0xE0 then 0xA0 else 0x80)
    (if byte_val b0 =? 0xED then 0x9F else 0xBF) b1
  && in_range 0x80 0xBF b2 = true ->
  c = Z.lor (Z.shiftl (Z.land (byte_val b0) 0x0F) 12)
        (Z.lor (Z.shiftl (low6 b1) 6) (low6 b2)) ->
  utf8_encode_char c = Ok [b0; b1; b2] /\ is_scalar_value c = true.
Proof.
  intros H0 H12 Hc.
  apply andb_true_iff in H12. destruct H12 as [H1 H2].
  apply in_range_spec in H0, H1, H2. rewrite utf8_value_3 in Hc.
  assert (Hv : c = (byte_val b0 - 224) * 4096 + (byte_val b1 - 128) * 64
                   + (byte_val b2 - 128)).
  { destruct (byte_val b0 =? 0xE0), (byte_val b0 =? 0xED); lia_mod. }
  assert (Hlow : 0x800 <= c).
  { destruct (Z.eqb_spec (byte_val b0) 0xE0);
      destruct (byte_val b0 =? 0xED); lia. }
  assert (Hsur : c < 0xD800 \/ 0xDFFF < c).
  { destruct (byte_val b0 =? 0xE0);
      destruct (Z.eqb_spec (byte_val b0) 0xED); lia. }
  assert (Hb1 : 128 <= byte_val b1 <= 191)
    by (destruct (byte_val b0 =? 0xE0), (byte_val b0 =? 0xED); lia).
  clear Hc H1.
  unfold utf8_encode_char, is_scalar_value. cbv zeta.
  replace (c <? 0x80) with false by lia.
  replace (c <? 0x800) with false by lia.
  replace ((0xD800 <=? c) && (c <=? 0xDFFF)) with false by lia.
  replace (c <? 0x10000) with true by lia.
  rewrite (lead_byte_of 0xE0 14 4 (Z.shiftr c 12) b0),
    (cont_byte_of (Z.shiftr c 6) b1), (cont_byte_of c b2).
  - split; [reflexivity|]. lia.
  - lia_mod.
  - rewrite Z.shiftr_div_pow2 by lia. change (2 ^ 6) with 64. lia_mod.
  - reflexivity.
  - lia.
  - rewrite Z.shiftr_div_pow2 by lia.
    change (2 ^ 12) with 4096. change (2 ^ 4) with 16. lia_mod.
  - rewrite Z.shiftr_div_pow2 by lia. change (2 ^ 12) with 4096. lia_mod.
Qed.

Lemma utf8_four_rev (b0 b1 b2 b3 : byte) (c : Z) :
  in_range 0xF0 0xF4 b0 = true ->
  in_range (if byte_val b0 =? 0xF0 then 0x90 else 0x80)
    (if byte_val b0 =? 0xF4 then 0x8F else 0xBF) b1
  && in_range 0x80 0xBF b2 && in_range 0x80 0xBF b3 = true ->
  c = Z.lor (Z.shiftl (Z.land (byte_val b0) 0x07) 18)
        (Z.lor (Z.shiftl (low6 b1) 12)
           (Z.lor (Z.shiftl (low6 b2) 6) (low6 b3))) ->
  utf8_encode_char c = Ok [b0; b1; b2; b3] /\ is_scalar_value c = true.
Proof.
  intros H0 H123 Hc.
  apply andb_true_iff in H123. destruct H123 as [H12 H3].
  apply andb_true_iff in H12. destruct H12 as [H1 H2].
  apply in_range_spec in H0, H1, H2, H3. rewrite utf8_value_4 in Hc.
  assert (Hv : c = (byte_val b0 - 240) * 262144
                   + (byte_val b1 - 128) * 4096
                   + (byte_val b2 - 128) * 64 + (byte_val b3 - 128)).
  { destruct (byte_val b0 =? 0xF0), (byte_val b0 =? 0xF4); lia_mod. }
  assert (Hlow : 0x10000 <= c).
  { destruct (Z.eqb_spec (byte_val b0) 0xF0);
      destruct (byte_val b0 =? 0xF4); lia. }
  assert (Hhigh : c < 0x110000).
  { destruct (byte_val b0 =? 0xF0);
      destruct (Z.eqb_spec (byte_val b0) 0xF4); lia. }
  assert (Hb1 : 128 <= byte_val b1 <= 191)
    by (destruct (byte_val b0 =? 0xF0), (byte_val b0 =? 0xF4); lia).
  clear Hc H1.
  unfold utf8_encode_char, is_scalar_value. cbv zeta.
  replace (c <? 0x80) with false by lia.
  replace (c <? 0x800) with false by lia.
  replace ((0xD800 <=? c) && (c <=? 0xDFFF)) with false by lia.
  replace (c <? 0x10000) with false by lia.
  rewrite (lead_byte_of 0xF0 30 3 (Z.shiftr c 18) b0),
    (cont_byte_of (Z.shiftr c 12) b1), (cont_byte_of (Z.shiftr c 6) b2),
    (cont_byte_of c b3).
  - split; [reflexivity|]. lia.
  - lia_mod.
  - rewrite Z.shiftr_div_pow2 by lia. change (2 ^ 6) with 64. lia_mod.
  - rewrite Z.shiftr_div_pow2 by lia. change (2 ^ 12) with 4096. lia_mod.
  - reflexivity.
  - lia.
  - rewrite Z.shiftr_div_pow2 by lia.
    change (2 ^ 18) with 262144. change (2 ^ 3) with 8. lia_mod.
  - rewrite Z.shiftr_div_pow2 by lia. change (2 ^ 18) with 262144. lia_mod.
Qed.

(** Whatever the strict decoder accepts, the encoder writes back byte
    for byte, and every code point decoded is a scalar value. *)
Lemma utf8_decode_encode (n : nat) (data : list byte) (s : str) :
  (length data <= n)%nat ->
  utf8_decode data = Ok s ->
  utf8_encode s = Ok data /\ forallb is_scalar_value s = true.
Proof.
  revert data s. induction n as [|n IH]; intros data s Hlen Hdec.
  - destruct data; [|cbn in Hlen; lia].
    injection Hdec as <-. split; reflexivity.
  - destruct data as [|b0 r0]; [injection Hdec as <-; split; reflexivity|].
    cbn [utf8_decode] in Hdec. cbv zeta in Hdec.
    cbn [length] in Hlen.
    destruct (Z.ltb_spec (byte_val b0) 0x80) as [E1|E1].
    { destruct (utf8_decode r0) as [tl|] eqn:Htl; [|discriminate].
      injection Hdec as <-.
      destruct (IH r0 tl ltac:(lia) Htl) as [Henc Hsc].
      destruct (utf8_one_rev b0 E1) as [Hc Hv].
      cbn [utf8_encode forallb]. rewrite Hc, Henc, Hv, Hsc.
      split; reflexivity. }
    destruct (in_range 0xC2 0xDF b0) eqn:E2.
    { destruct r0 as [|b1 r1]; [discriminate|].
      destruct (in_range 0x80 0xBF b1) eqn:E3; [|discriminate].
      destruct (utf8_decode r1) as [tl|] eqn:Htl; [|discriminate].
      injection Hdec as <-. cbn [length] in Hlen.
      destruct (IH r1 tl ltac:(lia) Htl) as [Henc Hsc].
      match goal with
      | |- context [?cp :: tl] => remember cp as c eqn:Ec
      end.
      destruct (utf8_two_rev b0 b1 c E2 E3 Ec) as [Hc Hv].
      cbn [utf8_encode forallb]. rewrite Hc, Henc, Hv, Hsc.
      split; reflexivity. }
    destruct (in_range 0xE0 0xEF b0) eqn:E3.
    { destruct r0 as [|b1 [|b2 r2]]; try discriminate.
      match type of Hdec with
      | (if ?c then _ else _) = _ => destruct c eqn:E4; [|discriminate]
      end.
      destruct (utf8_decode r2) as [tl|] eqn:Htl; [|discriminate].
      injection Hdec as <-. cbn [length] in Hlen.
      destruct (IH r2 tl ltac:(lia) Htl) as [Henc Hsc].
      match goal with
      | |- context [?cp :: tl] => remember cp as c eqn:Ec
      end.
      destruct (utf8_three_rev b0 b1 b2 c E3 E4 Ec) as [Hc Hv].
      cbn [utf8_encode forallb]. rewrite Hc, Henc, Hv, Hsc.
      split; reflexivity. }
    destruct (in_range 0xF0 0xF4 b0) eqn:E4; [|discriminate].
    destruct r0 as [|b1 [|b2 [|b3 r3]]]; try discriminate.
    match type of Hdec with
    | (if ?c then _ else _) = _ => destruct c eqn:E5; [|discriminate]
    end.
    destruct (utf8_decode r3) as [tl|] eqn:Htl; [|discriminate].
    injection Hdec as <-. cbn [length] in Hlen.
    destruct (IH r3 tl ltac:(lia) Htl) as [Henc Hsc].
    match goal with
    | |- context [?cp :: tl] => remember cp as c eqn:Ec
    end.
    destruct (utf8_four_rev b0 b1 b2 b3 c E4 E5 Ec) as [Hc Hv].
    cbn [utf8_encode forallb]. rewrite Hc, Henc, Hv, Hsc.
    split; reflexivity.
Qed.

(** Bytes below 128 decode one by one. *)
Lemma utf8_decode_ascii (data : list byte) :
  forallb (fun b => byte_val b <? 128) data = true ->
  utf8_decode data = Ok (map byte_val data).
Proof.
  induction data as [|b data IH]; cbn [forallb utf8_decode map].
  - reflexivity.
  - intros H. apply andb_true_iff in H. destruct H as [Hb Hrest].
    cbv zeta. change 0x80 with 128. rewrite Hb, (IH Hrest). reflexivity.
Qed.

Section MoreStringProperties.

Context {datetime : Type}.
Variable fromtimestamp : Z -> datetime.
Variable datetime_eq_dec : forall a b : datetime, {a = b} + {a <> b}.

(** X19.  Whenever [decode_value] returns for [STRING], it returns a
    [str] without surrogates, and encoding this [str] with [STRING]
    restores the buffer byte for byte. *)
Theorem string_decode_then_encode (data : list byte) (v : value datetime) :
  decode_value fromtimestamp datetime_eq_dec STRING data = Ok v ->
  exists s,
    v = VStr s /\ forallb is_scalar_value s = true /\
    encode_value STRING v = Ok data.
Proof.
  unfold decode_value. intros Hdec.
  destruct (utf8_decode data) as [s|] eqn:Hs; [|discriminate].
  injection Hdec as <-.
  destruct (utf8_decode_encode (length data) data s (le_n _) Hs)
    as [Henc Hsc].
  exists s. split; [reflexivity|]. split; [exact Hsc|exact Henc].
Qed.

(** X20.  A buffer all of whose bytes are below 128 always decodes with
    [STRING], to the [str] of the characters with these codes; in
    particular the empty buffer decodes to the empty [str]. *)
Theorem string_decode_ascii (data : list byte) :
  forallb (fun b => byte_val b <? 128) data = true ->
  decode_value fromtimestamp datetime_eq_dec STRING data
  = Ok (VStr (map byte_val data)).
Proof.
  intros H. unfold decode_value. rewrite (utf8_decode_ascii data H).
  reflexivity.
Qed.

End MoreStringProperties.

Lemma string_decode_then_encode_witness :
  decode_value utc_fromtimestamp utc_eq_dec STRING
    [xe2; x82; xac; x41; xf0; x9f; x98; x80]
  = Ok (VStr [0x20AC; 0x41; 0x1F600]) /\
  encode_value STRING (VStr [0x20AC; 0x41; 0x1F600] : value utc_datetime)
  = Ok [xe2; x82; xac; x41; xf0; x9f; x98; x80].
Proof.
  split; [reflexivity|].
  destruct (string_decode_then_encode utc_fromtimestamp utc_eq_dec
              [xe2; x82; xac; x41; xf0; x9f; x98; x80]
              (VStr [0x20AC; 0x41; 0x1F600]) eq_refl)
    as (s & Hs & _ & Henc).
  exact Henc.
Defined.

Lemma string_decode_ascii_witness :
  forallb (fun b => byte_val b <? 128) [x52; x43; x54] = true /\
  decode_value utc_fromtimestamp utc_eq_dec STRING [x52; x43; x54]
  = Ok (VStr [82; 67; 84]).
Proof.
  split; [reflexivity|].
  exact (string_decode_ascii utc_fromtimestamp utc_eq_dec [x52; x43; x54]
           eq_refl).
Defined.

(** ** The unsigned encoders *)

(** What [encode_value] returns on an integer tag, without reference to
    the decoder. *)
Lemma encode_integer_alone {datetime : Type} (t : DataType) (f : intfmt)
    (v : value datetime) :
  wire_format t = Some f ->
  encode_value t v
  = match as_int v with
    | Some n =>
        if (fmt_min (signed_of f) <=? n) && (n <=? fmt_max (signed_of f))
        then Ok (int_to_bytes BigEndian (fmt_size f) n)
        else Raise StructError
    | None => Raise StructError
    end.
Proof.
  intros Ht.
  destruct t; try discriminate; injection Ht as <-;
    unfold encode_value, reinterpret, pack_int, unpack_int;
    destruct (as_int v) as [n|]; try reflexivity;
    cbn [fmt_signed fmt_size signed_of andb];
    match goal with
    | |- context [if ?c then _ else _] => destruct c; [|reflexivity]
    end;
    cbn [bind]; rewrite int_to_bytes_length; cbn [Nat.eqb bind as_int];
    rewrite int_from_to_bytes;
    match goal with
    | |- context [fmt_min ?g <=? ?m mod ?B] =>
        pose proof (Z.mod_pos_bound m B ltac:(cbv; reflexivity)) as Hm;
        replace ((fmt_min g <=? m mod B) && (m mod B <=? fmt_max g))
          with true
          by (symmetry; apply andb_true_iff;
              split; apply Z.leb_le; revert Hm;
              cbv [fmt_min fmt_max fmt_signed fmt_bits fmt_size]; cbn; lia)
    end;
    f_equal; apply int_to_bytes_congr; apply Z.mod_mod;
    cbv; discriminate.
Qed.

(** X21.  The detour of the unsigned tags through the signed format
    changes nothing: on every value, [encode_value] with [UINT8],
    [UINT16], [ENUM] or [UINT32] returns or raises exactly what it does
    with the signed tag of the same width. *)
Theorem unsigned_encoder_is_signed_encoder (datetime : Type)
    (v : value datetime) :
  encode_value UINT8 v = encode_value INT8 v /\
  encode_value UINT16 v = encode_value INT16 v /\
  encode_value ENUM v = encode_value INT16 v /\
  encode_value UINT32 v = encode_value INT32 v.
Proof.
  rewrite (encode_integer_alone UINT8 Fmt_B v eq_refl).
  rewrite (encode_integer_alone INT8 Fmt_b v eq_refl).
  rewrite (encode_integer_alone UINT16 Fmt_H v eq_refl).
  rewrite (encode_integer_alone ENUM Fmt_H v eq_refl).
  rewrite (encode_integer_alone INT16 Fmt_h v eq_refl).
  rewrite (encode_integer_alone UINT32 Fmt_I v eq_refl).
  rewrite (encode_integer_alone INT32 Fmt_i v eq_refl).
  repeat split.
Qed.

(** ** Facts on single precision floats *)

Lemma digits2_pos_size (p : positive) : digits2_pos p = Pos.size p.
Proof. induction p as [p IH|p IH|]; cbn; rewrite ?IH; reflexivity. Qed.

Lemma digits2_pos_bounds (p : positive) :
  2 ^ (Zpos (digits2_pos p) - 1) <= Zpos p < 2 ^ Zpos (digits2_pos p).
Proof.
  rewrite digits2_pos_size.
  pose proof (Pos.size_gt p) as Hgt. pose proof (Pos.size_le p) as Hle.
  apply Pos2Z.pos_lt_pos in Hgt. apply Pos2Z.pos_le_pos in Hle.
  rewrite Pos2Z.inj_pow in Hgt, Hle.
  rewrite (Pos2Z.inj_xO p) in Hle.
  replace (Zpos (Pos.size p)) with (Z.succ (Zpos (Pos.size p) - 1)) in Hle
    by lia.
  rewrite Z.pow_succ_r in Hle by lia.
  lia.
Qed.

Lemma digits2_pos_exact (p : positive) (d : Z) :
  0 < d -> 2 ^ (d - 1) <= Zpos p < 2 ^ d -> Zpos (digits2_pos p) = d.
Proof.
  intros Hd Hp. pose proof (digits2_pos_bounds p) as Hb.
  set (n := Zpos (digits2_pos p)) in *.
  assert (0 < n) by (unfold n; lia).
  destruct (Z.lt_trichotomy n d) as [Hlt|[Heq|Hgt]]; [|exact Heq|].
  - pose proof (Z.pow_le_mono_r 2 n (d - 1) ltac:(lia) ltac:(lia)). lia.
  - pose proof (Z.pow_le_mono_r 2 d (n - 1) ltac:(lia) ltac:(lia)). lia.
Qed.

(** A float that is a binary32 number already converts to itself. *)
Lemma to_single_canonical (s : bool) (m : positive) (e : Z) :
  Z.max (Zpos (digits2_pos m) + e - 24) (-149) = e -> e <= 104 ->
  to_single (S754_finite s m e) = S754_finite s m e.
Proof.
  intros Hcanon Hbound.
  assert (Hf : fexp 24 128 (Zpos (digits2_pos m) + e) = e)
    by (unfold fexp, emin; exact Hcanon).
  unfold to_single, binary_round. rewrite Hf.
  unfold shl_align. rewrite Z.sub_diag.
  unfold binary_round_aux, shr_fexp. cbn [Zdigits2].
  rewrite Hf, Z.sub_diag.
  cbn [shr shr_record_of_loc shr_m loc_of_shr_record round_nearest_even
       Zdigits2].
  rewrite Hf, Z.sub_diag. cbn [shr shr_m].
  replace (e <=? 128 - 24) with true by lia. reflexivity.
Qed.

Lemma sign_bit_testbit (u : Z) :
  0 <= u < 2 ^ 32 -> sign_bit (Z.testbit u 31) = u / 2 ^ 31 * 2 ^ 31.
Proof.
  intros Hu. rewrite Z.testbit_odd, Z.shiftr_div_pow2 by lia.
  change (2 ^ 32) with 4294967296 in Hu. change (2 ^ 31) with 2147483648.
  assert (H : u / 2147483648 = 0 \/ u / 2147483648 = 1) by lia_mod.
  destruct H as [-> | ->]; reflexivity.
Qed.

(** The bits of a binary32 number that is not a NaN denote a float that
    converts to itself and has these bits. *)
Lemma float32_bits_round_trip (u : Z) :
  0 <= u < 2 ^ 32 -> is_nan_bits u = false ->
  to_single (float32_of_bits u) = float32_of_bits u /\
  bits_of_float32 (float32_of_bits u) = u.
Proof.
  intros Hu Hnan. pose proof (sign_bit_testbit u Hu) as Hs.
  unfold is_nan_bits in Hnan. unfold float32_of_bits. cbv zeta.
  change 0xFF with (Z.ones 8) in *. change 0x7FFFFF with (Z.ones 23) in *.
  rewrite !Z.land_ones, !Z.shiftr_div_pow2 in * by lia.
  change (Z.ones 8) with 255 in *.
  change (2 ^ 32) with 4294967296 in *. change (2 ^ 31) with 2147483648 in *.
  change (2 ^ 23) with 8388608 in *. change (2 ^ 8) with 256 in *.
  assert (HE : 0 <= (u / 8388608) mod 256 < 256) by lia_mod.
  assert (Hm : 0 <= u mod 8388608 < 8388608) by lia_mod.
  assert (Hdec : u = u / 2147483648 * 2147483648
                     + (u / 8388608) mod 256 * 8388608 + u mod 8388608)
    by lia_mod.
  set (E := (u / 8388608) mod 256) in *.
  set (mant := u mod 8388608) in *.
  set (sgn := Z.testbit u 31) in *.
  clearbody E mant sgn.
  destruct (Z.eqb_spec E 0) as [HE0|HE0].
  - destruct mant as [|p|p] eqn:Hmant.
    + split; [reflexivity|]. cbn [bits_of_float32]. lia.
    + assert (Hd : Zpos (digits2_pos p) <= 23).
      { pose proof (digits2_pos_bounds p) as Hb.
        destruct (Z_le_gt_dec (Zpos (digits2_pos p)) 23) as [|Hgt];
          [assumption|].
        pose proof (Z.pow_le_mono_r 2 23 (Zpos (digits2_pos p) - 1)
                      ltac:(lia) ltac:(lia)) as Hpow.
        change (2 ^ 23) with 8388608 in Hpow. lia. }
      split.
      * apply to_single_canonical; lia.
      * cbn [bits_of_float32]. change (2 ^ 23) with 8388608.
        replace (Z.pos p <? 8388608) with true by lia. lia.
    + lia.
  - destruct (Z.eqb_spec E 255) as [HE255|HE255].
    + cbn [andb negb] in Hnan. apply negb_false_iff in Hnan.
      rewrite Hnan. apply Z.eqb_eq in Hnan.
      split; [reflexivity|]. cbn [bits_of_float32]. lia.
    + destruct (mant + 8388608) as [|p|p] eqn:Hp; try lia.
      assert (Hd : Zpos (digits2_pos p) = 24).
      { apply digits2_pos_exact; [lia|].
        change (2 ^ (24 - 1)) with 8388608. change (2 ^ 24) with 16777216.
        lia. }
      split.
      * apply to_single_canonical; lia.
      * cbn [bits_of_float32]. change (2 ^ 23) with 8388608.
        replace (Z.pos p <? 8388608) with false by lia. lia.
Qed.

Section FloatProperties.

Context {datetime : Type}.
Variable fromtimestamp : Z -> datetime.
Variable datetime_eq_dec : forall a b : datetime, {a = b} + {a <> b}.

(** X22.  Every four-byte buffer decodes with [FLOAT], and unless its
    bits denote a NaN, encoding the decoded float with [FLOAT] restores
    the buffer bit for bit: zeros of either sign, subnormal numbers and
    infinities included. *)
Theorem float_decode_then_encode (data : list byte) :
  length data = 4%nat ->
  is_nan_bits (int_from_bytes BigEndian data) = false ->
  exists x,
    decode_value fromtimestamp datetime_eq_dec FLOAT data = Ok (VFloat x) /\
    encode_value FLOAT (VFloat x : value datetime) = Ok data.
Proof.
  intros Hlen Hnan.
  exists (float32_of_bits (int_from_bytes BigEndian data)).
  unfold decode_value, unpack_f. rewrite Hlen. cbn [Nat.eqb bind].
  split; [reflexivity|].
  pose proof (int_from_bytes_range BigEndian data) as Hu.
  rewrite Hlen in Hu. change (8 * Z.of_nat 4) with 32 in Hu.
  destruct (float32_bits_round_trip _ Hu Hnan) as [Hsingle Hbits].
  unfold encode_value, pack_f. cbn [as_float bind].
  rewrite Hsingle, Hbits, andb_negb_r.
  f_equal. rewrite <- Hlen at 1. apply int_to_from_bytes.
Qed.

End FloatProperties.

Lemma float_decode_then_encode_witness :
  length [x80; x00; x00; x01] = 4%nat /\
  is_nan_bits (int_from_bytes BigEndian [x80; x00; x00; x01]) = false /\
  decode_value utc_fromtimestamp utc_eq_dec FLOAT [x80; x00; x00; x01]
  = Ok (VFloat (S754_finite true 1 (-149))) /\
  exists x,
    encode_value FLOAT (VFloat x : value utc_datetime)
    = Ok [x80; x00; x00; x01].
Proof.
  split; [reflexivity|]. split; [reflexivity|]. split; [reflexivity|].
  destruct (float_decode_then_encode utc_fromtimestamp utc_eq_dec
              [x80; x00; x00; x01] eq_refl eq_refl) as (x & _ & Henc).
  exists x. exact Henc.
Defined.
